(** * The xv6 job-control shell ([user/sh.c]): parser, executor and job table

    A shallow embedding of the shell of the fork-bomb lab.  The process that
    runs the code is a record [proc]; every system call whose result depends
    on the kernel reads that result from a stream kept in the record, so one
    definition of [runcmd] describes the interpreter (every [fork] returns a
    pid) as well as its children ([fork] returns 0). *)

From Stdlib Require Import ZArith Ascii String List Lia.
From stdpp Require Import base list strings pretty.

Local Open Scope string_scope.
Local Open Scope list_scope.
Local Open Scope Z_scope.

(** ** Constants *)

Definition MAXARGS : nat := 10.

(** Modelled from the spec: [kernel/param.h] is not among the sources.  The
    job table is "sized to the maximum concurrent process count the host
    supports" (section 3); xv6 fixes that count, [NPROC], at 64. *)
Definition NPROC : nat := 64.

(** Modelled from the spec: [kernel/param.h] is not among the sources; the
    number of descriptors per process, [NOFILE], is 16 in xv6. *)
Definition NOFILE : nat := 16.

(** Modelled from the spec: [kernel/fcntl.h] is not among the sources.  The
    open flags of section 6 (read-only; write; create-if-absent; truncate)
    with the values xv6 gives them.  The header has no append flag. *)
Definition O_RDONLY : Z := 0x000.
Definition O_WRONLY : Z := 0x001.
Definition O_RDWR   : Z := 0x002.
Definition O_CREATE : Z := 0x200.
Definition O_TRUNC  : Z := 0x400.

Definition NUL : ascii := "000"%char.
Definition LF  : ascii := "010"%char.
Definition nl  : string := String LF "".

(** ** Parsed command representation *)

(** [struct cmd] and its five variants; the [type] tag is the constructor.
    [argv] is the NULL-terminated vector, [back] the custom [int] flag. *)
Inductive cmd : Type :=
| EXEC  (argv : list string) (back : Z)
| REDIR (c : cmd) (file : string) (mode : Z) (fd : Z)
| PIPE  (l r : cmd)
| LIST  (l r : cmd)
| BACK  (c : cmd).

(** ** The process and its environment *)

(** What a descriptor refers to. *)
Inductive fobj : Type :=
| Console
| File (path : string) (mode : Z)
| PipeRead
| PipeWrite.

(** Text the shell writes, one constructor per format string. *)
Inductive msg : Type :=
| Job_started (pid : Z)
| Bg_exited (pid status : Z)
| Job_line (pid : Z)
| Exec_failed (prog : string)
| Open_failed (file : string)
| Cannot_cd (dir : string)
| Cannot_open_script (path : string)
| Prompt
| Leftovers (s : string)
| Panic (s : string).

(** The descriptor and the bytes of each message. *)
Definition render (m : msg) : Z * string :=
  match m with
  | Job_started pid => (1, "[" +:+ pretty pid +:+ "]" +:+ nl)
  | Bg_exited pid status =>
      (1, "[bg " +:+ pretty pid +:+ "] exited with status " +:+ pretty status +:+ nl)
  | Job_line pid => (1, pretty pid +:+ nl)
  | Exec_failed prog => (2, "exec " +:+ prog +:+ " failed" +:+ nl)
  | Open_failed file => (2, "open " +:+ file +:+ " failed" +:+ nl)
  | Cannot_cd dir => (2, "cannot cd " +:+ dir +:+ nl)
  | Cannot_open_script path => (2, "sh: cannot open " +:+ path +:+ nl)
  | Prompt => (2, "$ ")
  | Leftovers s => (2, "leftovers: " +:+ s +:+ nl)
  | Panic s => (2, s +:+ nl)
  end.

Inductive event : Type :=
| Out (m : msg)
| Forked (ret : Z)
| Chdir (dir : string).

Record proc : Type := Proc {
  bg_jobs : list Z;              (* int bg_jobs[NPROC] *)
  ofile   : list (option fobj);  (* the descriptor table of the process *)
  trace   : list event;          (* what the process did, oldest first *)
  forks   : list Z;              (* results of the coming fork() calls *)
  waits   : list (Z * Z);        (* (pid, status) of the coming wait() calls *)
  zombies : list (Z * Z);        (* the same for wait_noblock() *)
  opens   : list bool;           (* whether the coming open() calls find the file *)
  chdirs  : list bool;           (* whether the coming chdir() calls succeed *)
  execs   : list bool;           (* whether the coming exec() calls succeed *)
  input   : string               (* bytes the coming read() calls deliver *)
}.

Definition set_bg_jobs (j : list Z) (p : proc) : proc :=
  Proc j (ofile p) (trace p) (forks p) (waits p) (zombies p) (opens p) (chdirs p) (execs p) (input p).
Definition set_ofile (o : list (option fobj)) (p : proc) : proc :=
  Proc (bg_jobs p) o (trace p) (forks p) (waits p) (zombies p) (opens p) (chdirs p) (execs p) (input p).
Definition emit (e : event) (p : proc) : proc :=
  Proc (bg_jobs p) (ofile p) (trace p ++ [e]) (forks p) (waits p) (zombies p) (opens p) (chdirs p) (execs p) (input p).
Definition set_forks (l : list Z) (p : proc) : proc :=
  Proc (bg_jobs p) (ofile p) (trace p) l (waits p) (zombies p) (opens p) (chdirs p) (execs p) (input p).
Definition set_waits (l : list (Z * Z)) (p : proc) : proc :=
  Proc (bg_jobs p) (ofile p) (trace p) (forks p) l (zombies p) (opens p) (chdirs p) (execs p) (input p).
Definition set_zombies (l : list (Z * Z)) (p : proc) : proc :=
  Proc (bg_jobs p) (ofile p) (trace p) (forks p) (waits p) l (opens p) (chdirs p) (execs p) (input p).
Definition set_opens (l : list bool) (p : proc) : proc :=
  Proc (bg_jobs p) (ofile p) (trace p) (forks p) (waits p) (zombies p) l (chdirs p) (execs p) (input p).
Definition set_chdirs (l : list bool) (p : proc) : proc :=
  Proc (bg_jobs p) (ofile p) (trace p) (forks p) (waits p) (zombies p) (opens p) l (execs p) (input p).
Definition set_execs (l : list bool) (p : proc) : proc :=
  Proc (bg_jobs p) (ofile p) (trace p) (forks p) (waits p) (zombies p) (opens p) (chdirs p) l (input p).
Definition set_input (s : string) (p : proc) : proc :=
  Proc (bg_jobs p) (ofile p) (trace p) (forks p) (waits p) (zombies p) (opens p) (chdirs p) (execs p) s.

(** ** The job table *)

Module Jobs.

(** [add_job]: the first slot holding 0 takes [pid]; a full table is left
    as it is. *)
Fixpoint add_job (pid : Z) (jobs : list Z) : list Z :=
  match jobs with
  | [] => []
  | j :: rest => if j =? 0 then pid :: rest else j :: add_job pid rest
  end.

(** [remove_job]: the first slot holding [pid] is cleared. *)
Fixpoint remove_job (pid : Z) (jobs : list Z) : list Z :=
  match jobs with
  | [] => []
  | j :: rest => if j =? pid then 0 :: rest else j :: remove_job pid rest
  end.

(** [is_bg_job]: 1 when some slot holds [pid], else 0. *)
Fixpoint is_bg_job (pid : Z) (jobs : list Z) : Z :=
  match jobs with
  | [] => 0
  | j :: rest => if j =? pid then 1 else is_bg_job pid rest
  end.

End Jobs.
Export Jobs.

(** ** Running code in a process *)

(** How a piece of shell code ends: it returns to its caller, the process
    exits, or the process image is replaced by another program. *)
Inductive res (A : Type) : Type :=
| Ok (a : A) (st : proc)
| Exited (status : Z) (st : proc)
| Execed (argv : list string) (st : proc)
| OutOfFuel.
Arguments Ok {A} a st.
Arguments Exited {A} status st.
Arguments Execed {A} argv st.
Arguments OutOfFuel {A}.

Definition M (A : Type) : Type := proc → res A.

#[global] Instance M_ret : MRet M := λ A a st, Ok a st.
#[global] Instance M_bind : MBind M := λ A B f m st,
  match m st with
  | Ok a st' => f a st'
  | Exited status st' => Exited status st'
  | Execed argv st' => Execed argv st'
  | OutOfFuel => OutOfFuel
  end.

Definition modify (f : proc → proc) : M unit := λ st, Ok tt (f st).
Definition exit (status : Z) : M unit := λ st, Exited status st.
Definition printf (m : msg) : M unit := modify (emit (Out m)).

(** [panic]: one line on descriptor 2, then [exit(1)]. *)
Definition panic (s : string) : M unit := printf (Panic s);; exit 1.

(** C truth of an [int]. *)
Definition nonzero (z : Z) : bool := negb (z =? 0).

Module Sys.

(** Modelled from the spec: the kernel is not among the sources.  This
    module holds the "host process-control primitives" of section 6, each
    with the result shape given there; what the kernel decides comes from
    the streams of [proc].  Descriptors are allocated as xv6 does: the
    lowest free slot of the table is taken. *)
Fixpoint fdalloc (f : fobj) (tbl : list (option fobj)) : option (nat * list (option fobj)) :=
  match tbl with
  | [] => None
  | None :: rest => Some (O, Some f :: rest)
  | Some g :: rest =>
      match fdalloc f rest with
      | Some (i, rest') => Some (S i, Some g :: rest')
      | None => None
      end
  end.

Definition fd_index (fd : Z) : nat := Z.to_nat fd.

(** Modelled from the spec: [close(descriptor)]; the slot is emptied, and
    the shell ignores the result. *)
Definition close (fd : Z) : M unit :=
  modify (λ st, if fd <? 0 then st else set_ofile (<[fd_index fd := None]> (ofile st)) st).

(** Modelled from the spec: [open(path, flags)] gives a descriptor or
    fails; it fails when the file cannot be opened or the table is full,
    else takes the lowest free descriptor. *)
Definition open (path : string) (mode : Z) : M Z := λ st,
  match opens st with
  | [] => Ok (-1) st
  | found :: rest =>
      let st := set_opens rest st in
      if found then
        match fdalloc (File path mode) (ofile st) with
        | Some (i, tbl) => Ok (Z.of_nat i) (set_ofile tbl st)
        | None => Ok (-1) st
        end
      else Ok (-1) st
  end.

(** Modelled from the spec: [dup(fd)]; the lowest free descriptor takes
    what [fd] refers to. *)
Definition dup (fd : Z) : M Z := λ st,
  if fd <? 0 then Ok (-1) st else
  match ofile st !! fd_index fd with
  | Some (Some f) =>
      match fdalloc f (ofile st) with
      | Some (i, tbl) => Ok (Z.of_nat i) (set_ofile tbl st)
      | None => Ok (-1) st
      end
  | _ => Ok (-1) st
  end.

(** Modelled from the spec: [pipe(p)] gives two descriptors, read end
    first, and -1 when two are not free. *)
Definition pipe : M (Z * (Z * Z)) := λ st,
  match fdalloc PipeRead (ofile st) with
  | Some (i0, tbl0) =>
      match fdalloc PipeWrite tbl0 with
      | Some (i1, tbl1) => Ok (0, (Z.of_nat i0, Z.of_nat i1)) (set_ofile tbl1 st)
      | None => Ok (-1, (0, 0)) st
      end
  | None => Ok (-1, (0, 0)) st
  end.

(** Modelled from the spec: [fork()]; the result is the next one of the
    environment, none left meaning that the kernel refuses. *)
Definition fork : M Z := λ st,
  match forks st with
  | [] => Ok (-1) (emit (Forked (-1)) st)
  | pid :: rest => Ok pid (emit (Forked pid) (set_forks rest st))
  end.

(** Modelled from the spec: [wait(&status)] gives the pid and status of
    the next child to be reaped, or -1 when none is left. *)
Definition wait : M (Z * Z) := λ st,
  match waits st with
  | [] => Ok (-1, 0) st
  | r :: rest => Ok r (set_waits rest st)
  end.

(** Modelled from the spec: [wait_noblock(&status)], the same without
    blocking: 0 when no child is ready. *)
Definition wait_noblock : M (Z * Z) := λ st,
  match zombies st with
  | [] => Ok (0, 0) st
  | r :: rest => Ok r (set_zombies rest st)
  end.

(** Modelled from the spec: [chdir(dir)] succeeds or fails. *)
Definition chdir (dir : string) : M Z := λ st,
  match chdirs st with
  | [] => Ok (-1) st
  | ok :: rest =>
      let st := set_chdirs rest st in
      if ok then Ok 0 (emit (Chdir dir) st) else Ok (-1) st
  end.

(** Modelled from the spec: [exec(path, argv)] replaces the image of the
    process and returns only when it fails. *)
Definition exec (path : string) (argv : list string) : M Z := λ st,
  match execs st with
  | [] => Ok (-1) st
  | ok :: rest =>
      let st := set_execs rest st in
      if ok then Execed argv st else Ok (-1) st
  end.

(** Modelled from the spec: whether [fd] is an open descriptor. *)
Definition is_open (fd : Z) (st : proc) : bool :=
  match ofile st !! fd_index fd with
  | Some (Some _) => 0 <=? fd
  | _ => false
  end.

(** Modelled from the spec: [read(fd, p, 1)], the line-reading front end
    of section 6: one byte of the input, nothing at its end or when [fd]
    is not open. *)
Definition read1 (fd : Z) : M (option ascii) := λ st,
  if is_open fd st then
    match input st with
    | EmptyString => Ok None st
    | String c rest => Ok (Some c) (set_input rest st)
    end
  else Ok None st.

End Sys.

(** [fork1]: fork but panic on failure. *)
Definition fork1 : M Z :=
  pid ← Sys.fork;
  if pid =? -1 then panic "fork";; mret pid else mret pid.

(** ** Job bookkeeping on the process *)

Definition add_job_m (pid : Z) : M unit :=
  modify (λ st, set_bg_jobs (add_job pid (bg_jobs st)) st).

(** [print_jobs]: one line per slot that is not 0. *)
Fixpoint print_jobs_from (jobs : list Z) : M unit :=
  match jobs with
  | [] => mret tt
  | j :: rest => (if nonzero j then printf (Job_line j) else mret tt);; print_jobs_from rest
  end.
Definition print_jobs : M unit := λ st, print_jobs_from (bg_jobs st) st.

(** [reap_background_job]: a tracked pid leaves the table and is announced;
    any other pid is dropped without a word. *)
Definition reap_background_job (pid status : Z) : M unit := λ st,
  if nonzero (is_bg_job pid (bg_jobs st)) then
    Ok tt (emit (Out (Bg_exited pid status)) (set_bg_jobs (remove_job pid (bg_jobs st)) st))
  else Ok tt st.

(** [reap_zombies]: the loop runs once per child that [wait_noblock] hands
    over; the recursion is on what the environment still holds. *)
Fixpoint reap_zombies_from (zs : list (Z * Z)) : M unit :=
  match zs with
  | [] => mret tt
  | (pid, status) :: zs' =>
      modify (set_zombies zs');;
      if 0 <? pid then reap_background_job pid status;; reap_zombies_from zs'
      else mret tt
  end.
Definition reap_zombies : M unit := λ st, reap_zombies_from (zombies st) st.

(** [wait_for_foreground]: the [while((reaped_pid = wait(&status)) > 0)]
    loop, likewise by recursion on the coming results of [wait]. *)
Fixpoint wait_for_foreground_from (foreground_pid : Z) (ws : list (Z * Z)) : M unit :=
  match ws with
  | [] => mret tt
  | (reaped_pid, status) :: ws' =>
      modify (set_waits ws');;
      if 0 <? reaped_pid then
        if reaped_pid =? foreground_pid then mret tt
        else reap_background_job reaped_pid status;;
             wait_for_foreground_from foreground_pid ws'
      else mret tt
  end.
Definition wait_for_foreground (foreground_pid : Z) : M unit := λ st,
  wait_for_foreground_from foreground_pid (waits st) st.

(** ** The executor *)

(** The [BACK] case writes 1 into the [back] field of the wrapped command
    when that is an [EXEC], and into the [EXEC] sides of a wrapped [PIPE]. *)
Definition set_back_if_exec (c : cmd) : cmd :=
  match c with
  | EXEC argv _ => EXEC argv 1
  | _ => c
  end.

Definition mark_background (c : cmd) : cmd :=
  match c with
  | EXEC argv _ => EXEC argv 1
  | PIPE l r => PIPE (set_back_if_exec l) (set_back_if_exec r)
  | _ => c
  end.

(** The [is_background] of the [PIPE] case: the left side decides when it
    is an [EXEC], else the right side when that is one. *)
Definition pipe_is_background (l r : cmd) : Z :=
  match l with
  | EXEC _ back => back
  | _ => match r with
         | EXEC _ back => back
         | _ => 0
         end
  end.

(** [runcmd].  The tree that [BACK] hands on is the marked one, so the
    recursion is not structural and is bounded by [fuel]; [run] below
    supplies enough of it. *)
Fixpoint runcmd (fuel : nat) (c : cmd) : M unit :=
  match fuel with
  | O => λ _, OutOfFuel
  | S fuel =>
    match c with
    | EXEC argv back =>
        match argv with
        | [] => exit 1
        | argv0 :: argv_rest =>
            if String.eqb argv0 "cd" then
              match argv_rest with
              | [] => printf (Cannot_cd "")
              | argv1 :: _ =>
                  rc ← Sys.chdir argv1;
                  if rc <? 0 then printf (Cannot_cd argv1) else mret tt
              end
            else if String.eqb argv0 "jobs" then print_jobs
            else
              pid ← fork1;
              if pid =? 0 then
                Sys.exec argv0 argv;;
                printf (Exec_failed argv0);;
                exit 0
              else if nonzero back then
                add_job_m pid;;
                printf (Job_started pid)
              else wait_for_foreground pid
        end
    | REDIR c' file mode fd =>
        Sys.close fd;;
        rc ← Sys.open file mode;
        if rc <? 0 then printf (Open_failed file)
        else runcmd fuel c'
    | LIST l r =>
        runcmd fuel l;;
        runcmd fuel r
    | PIPE l r =>
        '(rc, (p0, p1)) ← Sys.pipe;
        (if rc <? 0 then panic "pipe" else mret tt);;
        pid_left ← fork1;
        if pid_left =? 0 then
          Sys.close 1;; Sys.dup p1;; Sys.close p0;; Sys.close p1;;
          runcmd fuel l;;
          exit 0
        else
          pid_right ← fork1;
          if pid_right =? 0 then
            Sys.close 0;; Sys.dup p0;; Sys.close p0;; Sys.close p1;;
            runcmd fuel r;;
            exit 0
          else
            Sys.close p0;; Sys.close p1;;
            if nonzero (pipe_is_background l r) then
              add_job_m pid_left;;
              add_job_m pid_right;;
              printf (Job_started pid_left)
            else
              wait_for_foreground pid_left;;
              wait_for_foreground pid_right
    | BACK c' => runcmd fuel (mark_background c')
    end
  end.

Fixpoint cmd_depth (c : cmd) : nat :=
  match c with
  | EXEC _ _ => O
  | REDIR c' _ _ _ => S (cmd_depth c')
  | PIPE l r => S (Nat.max (cmd_depth l) (cmd_depth r))
  | LIST l r => S (Nat.max (cmd_depth l) (cmd_depth r))
  | BACK c' => S (cmd_depth c')
  end.

(** [runcmd] with the fuel its tree needs. *)
Definition run (c : cmd) : M unit := runcmd (S (cmd_depth c)) c.
Arguments run : simpl never.

(** ** The parser *)

Module Parse.

(** How a parsing function ends: with a value and the cursor [*ps] moved,
    or in [panic] with the lines written to descriptor 2 before
    [exit(1)]. *)
Inductive presult (A : Type) : Type :=
| Parsed (a : A) (ps : string)
| Panicked (out : list msg)
| NoFuel.
Arguments Parsed {A} a ps.
Arguments Panicked {A} out.
Arguments NoFuel {A}.

(** A parsing function reads and moves the cursor [char **ps]; the cursor
    is the text from [*ps] up to [es]. *)
Definition P (A : Type) : Type := string → presult A.

#[global] Instance P_ret : MRet P := λ A a ps, Parsed a ps.
#[global] Instance P_bind : MBind P := λ A B f m ps,
  match m ps with
  | Parsed a ps' => f a ps'
  | Panicked out => Panicked out
  | NoFuel => NoFuel
  end.

Definition ppanic {A} (s : string) : P A := λ _, Panicked [Panic s].

Definition whitespace : string :=
  String " " (String "009" (String "013" (String "010" (String "011" "")))).
Definition symbols : string := "<|>&;()".

(** Modelled from the spec: [user/ulib.c] is not among the sources.  xv6's
    [strchr] walks the string up to its terminator, so the terminator
    itself is never found; [true] stands for a pointer that is not null. *)
Fixpoint strchr (s : string) (c : ascii) : bool :=
  match s with
  | EmptyString => false
  | String d s' => Ascii.eqb d c || strchr s' c
  end.

(** [while(s < es && strchr(whitespace, *s)) s++;] *)
Fixpoint skip_whitespace (s : string) : string :=
  match s with
  | EmptyString => EmptyString
  | String c s' => if strchr whitespace c then skip_whitespace s' else s
  end.

(** [while(s < es && !strchr(whitespace, *s) && !strchr(symbols, *s)) s++;]
    gives the characters passed over and what is left. *)
Fixpoint scan_word (s : string) : string * string :=
  match s with
  | EmptyString => (EmptyString, EmptyString)
  | String c s' =>
      if strchr whitespace c || strchr symbols c then (EmptyString, s)
      else let (w, rest) := scan_word s' in (String c w, rest)
  end.

(** [gettoken]: the token code [ret] and the text between [*q] and [*eq]. *)
Definition gettoken : P (ascii * string) := λ ps,
  let s := skip_whitespace ps in
  match s with
  | EmptyString => Parsed (NUL, "") ""
  | String c s' =>
      if Ascii.eqb c NUL then Parsed (NUL, "") (skip_whitespace s)
      else if strchr "|();&<" c then Parsed (c, String c "") (skip_whitespace s')
      else if Ascii.eqb c ">" then
        match s' with
        | String ">" s'' => Parsed ("+"%char, ">>") (skip_whitespace s'')
        | _ => Parsed (">"%char, ">") (skip_whitespace s')
        end
      else let (w, rest) := scan_word s in Parsed ("a"%char, w) (skip_whitespace rest)
  end.

(** [peek]: [*s && strchr(toks, *s)] after the white space. *)
Definition peek (toks : string) : P bool := λ ps,
  let s := skip_whitespace ps in
  match s with
  | EmptyString => Parsed false s
  | String c _ => Parsed (negb (Ascii.eqb c NUL) && strchr toks c) s
  end.

(* [struct cmd *], for signatures in which a variable is called [cmd]. *)
Local Abbreviation tree := cmd (only parsing).

Definition execcmd : cmd := EXEC [] 0.
Definition redircmd (subcmd : cmd) (file : string) (mode fd : Z) : cmd :=
  REDIR subcmd file mode fd.
Definition pipecmd (l r : cmd) : cmd := PIPE l r.
Definition listcmd (l r : cmd) : cmd := LIST l r.
Definition backcmd (subcmd : cmd) : cmd := BACK subcmd.

(** [parseredirs]: one turn of the loop per redirection, each wrapping
    what has been built so far. *)
Fixpoint parseredirs (fuel : nat) (cmd : tree) : P tree :=
  match fuel with
  | O => λ _, NoFuel
  | S fuel =>
      more ← peek "<>";
      if more : bool then
        '(tok, _) ← gettoken;
        '(tok2, q) ← gettoken;
        if negb (Ascii.eqb tok2 "a") then ppanic "missing file for redirection"
        else
          parseredirs fuel
            (if Ascii.eqb tok "<" then redircmd cmd q O_RDONLY 0
             else if Ascii.eqb tok ">" then
               redircmd cmd q (Z.lor (Z.lor O_WRONLY O_CREATE) O_TRUNC) 1
             else if Ascii.eqb tok "+" then
               redircmd cmd q (Z.lor O_WRONLY O_CREATE) 1
             else cmd)
      else mret cmd
  end.

(** In [parseexec] the pointer [cmd] keeps naming the [execcmd] at the
    core of [ret] while [parseredirs] wraps [ret]; the writes to
    [cmd->argv] therefore land below the wrappers. *)
Fixpoint set_argv (ret : cmd) (argv : list string) : cmd :=
  match ret with
  | EXEC _ back => EXEC argv back
  | REDIR c file mode fd => REDIR (set_argv c argv) file mode fd
  | _ => ret
  end.

(** The [while(!peek(ps, es, "|)&;"))] loop of [parseexec]; [argc] is the
    length of [argv]. *)
Fixpoint parseexec_args (fuel : nat) (ret : cmd) (argv : list string) : P (cmd * list string) :=
  match fuel with
  | O => λ _, NoFuel
  | S fuel =>
      stop ← peek "|)&;";
      if stop : bool then mret (ret, argv)
      else
        '(tok, q) ← gettoken;
        if Ascii.eqb tok NUL then mret (ret, argv)
        else if negb (Ascii.eqb tok "a") then ppanic "syntax"
        else
          let argv := argv ++ [q] in
          if (MAXARGS <=? length argv)%nat then ppanic "too many args"
          else
            ret ← parseredirs fuel ret;
            parseexec_args fuel ret argv
  end.

(** The [while(peek(ps, es, "&"))] loop of [parseline]. *)
Fixpoint parse_backs (fuel : nat) (cmd : tree) : P tree :=
  match fuel with
  | O => λ _, NoFuel
  | S fuel =>
      more ← peek "&";
      if more : bool then gettoken;; parse_backs fuel (backcmd cmd)
      else mret cmd
  end.

Fixpoint parseline (fuel : nat) : P cmd :=
  match fuel with
  | O => λ _, NoFuel
  | S fuel =>
      cmd ← parsepipe fuel;
      cmd ← parse_backs fuel cmd;
      more ← peek ";";
      if more : bool then
        gettoken;;
        rest ← parseline fuel;
        mret (listcmd cmd rest)
      else mret cmd
  end
with parsepipe (fuel : nat) : P cmd :=
  match fuel with
  | O => λ _, NoFuel
  | S fuel =>
      cmd ← parseexec fuel;
      more ← peek "|";
      if more : bool then
        gettoken;;
        rest ← parsepipe fuel;
        mret (pipecmd cmd rest)
      else mret cmd
  end
with parseexec (fuel : nat) : P cmd :=
  match fuel with
  | O => λ _, NoFuel
  | S fuel =>
      block ← peek "(";
      if block : bool then parseblock fuel
      else
        ret ← parseredirs fuel execcmd;
        '(ret, argv) ← parseexec_args fuel ret [];
        mret (set_argv ret argv)
  end
with parseblock (fuel : nat) : P cmd :=
  match fuel with
  | O => λ _, NoFuel
  | S fuel =>
      open ← peek "(";
      if negb open then ppanic "parseblock"
      else
        gettoken;;
        cmd ← parseline fuel;
        close ← peek ")";
        if negb close then ppanic "syntax - missing )"
        else
          gettoken;;
          parseredirs fuel cmd
  end.

(** [strlen]: the text before the first NUL. *)
Fixpoint c_string (buf : string) : string :=
  match buf with
  | EmptyString => EmptyString
  | String c rest => if Ascii.eqb c NUL then EmptyString else String c (c_string rest)
  end.

(** [parsecmd].  [nulterminate] turns the recorded [q..eq] ranges into
    strings; the tree here holds those texts already, so nothing is left
    for it to do. *)
Definition parsecmd (fuel : nat) (buf : string) : presult cmd :=
  match (cmd ← parseline fuel; peek "";; mret cmd) (c_string buf) with
  | Parsed cmd EmptyString => Parsed cmd EmptyString
  | Parsed cmd s => Panicked [Leftovers s; Panic "syntax"]
  | other => other
  end.

End Parse.

(** ** Reading lines and the main loop *)

(** The [while(i < nbuf - 1)] loop of [getcmd]: [room] counts the turns
    left, [first] holds while [i == 0].  [None] is the [return -1] taken
    inside the loop; otherwise the bytes stored before the terminator. *)
Fixpoint getcmd_fill (room : nat) (first : bool) (fd : Z) : M (option string) :=
  match room with
  | O => mret (Some EmptyString)
  | S room =>
      got ← Sys.read1 fd;
      match got with
      | None => if first then mret None else mret (Some EmptyString)
      | Some c =>
          if Ascii.eqb c LF then mret (Some EmptyString)
          else
            rest ← getcmd_fill room false fd;
            mret (String c <$> rest)
      end
  end.

(** [buf[0]], the buffer being a C string. *)
Definition first_char (buf : string) : ascii :=
  match buf with
  | EmptyString => NUL
  | String c _ => c
  end.

(** [getcmd]: the result and the contents of [buf]. *)
Definition getcmd (nbuf : nat) (fd : Z) : M (Z * string) :=
  filled ← getcmd_fill (nbuf - 1) true fd;
  match filled with
  | None => mret (-1, EmptyString)
  | Some buf =>
      if Ascii.eqb (first_char buf) NUL then mret (-1, buf)
      else mret (0, buf)
  end.

(** Fuel that [parsecmd] never uses up on [buf]: four calls at most are
    made before a character is consumed. *)
Definition parse_fuel (buf : string) : nat := 4 * String.length buf + 4.

(** [runcmd(parsecmd(buf))]: a parse that panics writes its lines and
    ends the process before [runcmd] is entered. *)
Definition parse_and_run (buf : string) : M unit :=
  match Parse.parsecmd (parse_fuel buf) buf with
  | Parse.Parsed cmd _ => run cmd
  | Parse.Panicked out => (λ st, Ok tt (foldl (λ st m, emit (Out m) st) st out));; exit 1
  | Parse.NoFuel => λ _, OutOfFuel
  end.

(** The [while(1)] loop of [main], one unit of fuel per line read. *)
Fixpoint sh_loop (fuel : nat) (fd : Z) : M unit :=
  match fuel with
  | O => λ _, OutOfFuel
  | S fuel =>
      (if fd =? 0 then printf Prompt else mret tt);;
      '(rc, buf) ← getcmd 100 fd;
      if rc <? 0 then mret tt
      else if Ascii.eqb (first_char buf) LF || Ascii.eqb (first_char buf) NUL then
        sh_loop fuel fd
      else
        parse_and_run buf;;
        (if fd =? 0 then reap_zombies else mret tt);;
        sh_loop fuel fd
  end.

(** [main]: [argv] is the whole vector, the name of the shell first. *)
Definition main (fuel : nat) (argv : list string) : M unit :=
  modify (set_bg_jobs (replicate NPROC 0));;
  fd ← match argv with
       | _ :: script :: _ =>
           fd ← Sys.open script O_RDONLY;
           if fd <? 0 then printf (Cannot_open_script script);; exit 1;; mret fd
           else mret fd
       | _ => mret 0
       end;
  sh_loop fuel fd;;
  exit 0.

(** A process as [init] starts the shell: the console on descriptors 0, 1
    and 2, no job, nothing done yet. *)
Definition boot (forks : list Z) (waits zombies : list (Z * Z))
    (opens chdirs execs : list bool) (input : string) : proc :=
  Proc (replicate NPROC 0)
       ([Some Console; Some Console; Some Console] ++ replicate (NOFILE - 3) None)
       [] forks waits zombies opens chdirs execs input.

(** ** Vocabulary of the statements *)

(** The completion notices for [pid] among some events. *)
Definition is_notice_for (pid : Z) (e : event) : bool :=
  match e with
  | Out (Bg_exited p _) => p =? pid
  | _ => false
  end.
Definition count_notices (pid : Z) (tr : list event) : nat :=
  length (List.filter (is_notice_for pid) tr).

(** How often [pid] occurs in a list of pids: the slots of a table that
    hold it, or the times [wait] returns it. *)
Definition occurrences (pid : Z) (jobs : list Z) : nat := count_occ Z.eq_dec jobs pid.
Arguments occurrences : simpl never.

(** The [fork] events of a trace. *)
Definition is_fork (e : event) : bool :=
  match e with
  | Forked _ => true
  | _ => false
  end.
Definition count_forks (tr : list event) : nat := length (List.filter is_fork tr).

(** An [EXEC] whose [back] flag is set. *)
Definition exec_marked (c : cmd) : bool :=
  match c with
  | EXEC _ back => nonzero back
  | _ => false
  end.

(** A command that is an [EXEC]: the test [cmd->type == EXEC]. *)
Definition is_exec (c : cmd) : bool :=
  match c with
  | EXEC _ _ => true
  | _ => false
  end.

(** The two sides of a [PIPE] carry the same flag when both are [EXEC]s. *)
Definition marks_agree (l r : cmd) : Prop :=
  match l, r with
  | EXEC _ bl, EXEC _ br => nonzero bl = nonzero br
  | _, _ => True
  end.

(** Every [PIPE] of the tree has sides whose flags agree. *)
Fixpoint well_marked (c : cmd) : Prop :=
  match c with
  | EXEC _ _ => True
  | REDIR c' _ _ _ => well_marked c'
  | PIPE l r => marks_agree l r ∧ well_marked l ∧ well_marked r
  | LIST l r => well_marked l ∧ well_marked r
  | BACK c' => well_marked c'
  end.

(** A computation that never uses up its fuel. *)
Definition ends {A} (m : M A) : Prop := ∀ st, m st ≠ OutOfFuel.

(** No [REDIR] of the tree is run by the interpreter itself: each lies
    under a [PIPE], whose sides are run by children. *)
Fixpoint no_redir_outside_pipes (c : cmd) : Prop :=
  match c with
  | EXEC _ _ => True
  | REDIR _ _ _ _ => False
  | PIPE _ _ => True
  | LIST l r => no_redir_outside_pipes l ∧ no_redir_outside_pipes r
  | BACK c' => no_redir_outside_pipes c'
  end.

(** A field of [proc] that the setters of the other fields leave alone;
    the descriptor table and the input are such fields. *)
Class Frame {X} (field : proc → X) : Prop := {
  frame_bg_jobs : ∀ j st, field (set_bg_jobs j st) = field st;
  frame_emit    : ∀ e st, field (emit e st) = field st;
  frame_forks   : ∀ l st, field (set_forks l st) = field st;
  frame_waits   : ∀ l st, field (set_waits l st) = field st;
  frame_zombies : ∀ l st, field (set_zombies l st) = field st;
  frame_opens   : ∀ l st, field (set_opens l st) = field st;
  frame_chdirs  : ∀ l st, field (set_chdirs l st) = field st;
  frame_execs   : ∀ l st, field (set_execs l st) = field st
}.

(** A computation that gives a field back as it found it whenever it
    returns to its caller. *)
Definition keeps {A X} (field : proc → X) (m : M A) : Prop :=
  ∀ st a st', m st = Ok a st' → field st' = field st.

Definition keeps_ofile {A} (m : M A) : Prop := keeps ofile m.

(** A computation that never returns to its caller. *)
Definition no_return {A} (m : M A) : Prop :=
  ∀ st a st', m st ≠ Ok a st'.

(** Characters that can stand in a word. *)
Definition word_char (c : ascii) : bool :=
  negb (Parse.strchr Parse.whitespace c || Parse.strchr Parse.symbols c
        || Ascii.eqb c NUL).

Fixpoint all_chars (p : ascii → bool) (s : string) : bool :=
  match s with
  | EmptyString => true
  | String c s' => p c && all_chars p s'
  end.

(** A word: one character at least, each of them a word character. *)
Definition is_word (w : string) : bool :=
  match w with
  | EmptyString => false
  | _ => all_chars word_char w
  end.

(** White space only. *)
Definition is_blank (s : string) : bool := all_chars (Parse.strchr Parse.whitespace) s.

(** Text at which a word ends: the end of the line, white space or a
    symbol. *)
Definition stops (rest : string) : bool :=
  match rest with
  | EmptyString => true
  | String c _ => Parse.strchr Parse.whitespace c || Parse.strchr Parse.symbols c
  end.

(** Text at which a simple command ends once white space is passed: the
    end of the line or one of [|)&;]. *)
Definition ends_command (rest : string) : bool :=
  match Parse.skip_whitespace rest with
  | EmptyString => true
  | String c _ => negb (Ascii.eqb c NUL) && Parse.strchr "|)&;" c
  end.

(** Words with one space between them. *)
Fixpoint unwords (ws : list string) : string :=
  match ws with
  | [] => EmptyString
  | [w] => w
  | w :: ws' => w +:+ " " +:+ unwords ws'
  end.

(** What the parser leaves in a tree: no flag set, and on every [REDIR] one
    of the three pairs of mode and descriptor. *)
Fixpoint parsed_shape (c : cmd) : Prop :=
  match c with
  | EXEC _ back => back = 0
  | REDIR c' _ mode fd =>
      parsed_shape c'
      ∧ ((mode = O_RDONLY ∧ fd = 0)
         ∨ (mode = Z.lor (Z.lor O_WRONLY O_CREATE) O_TRUNC ∧ fd = 1)
         ∨ (mode = Z.lor O_WRONLY O_CREATE ∧ fd = 1))
  | PIPE l r => parsed_shape l ∧ parsed_shape r
  | LIST l r => parsed_shape l ∧ parsed_shape r
  | BACK c' => parsed_shape c'
  end.

(** The flags of [kernel/fcntl.h] by name, and those a mode carries. *)
Inductive open_flag : Type :=
| Read_only | Write_only | Read_write | Create | Truncate.

Definition mode_flags (mode : Z) : list open_flag :=
  (if Z.land mode 3 =? O_WRONLY then [Write_only]
   else if Z.land mode 3 =? O_RDWR then [Read_write]
   else [Read_only])
  ++ (if Z.testbit mode 9 then [Create] else [])
  ++ (if Z.testbit mode 10 then [Truncate] else []).

(** What follows a word of [unwords (w :: ws) +:+ rest]. *)
Definition after_word (ws : list string) (rest : string) : string :=
  match ws with
  | [] => rest
  | _ => " " +:+ unwords ws +:+ rest
  end.

(** The cursor once that word is taken. *)
Definition next_cursor (ws : list string) (rest : string) : string :=
  match ws with
  | [] => Parse.skip_whitespace rest
  | _ => unwords ws +:+ rest
  end.

(** No NUL in a text. *)
Definition no_nul (s : string) : bool := all_chars (λ c, negb (Ascii.eqb c NUL)) s.

(** No line feed in a text. *)
Definition no_lf (s : string) : bool := all_chars (λ c, negb (Ascii.eqb c LF)) s.

(** The state in which the loop of [main] takes up a line it has read:
    the prompt written in interactive mode, the line taken off the input. *)
Definition line_read (fd : Z) (rest : string) (st : proc) : proc :=
  set_input rest (if fd =? 0 then emit (Out Prompt) st else st).

(** A parse that ends, in a tree or in [panic], with the cursor no
    further from the end of the line than it was. *)
Definition consumes {A} (s : string) (r : Parse.presult A) : Prop :=
  match r with
  | Parse.Parsed _ s' => (String.length s' ≤ String.length s)%nat
  | Parse.Panicked _ => True
  | Parse.NoFuel => False
  end.

(** ** Vocabulary of the further properties *)

(** A run after which the process is gone from the code that called it:
    it has exited or has become another program. *)
Definition leaves {A} (r : res A) : Prop :=
  match r with
  | Exited _ _ | Execed _ _ => True
  | _ => False
  end.

(** The lines [print_jobs] writes for a table. *)
Definition job_lines (jobs : list Z) : list event :=
  (λ j, Out (Job_line j)) <$> List.filter nonzero jobs.

(** Where a loop over the results of [wait] or [wait_noblock] stops for
    want of a child: at the end of the results or at one that is not
    positive. *)
Definition no_child (post : list (Z * Z)) : Prop :=
  match post with
  | [] => True
  | (pid, _) :: _ => pid ≤ 0
  end.

(** [fork] is about to fail: the kernel has no result left to give, or
    its next result is -1. *)
Definition fork_refused (st : proc) : Prop := hd (-1) (forks st) = -1.

(** The state [fork] leaves when it fails. *)
Definition fork_failed (st : proc) : proc :=
  emit (Forked (-1)) (set_forks (tail (forks st)) st).

(** A run that ends, by returning, by [exit] or by [exec], in a state
    of which [P] holds. *)
Definition ends_in {A} (P : proc → Prop) (r : res A) : Prop :=
  match r with
  | Ok _ st' | Exited _ st' | Execed _ st' => P st'
  | OutOfFuel => False
  end.

(** The job table of [st'] seen from an earlier state [st] of the same
    process: as many slots; of the results of [fork] that were to come,
    the first ones, [used], have been returned since; and in the slots
    nothing but 0, pids the table held before, the pids [used], and the
    pids [own]. *)
Definition tracked_from (own : list Z) (st st' : proc) : Prop :=
  length (bg_jobs st') = length (bg_jobs st)
  ∧ ∃ used,
      forks st = used ++ forks st'
      ∧ ∀ q, q ∈ bg_jobs st' → q = 0 ∨ q ∈ own ∨ q ∈ bg_jobs st ∨ q ∈ used.

(** A computation every run of which, however it ends, leaves a state
    related by [R] to the one it started in. *)
Definition steps {A} (R : proc → proc → Prop) (m : M A) : Prop :=
  ∀ st, match m st with
        | Ok _ st' | Exited _ st' | Execed _ st' => R st st'
        | OutOfFuel => True
        end.

(** The result of a parse that is given more fuel: the same, unless the
    fuel had run out. *)
Definition refines {A} (r1 r2 : Parse.presult A) : Prop :=
  r1 = Parse.NoFuel ∨ r1 = r2.

(** What fits the arrays of an [execcmd] and can be handed to [exec]:
    every [argv] is shorter than [MAXARGS], which leaves a slot for the
    terminator, and is made of words; every file name is a word. *)
Fixpoint argv_fits (c : cmd) : Prop :=
  match c with
  | EXEC argv _ => (length argv < MAXARGS)%nat ∧ Forall (λ w, is_word w = true) argv
  | REDIR c' file _ _ => argv_fits c' ∧ is_word file = true
  | PIPE l r => argv_fits l ∧ argv_fits r
  | LIST l r => argv_fits l ∧ argv_fits r
  | BACK c' => argv_fits c'
  end.

(** A parsing function that, on a text without NUL, gives a value of
    which [Q] holds and leaves a text without NUL, whenever it returns. *)
Definition parses {A} (Q : A → Prop) (m : Parse.P A) : Prop :=
  ∀ s, no_nul s = true →
    match m s with
    | Parse.Parsed a s' => Q a ∧ no_nul s' = true
    | _ => True
    end.

(** A pipeline of simple commands: the tree, nested to the right as
    [parsepipe] builds it, and the text, with [ | ] between the
    commands. *)
Fixpoint pipeline (cmds : list (list string)) : cmd :=
  match cmds with
  | [] => EXEC [] 0
  | [ws] => EXEC ws 0
  | ws :: more => PIPE (EXEC ws 0) (pipeline more)
  end.

Fixpoint pipeline_text (cmds : list (list string)) : string :=
  match cmds with
  | [] => ""
  | [ws] => unwords ws
  | ws :: more => unwords ws +:+ " | " +:+ pipeline_text more
  end.

(** The words of a simple command that the parser accepts: one word at
    least and fewer than [MAXARGS]. *)
Definition simple_command (ws : list string) : Prop :=
  ws ≠ [] ∧ Forall (λ w, is_word w = true) ws ∧ (length ws < MAXARGS)%nat.

(** The [REDIR] node that [parseredirs] builds for each of the three
    redirection symbols. *)
Definition redir_node (sym : string) (c : cmd) (file : string) : cmd :=
  if String.eqb sym "<" then REDIR c file O_RDONLY 0
  else if String.eqb sym ">" then
    REDIR c file (Z.lor (Z.lor O_WRONLY O_CREATE) O_TRUNC) 1
  else REDIR c file (Z.lor O_WRONLY O_CREATE) 1.

Definition redir_symbol (sym : string) : Prop := sym = "<" ∨ sym = ">" ∨ sym = ">>".

(** * Proofs *)

(** One step of a computation in [M], and one layer of a parsing function
    in [P]. *)
Ltac run_step :=
  repeat (progress (unfold mbind, M_bind, mret, M_ret, modify, printf, exit; simpl)).

Ltac bind_step :=
  unfold mbind, Parse.P_bind, mret, Parse.P_ret, Parse.ppanic; cbv beta iota.

Ltac parse_step :=
  cbn [Parse.parseredirs Parse.parseexec_args Parse.parse_backs Parse.parseline
       Parse.parsepipe Parse.parseexec Parse.parseblock];
  bind_step.

(** ** The job table *)

Section JobTable.
Implicit Types (pid j : Z) (jobs : list Z).

Lemma add_job_length pid jobs : length (add_job pid jobs) = length jobs.
Proof.
  induction jobs as [|j rest IH]; simpl; [done|].
  destruct (j =? 0); simpl; congruence.
Qed.

Lemma remove_job_length pid jobs : length (remove_job pid jobs) = length jobs.
Proof.
  induction jobs as [|j rest IH]; simpl; [done|].
  destruct (j =? pid); simpl; congruence.
Qed.

Lemma add_job_full pid jobs : 0 ∉ jobs → add_job pid jobs = jobs.
Proof.
  induction jobs as [|j rest IH]; simpl; intros Hfull; [done|].
  apply not_elem_of_cons in Hfull as [Hj Hrest].
  destruct (Z.eqb_spec j 0); [congruence|].
  by rewrite IH.
Qed.

Lemma add_job_first_free pid jobs (i : nat) :
  jobs !! i = Some 0 →
  (∀ k : nat, (k < i)%nat → jobs !! k ≠ Some 0) →
  add_job pid jobs = <[i := pid]> jobs.
Proof.
  revert i. induction jobs as [|j rest IH]; intros i Hi Hbefore; [done|].
  destruct i as [|i]; simpl in *.
  - injection Hi as ->. done.
  - destruct (Z.eqb_spec j 0) as [->|Hj].
    + exfalso. apply (Hbefore O); [lia | done].
    + f_equal. apply IH; [done|].
      intros k Hk. apply (Hbefore (S k)). lia.
Qed.

Lemma is_bg_job_elem pid jobs : pid ∈ jobs → is_bg_job pid jobs = 1.
Proof.
  induction jobs as [|j rest IH]; simpl; intros Hin.
  - by apply elem_of_nil in Hin.
  - destruct (Z.eqb_spec j pid); [done|].
    apply elem_of_cons in Hin as [->|Hin]; [done | by apply IH].
Qed.

Lemma is_bg_job_not_elem pid jobs : pid ∉ jobs → is_bg_job pid jobs = 0.
Proof.
  induction jobs as [|j rest IH]; simpl; intros Hin; [done|].
  apply not_elem_of_cons in Hin as [Hj Hrest].
  destruct (Z.eqb_spec j pid); [congruence | by apply IH].
Qed.

Lemma occurrences_pos_elem pid jobs : (0 < occurrences pid jobs)%nat ↔ pid ∈ jobs.
Proof.
  unfold occurrences. rewrite list_elem_of_In, (count_occ_In Z.eq_dec). lia.
Qed.

Lemma occurrences_remove_same pid jobs :
  pid ≠ 0 → occurrences pid (remove_job pid jobs) = pred (occurrences pid jobs).
Proof.
  intros Hpid. unfold occurrences.
  induction jobs as [|j rest IH]; simpl remove_job; [done|].
  destruct (Z.eqb_spec j pid) as [->|Hj].
  - rewrite count_occ_cons_neq by congruence.
    by rewrite count_occ_cons_eq by done.
  - rewrite !count_occ_cons_neq by done. apply IH.
Qed.

Lemma occurrences_remove_other pid p jobs :
  pid ≠ 0 → pid ≠ p → occurrences pid (remove_job p jobs) = occurrences pid jobs.
Proof.
  intros Hpid Hne. unfold occurrences.
  induction jobs as [|j rest IH]; simpl remove_job; [done|].
  destruct (Z.eqb_spec j p) as [->|Hj].
  - by rewrite !count_occ_cons_neq by congruence.
  - destruct (Z.eq_dec j pid) as [->|Hjp].
    + rewrite !count_occ_cons_eq by done. by rewrite IH.
    + by rewrite !count_occ_cons_neq by done.
Qed.

Lemma occurrences_cons pid j jobs :
  occurrences pid (j :: jobs)
    = ((if decide (j = pid) then 1 else 0) + occurrences pid jobs)%nat.
Proof.
  unfold occurrences.
  destruct (decide (j = pid)) as [->|Hne].
  - by rewrite count_occ_cons_eq.
  - by rewrite count_occ_cons_neq.
Qed.

End JobTable.

(** ** The wait protocol *)

Section WaitProtocol.
Implicit Types (pid status F B : Z) (st : proc).

Lemma reap_background_job_tracked pid status st :
  pid ∈ bg_jobs st →
  reap_background_job pid status st =
    Ok tt (emit (Out (Bg_exited pid status))
             (set_bg_jobs (remove_job pid (bg_jobs st)) st)).
Proof.
  intros Hin. unfold reap_background_job.
  by rewrite (is_bg_job_elem _ _ Hin).
Qed.

Lemma reap_background_job_untracked pid status st :
  pid ∉ bg_jobs st → reap_background_job pid status st = Ok tt st.
Proof.
  intros Hin. unfold reap_background_job.
  by rewrite (is_bg_job_not_elem _ _ Hin).
Qed.

(** One turn of the loop of [wait_for_foreground], as the source has it. *)
Lemma wait_for_foreground_unfold F st :
  wait_for_foreground F st =
    ('(reaped_pid, status) ← Sys.wait;
     if 0 <? reaped_pid then
       if reaped_pid =? F then mret tt
       else reap_background_job reaped_pid status;; wait_for_foreground F
     else mret tt) st.
Proof.
  unfold wait_for_foreground, Sys.wait, reap_background_job. run_step.
  destruct (waits st) as [|[p s] ws]; run_step; [done|].
  destruct (0 <? p); [|done].
  destruct (p =? F); [done|].
  unfold reap_background_job.
  destruct (nonzero _); simpl; done.
Qed.

(** One turn of the loop of [reap_zombies], as the source has it. *)
Lemma reap_zombies_unfold st :
  reap_zombies st =
    ('(pid, status) ← Sys.wait_noblock;
     if 0 <? pid then reap_background_job pid status;; reap_zombies
     else mret tt) st.
Proof.
  unfold reap_zombies, Sys.wait_noblock, reap_background_job. run_step.
  destruct (zombies st) as [|[p s] zs]; run_step; [done|].
  destruct (0 <? p); [|done].
  unfold reap_background_job.
  destruct (nonzero _); simpl; done.
Qed.

Lemma count_notices_cons_same pid status tr :
  count_notices pid (Out (Bg_exited pid status) :: tr) = S (count_notices pid tr).
Proof. unfold count_notices. simpl. by rewrite Z.eqb_refl. Qed.

Lemma count_notices_cons_other pid p status tr :
  p ≠ pid →
  count_notices pid (Out (Bg_exited p status) :: tr) = count_notices pid tr.
Proof.
  intros Hne. unfold count_notices. simpl.
  by destruct (Z.eqb_spec p pid).
Qed.

(** The loop over the results [pre] that come before that of [F]. *)
Lemma wait_for_foreground_from_spec F sF post :
  0 < F →
  ∀ pre st,
    Forall (λ w : Z * Z, 0 < w.1 ∧ w.1 ≠ F) pre →
    ∃ st' new,
      wait_for_foreground_from F (pre ++ (F, sF) :: post) st = Ok tt st'
      ∧ waits st' = post
      ∧ trace st' = trace st ++ new
      ∧ Forall (λ e, ∃ p s, e = Out (Bg_exited p s) ∧ (p, s) ∈ pre) new
      ∧ ∀ B, B ≠ 0 →
          count_notices B new
            = Nat.min (occurrences B (pre.*1)) (occurrences B (bg_jobs st))
          ∧ occurrences B (bg_jobs st')
            = (occurrences B (bg_jobs st)
               - Nat.min (occurrences B (pre.*1)) (occurrences B (bg_jobs st)))%nat.
Proof.
  intros HF. induction pre as [|[p s] pre IH]; intros st Hpre.
  - exists (set_waits post st), []. simpl. run_step.
    assert ((0 <? F) = true) as -> by lia. rewrite Z.eqb_refl.
    repeat split; [by rewrite app_nil_r | done | unfold occurrences; simpl; lia].
  - apply Forall_cons in Hpre as [[Hp HpF] Hpre]. simpl in Hp, HpF.
    simpl. run_step.
    assert ((0 <? p) = true) as -> by lia.
    destruct (Z.eqb_spec p F) as [|_]; [done|].
    destruct (decide (p ∈ bg_jobs st)) as [Hin|Hin].
    + rewrite reap_background_job_tracked by done.
      destruct (IH (emit (Out (Bg_exited p s))
                      (set_bg_jobs (remove_job p (bg_jobs st))
                         (set_waits (pre ++ (F, sF) :: post) st))) Hpre)
        as (st' & new & Hrun & Hw & Htr & Hnew & Hcount).
      exists st', (Out (Bg_exited p s) :: new). simpl in Htr, Hcount.
      split; [done|]. split; [done|].
      split; [by rewrite Htr, <- app_assoc|].
      split.
      { constructor; [exists p, s; split; [done | apply list_elem_of_here]|].
        eapply Forall_impl; [exact Hnew|].
        intros e (p' & s' & -> & Hin'). exists p', s'. split; [done|].
        by apply list_elem_of_further. }
      intros B HB. destruct (Hcount B HB) as [Hc Ho].
      apply occurrences_pos_elem in Hin.
      rewrite ?fmap_cons, occurrences_cons; simpl fst.
      change (list_fmap (Z * Z)%type Z fst pre) with (pre.*1).
      destruct (decide (p = B)) as [<-|HBp].
      * rewrite count_notices_cons_same, Hc, Ho.
        rewrite occurrences_remove_same by done. lia.
      * rewrite count_notices_cons_other, Hc, Ho by done.
        rewrite occurrences_remove_other by done. lia.
    + rewrite reap_background_job_untracked by done.
      destruct (IH (set_waits (pre ++ (F, sF) :: post) st) Hpre)
        as (st' & new & Hrun & Hw & Htr & Hnew & Hcount).
      exists st', new. simpl in Htr, Hcount.
      split; [done|]. split; [done|]. split; [done|].
      split.
      { eapply Forall_impl; [exact Hnew|].
        intros e (p' & s' & -> & Hin'). exists p', s'. split; [done|].
        by apply list_elem_of_further. }
      intros B HB. destruct (Hcount B HB) as [Hc Ho].
      rewrite ?fmap_cons, occurrences_cons; simpl fst.
      change (list_fmap (Z * Z)%type Z fst pre) with (pre.*1).
      destruct (decide (p = B)) as [<-|HBp]; [|by rewrite Hc, Ho].
      assert (occurrences p (bg_jobs st) = 0%nat) as Hz.
      { destruct (occurrences p (bg_jobs st)) eqn:E; [done|].
        exfalso. apply Hin, occurrences_pos_elem. lia. }
      rewrite Hc, Ho, Hz. lia.
Qed.

End WaitProtocol.

(** C1, as amended.  While the interpreter awaits the foreground child [F],
    every other pid that [wait] returns while it is in the job table loses
    one slot there and gets one completion notice, written after [wait]
    returned it; a pid that is not in the table is dropped without a notice.
    Waiting goes on until [wait] returns [F] and stops there.  So a tracked
    background job that exits once before [F] is announced exactly once. *)
Theorem wait_for_foreground_isolation F sF pre post st :
  0 < F →
  Forall (λ w : Z * Z, 0 < w.1 ∧ w.1 ≠ F) pre →
  waits st = pre ++ (F, sF) :: post →
  ∃ st' new,
    wait_for_foreground F st = Ok tt st'
    ∧ waits st' = post
    ∧ trace st' = trace st ++ new
    ∧ Forall (λ e, ∃ p s, e = Out (Bg_exited p s) ∧ (p, s) ∈ pre) new
    ∧ ∀ B, B ≠ 0 →
        count_notices B new
          = Nat.min (occurrences B (pre.*1)) (occurrences B (bg_jobs st))
        ∧ occurrences B (bg_jobs st')
          = Nat.sub (occurrences B (bg_jobs st))
              (Nat.min (occurrences B (pre.*1)) (occurrences B (bg_jobs st))).
Proof.
  intros HF Hpre Hw. unfold wait_for_foreground. rewrite Hw.
  by apply wait_for_foreground_from_spec.
Qed.

Lemma wait_for_foreground_isolation_witness :
  let st := set_bg_jobs (add_job 7 (replicate NPROC 0))
              (boot [] [(7, 3); (5, 0)] [] [] [] [] "") in
  ∃ st' new,
    wait_for_foreground 5 st = Ok tt st'
    ∧ waits st' = []
    ∧ trace st' = trace st ++ new
    ∧ Forall (λ e, ∃ p s, e = Out (Bg_exited p s) ∧ (p, s) ∈ [(7, 3)]) new
    ∧ ∀ B, B ≠ 0 →
        count_notices B new
          = Nat.min (occurrences B ([(7, 3)].*1)) (occurrences B (bg_jobs st))
        ∧ occurrences B (bg_jobs st')
          = Nat.sub (occurrences B (bg_jobs st))
              (Nat.min (occurrences B ([(7, 3)].*1)) (occurrences B (bg_jobs st))).
Proof.
  apply (wait_for_foreground_isolation 5 0 [(7, 3)] []).
  - lia.
  - repeat constructor; simpl; lia.
  - reflexivity.
Defined.

(** C1 as stated fails: the foreground pipeline [ls | wc] whose right child
    (pid 4) exits before its left child (pid 3).  While pid 3 is awaited
    [wait] returns 4, which no table slot holds: nothing is removed and no
    notice is written; the second wait then finds no child left. *)
Lemma wait_for_foreground_silent_reap :
  wait_for_foreground 3 (boot [] [(4, 0); (3, 0)] [] [] [] [] "")
    = Ok tt (boot [] [] [] [] [] [] "")
  ∧ run (PIPE (EXEC ["ls"] 0) (EXEC ["wc"] 0))
        (boot [3; 4] [(4, 0); (3, 0)] [] [] [] [] "")
    = Ok tt (emit (Forked 4) (emit (Forked 3) (boot [] [] [] [] [] [] "")))
  ∧ count_notices 4
      (trace (emit (Forked 4) (emit (Forked 3) (boot [] [] [] [] [] [] "")))) = 0%nat.
Proof. split; [|split]; vm_compute; reflexivity. Qed.

(** C10.  [add_job] keeps the size of the table and writes to its first
    slot holding 0.  When no slot holds 0 the table stays as it is and
    nothing is written; a background command launched then has its pid
    printed but not recorded, and when that pid is reaped later
    [reap_background_job] leaves table and output alone. *)
Theorem add_job_full_table_untracked pid status argv0 args rest st :
  0 ∉ bg_jobs st →
  pid ∉ bg_jobs st →
  pid ≠ 0 → pid ≠ -1 →
  argv0 ≠ "cd" → argv0 ≠ "jobs" →
  forks st = pid :: rest →
  length (bg_jobs (set_bg_jobs (replicate NPROC 0) st)) = NPROC
  ∧ (∀ p jobs, length (add_job p jobs) = length jobs
               ∧ length (remove_job p jobs) = length jobs)
  ∧ (∀ p jobs (i : nat),
       jobs !! i = Some 0 →
       (∀ k : nat, (k < i)%nat → jobs !! k ≠ Some 0) →
       add_job p jobs = <[i := p]> jobs)
  ∧ add_job pid (bg_jobs st) = bg_jobs st
  ∧ add_job_m pid st = Ok tt st
  ∧ ∃ st',
      run (EXEC (argv0 :: args) 1) st = Ok tt st'
      ∧ bg_jobs st' = bg_jobs st
      ∧ trace st' = trace st ++ [Forked pid; Out (Job_started pid)]
      ∧ reap_background_job pid status st' = Ok tt st'.
Proof.
  intros Hfull Hpid Hp0 Hp1 Hcd Hjobs Hforks.
  split; [apply length_replicate|].
  split; [intros p jobs; split; [apply add_job_length | apply remove_job_length]|].
  split; [apply add_job_first_free|].
  split; [by apply add_job_full|].
  split.
  { unfold add_job_m, modify. rewrite add_job_full by done. by destruct st. }
  eexists. split.
  - unfold run. simpl.
    apply String.eqb_neq in Hcd, Hjobs. rewrite Hcd, Hjobs.
    unfold fork1, Sys.fork, add_job_m. run_step. rewrite Hforks. simpl.
    destruct (Z.eqb_spec pid (-1)); [done|]. simpl.
    destruct (Z.eqb_spec pid 0); [done|]. simpl.
    rewrite add_job_full by done. reflexivity.
  - simpl. split; [done|]. split; [by rewrite <- app_assoc|].
    by apply reap_background_job_untracked.
Qed.

Lemma add_job_full_table_untracked_witness :
  let st := set_bg_jobs (Z.of_nat <$> seq 100 NPROC)
              (boot [200] [] [] [] [] [] "") in
  length (bg_jobs (set_bg_jobs (replicate NPROC 0) st)) = NPROC
  ∧ (∀ p jobs, length (add_job p jobs) = length jobs
               ∧ length (remove_job p jobs) = length jobs)
  ∧ (∀ p jobs (i : nat),
       jobs !! i = Some 0 →
       (∀ k : nat, (k < i)%nat → jobs !! k ≠ Some 0) →
       add_job p jobs = <[i := p]> jobs)
  ∧ add_job 200 (bg_jobs st) = bg_jobs st
  ∧ add_job_m 200 st = Ok tt st
  ∧ ∃ st',
      run (EXEC ["sleep"; "5"] 1) st = Ok tt st'
      ∧ bg_jobs st' = bg_jobs st
      ∧ trace st' = trace st ++ [Forked 200; Out (Job_started 200)]
      ∧ reap_background_job 200 0 st' = Ok tt st'.
Proof.
  apply (add_job_full_table_untracked 200 0 "sleep" ["5"] []).
  - apply (bool_decide_unpack _). vm_compute. exact I.
  - apply (bool_decide_unpack _). vm_compute. exact I.
  - lia.
  - lia.
  - discriminate.
  - discriminate.
  - reflexivity.
Defined.

(** ** Fuel of [runcmd] *)

Lemma bind_cong {A B} (m1 m2 : M A) (f g : A → M B) :
  (∀ st, m1 st = m2 st) →
  (∀ a st, f a st = g a st) →
  ∀ st, (m1 ≫= f) st = (m2 ≫= g) st.
Proof.
  intros Hm Hf st. unfold mbind, M_bind. rewrite Hm.
  destruct (m2 st); auto.
Qed.

Lemma set_back_if_exec_depth c : cmd_depth (set_back_if_exec c) = cmd_depth c.
Proof. by destruct c. Qed.

Lemma mark_background_depth c : cmd_depth (mark_background c) = cmd_depth c.
Proof.
  destruct c; simpl; try done.
  by rewrite !set_back_if_exec_depth.
Qed.

Ltac fuel_ext IH :=
  repeat first
    [ reflexivity
    | apply IH; simpl in *; lia
    | apply bind_cong; intros
    | match goal with
      | |- (if ?b then _ else _) _ = (if ?b then _ else _) _ => destruct b
      | |- (let '(_, _) := ?x in _) _ = _ => destruct x
      end ].

(** Any two amounts of fuel above the depth of the tree give the same run. *)
Lemma runcmd_fuel_irrelevant n :
  ∀ m c st, (cmd_depth c < n)%nat → (cmd_depth c < m)%nat →
    runcmd n c st = runcmd m c st.
Proof.
  induction n as [|n IH]; intros m c st Hn Hm; [lia|].
  destruct m as [|m]; [lia|].
  destruct c as [argv back|c file mode fd|l r|l r|c]; simpl.
  - reflexivity.
  - fuel_ext IH.
  - fuel_ext IH.
  - fuel_ext IH.
  - apply IH; rewrite mark_background_depth; simpl in *; lia.
Qed.

Lemma runcmd_enough n c st : (cmd_depth c < n)%nat → runcmd n c st = run c st.
Proof. intros Hn. apply runcmd_fuel_irrelevant; [done | lia]. Qed.

(** The equations of [run], one per case of the [switch]. *)
Ltac run_equation :=
  unfold run at 1;
  match goal with
  | |- runcmd (S ?d) ?c ?st = ?R =>
      cut (∀ n, (d < S n)%nat → runcmd (S n) c st = R);
      [ let H := fresh in intros H; apply H; lia
      | let n := fresh "n" in let Hn := fresh "Hn" in
        intros n Hn; simpl in Hn; simpl ]
  end.

Lemma run_REDIR c file mode fd st :
  run (REDIR c file mode fd) st =
    (Sys.close fd;;
     rc ← Sys.open file mode;
     if rc <? 0 then printf (Open_failed file) else run c) st.
Proof. run_equation. fuel_ext runcmd_enough. Qed.

Lemma run_LIST l r st : run (LIST l r) st = (run l;; run r) st.
Proof. run_equation. fuel_ext runcmd_enough. Qed.

Lemma run_BACK c st : run (BACK c) st = run (mark_background c) st.
Proof.
  run_equation. apply runcmd_enough. rewrite mark_background_depth. lia.
Qed.

Lemma run_PIPE l r st :
  run (PIPE l r) st =
    ('(rc, (p0, p1)) ← Sys.pipe;
     (if rc <? 0 then panic "pipe" else mret tt);;
     pid_left ← fork1;
     if pid_left =? 0 then
       Sys.close 1;; Sys.dup p1;; Sys.close p0;; Sys.close p1;;
       run l;;
       exit 0
     else
       pid_right ← fork1;
       if pid_right =? 0 then
         Sys.close 0;; Sys.dup p0;; Sys.close p0;; Sys.close p1;;
         run r;;
         exit 0
       else
         Sys.close p0;; Sys.close p1;;
         if nonzero (pipe_is_background l r) then
           add_job_m pid_left;;
           add_job_m pid_right;;
           printf (Job_started pid_left)
         else
           wait_for_foreground pid_left;;
           wait_for_foreground pid_right) st.
Proof. run_equation. fuel_ext runcmd_enough. Qed.

(** ** [run] always ends *)

Lemma ends_bind {A B} (m : M A) (f : A → M B) :
  ends m → (∀ a, ends (f a)) → ends (m ≫= f).
Proof.
  intros Hm Hf st. unfold mbind, M_bind.
  specialize (Hm st). destruct (m st); [apply Hf | done | done | done].
Qed.

Lemma ends_ret {A} (a : A) : ends (mret a).
Proof. done. Qed.

Lemma ends_modify f : ends (modify f).
Proof. done. Qed.

Lemma ends_exit status : ends (exit status).
Proof. done. Qed.

Lemma ends_printf m : ends (printf m).
Proof. done. Qed.

Lemma ends_panic s : ends (panic s).
Proof. apply ends_bind; [apply ends_printf | intros; apply ends_exit]. Qed.

Lemma ends_close fd : ends (Sys.close fd).
Proof. done. Qed.

Lemma ends_open path mode : ends (Sys.open path mode).
Proof.
  intros st. unfold Sys.open.
  destruct (opens st) as [|[] ?]; simpl; try done.
  by destruct (Sys.fdalloc _ _) as [[? ?]|].
Qed.

Lemma ends_dup fd : ends (Sys.dup fd).
Proof.
  intros st. unfold Sys.dup.
  destruct (fd <? 0); [done|].
  destruct (ofile st !! Sys.fd_index fd) as [[f|]|]; try done.
  by destruct (Sys.fdalloc _ _) as [[? ?]|].
Qed.

Lemma ends_pipe : ends Sys.pipe.
Proof.
  intros st. unfold Sys.pipe.
  destruct (Sys.fdalloc _ _) as [[? ?]|]; [|done].
  by destruct (Sys.fdalloc _ _) as [[? ?]|].
Qed.

Lemma ends_fork1 : ends fork1.
Proof.
  apply ends_bind.
  - intros st. unfold Sys.fork. by destruct (forks st).
  - intros pid. destruct (pid =? -1); [|apply ends_ret].
    apply ends_bind; [apply ends_panic | intros; apply ends_ret].
Qed.

Lemma ends_chdir dir : ends (Sys.chdir dir).
Proof. intros st. unfold Sys.chdir. by destruct (chdirs st) as [|[] ?]. Qed.

Lemma ends_exec path argv : ends (Sys.exec path argv).
Proof. intros st. unfold Sys.exec. by destruct (execs st) as [|[] ?]. Qed.

Lemma ends_add_job_m pid : ends (add_job_m pid).
Proof. done. Qed.

Lemma ends_reap_background_job pid status : ends (reap_background_job pid status).
Proof. intros st. unfold reap_background_job. by destruct (nonzero _). Qed.

Lemma ends_print_jobs : ends print_jobs.
Proof.
  intros st. unfold print_jobs. generalize st at 2.
  induction (bg_jobs st) as [|j rest IH]; intros st0; [done|].
  simpl. run_step. destruct (nonzero j); simpl; apply IH.
Qed.

Lemma ends_wait_for_foreground F : ends (wait_for_foreground F).
Proof.
  intros st. unfold wait_for_foreground. generalize st at 2.
  induction (waits st) as [|[p s] ws IH]; intros st0; [done|].
  simpl. run_step.
  destruct (0 <? p); [|done]. destruct (p =? F); [done|].
  unfold reap_background_job. destruct (nonzero _); apply IH.
Qed.

Lemma ends_reap_zombies : ends reap_zombies.
Proof.
  intros st. unfold reap_zombies. generalize st at 2.
  induction (zombies st) as [|[p s] ws IH]; intros st0; [done|].
  simpl. run_step.
  destruct (0 <? p); [|done].
  unfold reap_background_job. destruct (nonzero _); apply IH.
Qed.

Ltac ends_tac IH :=
  repeat first
    [ apply IH; simpl in *; lia
    | apply ends_ret | apply ends_exit | apply ends_printf | apply ends_panic
    | apply ends_close | apply ends_open | apply ends_dup | apply ends_pipe
    | apply ends_fork1 | apply ends_chdir | apply ends_exec
    | apply ends_add_job_m | apply ends_print_jobs
    | apply ends_wait_for_foreground
    | apply ends_bind; [|intros]
    | match goal with
      | |- ends (if ?b then _ else _) => destruct b
      | |- ends (let '(_, _) := ?x in _) => destruct x
      | |- ends (match ?x with _ => _ end) => destruct x
      end ].

Lemma runcmd_ends n : ∀ c, (cmd_depth c < n)%nat → ends (runcmd n c).
Proof.
  induction n as [|n IH]; intros c Hn; [lia|].
  destruct c as [argv back|c file mode fd|l r|l r|c]; simpl.
  - ends_tac IH.
  - ends_tac IH.
  - ends_tac IH.
  - ends_tac IH.
  - apply IH. rewrite mark_background_depth. simpl in Hn. lia.
Qed.

Lemma run_ends c : ends (run c).
Proof. apply runcmd_ends. lia. Qed.

(** ** Commands that fork *)

Section ForkingCommands.
Implicit Types (pid back : Z) (st : proc) (args : list string).

(** An [EXEC] that is no built-in, seen from the process in which [fork]
    returned [pid]. *)
Lemma run_EXEC_forks (argv0 : string) args back pid rest st :
  argv0 ≠ "cd" → argv0 ≠ "jobs" →
  forks st = pid :: rest → pid ≠ -1 →
  run (EXEC (argv0 :: args) back) st =
    (if pid =? 0 then
       Sys.exec argv0 (argv0 :: args);;
       printf (Exec_failed argv0);;
       exit 0
     else if nonzero back then
       add_job_m pid;;
       printf (Job_started pid)
     else wait_for_foreground pid) (emit (Forked pid) (set_forks rest st)).
Proof.
  intros Hcd Hjobs Hforks Hpid. unfold run. simpl.
  apply String.eqb_neq in Hcd, Hjobs. rewrite Hcd, Hjobs.
  unfold fork1, Sys.fork. run_step. rewrite Hforks. simpl.
  by destruct (Z.eqb_spec pid (-1)).
Qed.

End ForkingCommands.

(** C3, as amended.  For an [EXEC] that is no built-in: in the child, an
    [exec] that fails is followed by the line "exec ... failed" and by
    [exit(0)], the status of a successful run; in the parent nothing depends
    on the outcome of [exec]: a background command is recorded and
    announced, a foreground one is waited for, and the wait ends when the
    child is reaped, whatever its status. *)
Theorem exec_failure_exits_child_with_0 (argv0 : string) args back st :
  argv0 ≠ "cd" → argv0 ≠ "jobs" →
  (∀ fs es,
     forks st = 0 :: fs → execs st = false :: es →
     run (EXEC (argv0 :: args) back) st =
       Exited 0 (emit (Out (Exec_failed argv0))
                   (set_execs es (emit (Forked 0) (set_forks fs st)))))
  ∧ (∀ pid fs,
       forks st = pid :: fs → pid ≠ 0 → pid ≠ -1 →
       run (EXEC (argv0 :: args) back) st =
         (if nonzero back then add_job_m pid;; printf (Job_started pid)
          else wait_for_foreground pid) (emit (Forked pid) (set_forks fs st)))
  ∧ (∀ pid fs status ws,
       forks st = pid :: fs → 0 < pid → back = 0 →
       waits st = (pid, status) :: ws →
       run (EXEC (argv0 :: args) back) st =
         Ok tt (set_waits ws (emit (Forked pid) (set_forks fs st)))).
Proof.
  intros Hcd Hjobs. split; [|split].
  - intros fs es Hforks Hexecs.
    rewrite (run_EXEC_forks _ _ _ 0 fs) by done. simpl.
    unfold Sys.exec. run_step. by rewrite Hexecs.
  - intros pid fs Hforks Hp0 Hp1.
    rewrite (run_EXEC_forks _ _ _ pid fs) by done.
    by destruct (Z.eqb_spec pid 0).
  - intros pid fs status ws Hforks Hpid -> Hwaits.
    rewrite (run_EXEC_forks _ _ _ pid fs) by (done || lia).
    destruct (Z.eqb_spec pid 0); [lia|]. simpl.
    unfold wait_for_foreground. simpl. rewrite Hwaits. simpl. run_step.
    assert ((0 <? pid) = true) as -> by lia. by rewrite Z.eqb_refl.
Qed.

Lemma exec_failure_exits_child_with_0_witness :
  let st := boot [0] [] [] [] [] [false] "" in
  (∀ fs es,
     forks st = 0 :: fs → execs st = false :: es →
     run (EXEC ["nosuch"; "-x"] 0) st =
       Exited 0 (emit (Out (Exec_failed "nosuch"))
                   (set_execs es (emit (Forked 0) (set_forks fs st)))))
  ∧ (∀ pid fs,
       forks st = pid :: fs → pid ≠ 0 → pid ≠ -1 →
       run (EXEC ["nosuch"; "-x"] 0) st =
         (if nonzero 0 then add_job_m pid;; printf (Job_started pid)
          else wait_for_foreground pid) (emit (Forked pid) (set_forks fs st)))
  ∧ (∀ pid fs status ws,
       forks st = pid :: fs → 0 < pid → 0 = 0 →
       waits st = (pid, status) :: ws →
       run (EXEC ["nosuch"; "-x"] 0) st =
         Ok tt (set_waits ws (emit (Forked pid) (set_forks fs st)))).
Proof.
  apply (exec_failure_exits_child_with_0 "nosuch" ["-x"] 0); discriminate.
Defined.

(** C3 as stated fails: the child of [nosuch -x], whose [exec] fails, ends
    with status 0, not with a status other than 0. *)
Lemma exec_failure_status_is_zero :
  run (EXEC ["nosuch"; "-x"] 0) (boot [0] [] [] [] [] [false] "")
    = Exited 0 (emit (Out (Exec_failed "nosuch"))
                  (emit (Forked 0) (boot [] [] [] [] [] [] ""))).
Proof. vm_compute. reflexivity. Qed.

(** ** The descriptor table *)

Section Descriptors.
Implicit Types (f g : fobj) (tbl : list (option fobj)) (st : proc).

Lemma fdalloc_spec f tbl (i : nat) tbl' :
  Sys.fdalloc f tbl = Some (i, tbl') →
  tbl !! i = Some None ∧ tbl' = <[i := Some f]> tbl.
Proof.
  revert i tbl'. induction tbl as [|[g|] rest IH]; intros i tbl' H; simpl in H.
  - done.
  - destruct (Sys.fdalloc f rest) as [[k rest']|] eqn:E; [|done].
    injection H as <- <-. destruct (IH k rest' eq_refl) as [Hk ->]. done.
  - injection H as <- <-. done.
Qed.

(** The lowest free slot is the one taken. *)
Lemma fdalloc_lowest f tbl (i : nat) :
  (∀ k : nat, (k < i)%nat → ∃ g, tbl !! k = Some (Some g)) →
  tbl !! i = Some None →
  Sys.fdalloc f tbl = Some (i, <[i := Some f]> tbl).
Proof.
  revert i. induction tbl as [|[g|] rest IH]; intros i Hbelow Hi.
  - done.
  - destruct i as [|i]; [done|]. simpl.
    rewrite (IH i); [done | | done].
    intros k Hk. apply (Hbelow (S k)). lia.
  - destruct i as [|i]; [done|].
    destruct (Hbelow O) as [g Hg]; [lia | done].
Qed.

Lemma close_of_nat (i : nat) st :
  Sys.close (Z.of_nat i) st = Ok tt (set_ofile (<[i := None]> (ofile st)) st).
Proof.
  unfold Sys.close, modify, Sys.fd_index.
  assert ((Z.of_nat i <? 0) = false) as -> by (apply Z.ltb_ge; lia).
  by rewrite Nat2Z.id.
Qed.

(** A slot that was free is free again once what was put there is closed. *)
Lemma insert_free_again tbl (i : nat) f :
  tbl !! i = Some None → <[i := None]> (<[i := Some f]> tbl) = tbl.
Proof.
  intros Hi. rewrite list_insert_insert_eq. by apply list_insert_id.
Qed.

(** A descriptor just closed is the one [open] takes when every lower one
    is open. *)
Lemma Sys_fdalloc_lowest_after_close f tbl (i : nat) :
  (i < length tbl)%nat →
  (∀ k : nat, (k < i)%nat → ∃ g, tbl !! k = Some (Some g)) →
  Sys.fdalloc f (<[i := None]> tbl)
    = Some (i, <[i := Some f]> (<[i := None]> tbl)).
Proof.
  intros Hi Hbelow. apply fdalloc_lowest.
  - intros k Hk. rewrite list_lookup_insert_ne by lia. by apply Hbelow.
  - by apply list_lookup_insert_eq.
Qed.

(** [pipe] followed by [close] of both ends gives the table back. *)
Lemma pipe_close_both st st1 (p0 p1 : Z) :
  Sys.pipe st = Ok (0, (p0, p1)) st1 →
  ∃ i0 i1 : nat,
    p0 = Z.of_nat i0 ∧ p1 = Z.of_nat i1
    ∧ st1 = set_ofile (ofile st1) st
    ∧ <[i1 := None]> (<[i0 := None]> (ofile st1)) = ofile st.
Proof.
  unfold Sys.pipe. intros H.
  destruct (Sys.fdalloc PipeRead (ofile st)) as [[i0 tbl0]|] eqn:E0; [|done].
  destruct (Sys.fdalloc PipeWrite tbl0) as [[i1 tbl1]|] eqn:E1; [|done].
  injection H as <- <- <-.
  apply fdalloc_spec in E0 as [H0 ->]. apply fdalloc_spec in E1 as [H1 ->].
  exists i0, i1. split; [done|]. split; [done|]. split; [done|]. simpl.
  assert (i0 ≠ i1) as Hne.
  { intros ->. rewrite list_lookup_insert_eq in H1; [done|].
    by eapply lookup_lt_Some. }
  rewrite list_lookup_insert_ne in H1 by done.
  rewrite (list_insert_insert_ne _ i0 i1) by done.
  rewrite !list_insert_insert_eq.
  rewrite (list_insert_id _ i0) by done.
  by apply list_insert_id.
Qed.

End Descriptors.

(** ** Pipelines *)

Section Pipelines.
Implicit Types (l r : cmd) (st : proc) (pl pr : Z).

Lemma pipe_is_background_agree l r :
  marks_agree l r →
  nonzero (pipe_is_background l r) = exec_marked l || exec_marked r.
Proof.
  destruct l, r; simpl; intros H; rewrite ?orb_false_r; try done.
  rewrite <- H. by destruct (nonzero _).
Qed.

Lemma set_back_if_exec_well_marked c :
  well_marked c → well_marked (set_back_if_exec c).
Proof. by destruct c. Qed.

Lemma mark_background_well_marked c :
  well_marked c → well_marked (mark_background c).
Proof.
  destruct c as [argv back|c file mode fd|l r|l r|c]; simpl; try done.
  intros (_ & Hl & Hr).
  split; [|split; by apply set_back_if_exec_well_marked].
  by destruct l, r.
Qed.

(** The [PIPE] case in the process in which both [fork]s returned a pid. *)
Lemma run_PIPE_parent l r st st1 (p0 p1 : Z) pl pr rest :
  Sys.pipe st = Ok (0, (p0, p1)) st1 →
  forks st = pl :: pr :: rest →
  pl ≠ 0 → pl ≠ -1 → pr ≠ 0 → pr ≠ -1 →
  run (PIPE l r) st =
    (if nonzero (pipe_is_background l r) then
       add_job_m pl;; add_job_m pr;; printf (Job_started pl)
     else
       wait_for_foreground pl;; wait_for_foreground pr)
      (emit (Forked pr) (emit (Forked pl) (set_forks rest st))).
Proof.
  intros Hpipe Hforks Hpl Hpl' Hpr Hpr'. rewrite run_PIPE.
  destruct (pipe_close_both _ _ _ _ Hpipe) as (i0 & i1 & -> & -> & Hst1 & Htbl).
  unfold mbind at 1, M_bind at 1. rewrite Hpipe. simpl.
  unfold fork1, Sys.fork. run_step.
  rewrite Hst1. simpl. rewrite Hforks. simpl.
  destruct (Z.eqb_spec pl (-1)); [done|]. simpl.
  destruct (Z.eqb_spec pl 0); [done|]. simpl.
  destruct (Z.eqb_spec pr (-1)); [done|]. simpl.
  destruct (Z.eqb_spec pr 0); [done|]. simpl.
  assert (∀ i : nat, (Z.of_nat i <? 0) = false) as Hnn
    by (intros; apply Z.ltb_ge; lia).
  rewrite !Hnn. unfold Sys.fd_index. rewrite !Nat2Z.id. simpl. rewrite Htbl.
  by destruct st.
Qed.

End Pipelines.

(** C4.  A [PIPE] whose sides agree on the flag, as they do in every tree
    the parser builds and [BACK] marks, run by the interpreter: when a side
    is an [EXEC] marked background both pids go through [add_job], left
    first, the left pid alone is printed and no [wait] is made; otherwise
    the left child and then the right child are waited for by the
    foreground-wait protocol. *)
Theorem pipe_background_decision l r st st1 (p0 p1 pl pr : Z) rest :
  marks_agree l r →
  Sys.pipe st = Ok (0, (p0, p1)) st1 →
  forks st = pl :: pr :: rest →
  0 < pl → 0 < pr →
  run (PIPE l r) st =
    (if exec_marked l || exec_marked r then
       add_job_m pl;; add_job_m pr;; printf (Job_started pl)
     else
       wait_for_foreground pl;; wait_for_foreground pr)
      (emit (Forked pr) (emit (Forked pl) (set_forks rest st)))
  ∧ (exec_marked l || exec_marked r = true →
     ∃ st',
       run (PIPE l r) st = Ok tt st'
       ∧ bg_jobs st' = add_job pr (add_job pl (bg_jobs st))
       ∧ trace st' = trace st ++ [Forked pl; Forked pr; Out (Job_started pl)]
       ∧ waits st' = waits st).
Proof.
  intros Hagree Hpipe Hforks Hpl Hpr.
  rewrite (run_PIPE_parent l r st st1 p0 p1 pl pr rest) by (done || lia).
  rewrite (pipe_is_background_agree l r Hagree).
  split; [done|].
  intros ->. eexists. split; [reflexivity|]. simpl.
  split; [done|]. split; [|done].
  by rewrite <- !app_assoc.
Qed.

Lemma pipe_background_decision_witness :
  let st := boot [3; 4] [] [] [] [] [] "" in
  let l := EXEC ["sleep"; "5"] 1 in
  let r := EXEC ["wc"] 1 in
  run (PIPE l r) st =
    (if exec_marked l || exec_marked r then
       add_job_m 3;; add_job_m 4;; printf (Job_started 3)
     else
       wait_for_foreground 3;; wait_for_foreground 4)
      (emit (Forked 4) (emit (Forked 3) (set_forks [] st)))
  ∧ (exec_marked l || exec_marked r = true →
     ∃ st',
       run (PIPE l r) st = Ok tt st'
       ∧ bg_jobs st' = add_job 4 (add_job 3 (bg_jobs st))
       ∧ trace st' = trace st ++ [Forked 3; Forked 4; Out (Job_started 3)]
       ∧ waits st' = waits st).
Proof.
  eapply (pipe_background_decision (EXEC ["sleep"; "5"] 1) (EXEC ["wc"] 1)
            (boot [3; 4] [] [] [] [] [] "") _ 3 4 3 4 []).
  - reflexivity.
  - reflexivity.
  - reflexivity.
  - lia.
  - lia.
Defined.

(** ** Background marking *)

Section MarkedRuns.
Implicit Types (l r c : cmd) (st : proc) (pl pr pid : Z).

Lemma pipe_keeps_forks st st1 (p0 p1 : Z) :
  Sys.pipe st = Ok (0, (p0, p1)) st1 → forks st1 = forks st.
Proof.
  intros H. destruct (pipe_close_both _ _ _ _ H) as (i0 & i1 & _ & _ & -> & _).
  done.
Qed.

(** The [PIPE] case in the child of the first [fork]. *)
Lemma run_PIPE_left_child l r st st1 (p0 p1 : Z) rest :
  Sys.pipe st = Ok (0, (p0, p1)) st1 →
  forks st = 0 :: rest →
  run (PIPE l r) st =
    (Sys.close 1;; Sys.dup p1;; Sys.close p0;; Sys.close p1;;
     run l;; exit 0) (emit (Forked 0) (set_forks rest st1)).
Proof.
  intros Hpipe Hforks. rewrite run_PIPE.
  pose proof (pipe_keeps_forks _ _ _ _ Hpipe) as Hf1.
  unfold mbind at 1, M_bind at 1. rewrite Hpipe. cbn [Z.ltb Z.compare].
  unfold mbind at 1, M_bind at 1. cbn [mret M_ret].
  unfold mbind at 1, M_bind at 1.
  unfold fork1, Sys.fork. unfold mbind at 1, M_bind at 1.
  rewrite Hf1, Hforks. done.
Qed.

(** The [PIPE] case in the child of the second [fork]. *)
Lemma run_PIPE_right_child l r st st1 (p0 p1 : Z) pl rest :
  Sys.pipe st = Ok (0, (p0, p1)) st1 →
  forks st = pl :: 0 :: rest →
  pl ≠ 0 → pl ≠ -1 →
  run (PIPE l r) st =
    (Sys.close 0;; Sys.dup p0;; Sys.close p0;; Sys.close p1;;
     run r;; exit 0) (emit (Forked 0) (emit (Forked pl) (set_forks rest st1))).
Proof.
  intros Hpipe Hforks Hpl Hpl'. rewrite run_PIPE.
  pose proof (pipe_keeps_forks _ _ _ _ Hpipe) as Hf1.
  unfold mbind at 1, M_bind at 1. rewrite Hpipe. cbn [Z.ltb Z.compare].
  unfold mbind at 1, M_bind at 1. cbn [mret M_ret].
  unfold mbind at 1, M_bind at 1.
  unfold fork1, Sys.fork. unfold mbind at 1, M_bind at 1.
  rewrite Hf1, Hforks. cbn [mret M_ret].
  destruct (Z.eqb_spec pl (-1)); [done|]. cbn [mret M_ret].
  destruct (Z.eqb_spec pl 0); [done|].
  unfold mbind at 1, M_bind at 1. unfold mbind at 1, M_bind at 1.
  cbn [forks emit set_forks]. done.
Qed.

Lemma pipe_is_background_marked l r :
  nonzero (pipe_is_background (set_back_if_exec l) (set_back_if_exec r))
    = is_exec l || is_exec r.
Proof. by destruct l, r. Qed.

End MarkedRuns.

(** C5.  Running a [BACK] node is running the wrapped command after one
    marking pass.  The pass sets the flag of a wrapped [EXEC]; of a wrapped
    [PIPE] it sets the flag of each side that is an [EXEC] and leaves every
    other side as it is; a wrapped [LIST], [REDIR] or [BACK] is left as it
    is, flags and all.  What the marks do shows in the run.  A wrapped
    [EXEC] that is no built-in is recorded in the job table and announced,
    and no [wait] is made, whatever its flag was; unmarked, the same command
    is waited for.  A wrapped [PIPE] is recorded and announced when a side
    is an [EXEC] and waited for when neither is; its children run their
    side with the flag set when it is an [EXEC], and as it is otherwise.  A
    wrapped [LIST] runs its two sides as they are, so that an unmarked
    command at its head is waited for; a wrapped [REDIR] closes, opens and
    runs its command as it is; a wrapped [BACK] runs as it would alone. *)
Theorem background_marking_is_shallow :
  (∀ c st, run (BACK c) st = run (mark_background c) st)
  ∧ (∀ argv back, mark_background (EXEC argv back) = EXEC argv 1)
  ∧ (∀ l r,
       mark_background (PIPE l r) = PIPE (set_back_if_exec l) (set_back_if_exec r))
  ∧ (∀ argv back, set_back_if_exec (EXEC argv back) = EXEC argv 1)
  ∧ (∀ c, exec_marked (set_back_if_exec c) = false → set_back_if_exec c = c)
  ∧ (∀ l r, mark_background (LIST l r) = LIST l r)
  ∧ (∀ c file mode fd, mark_background (REDIR c file mode fd) = REDIR c file mode fd)
  ∧ (∀ c, mark_background (BACK c) = BACK c)
  ∧ (∀ (argv0 : string) args back pid rest st,
       argv0 ≠ "cd" → argv0 ≠ "jobs" →
       forks st = pid :: rest → 0 < pid →
       run (BACK (EXEC (argv0 :: args) back)) st
         = Ok tt (emit (Out (Job_started pid))
                    (set_bg_jobs (add_job pid (bg_jobs st))
                       (emit (Forked pid) (set_forks rest st))))
       ∧ run (EXEC (argv0 :: args) 0) st
         = wait_for_foreground pid (emit (Forked pid) (set_forks rest st)))
  ∧ (∀ l r st st1 (p0 p1 pl pr : Z) rest,
       Sys.pipe st = Ok (0, (p0, p1)) st1 →
       forks st = pl :: pr :: rest →
       0 < pl → 0 < pr →
       run (BACK (PIPE l r)) st =
         (if is_exec l || is_exec r then
            add_job_m pl;; add_job_m pr;; printf (Job_started pl)
          else
            wait_for_foreground pl;; wait_for_foreground pr)
           (emit (Forked pr) (emit (Forked pl) (set_forks rest st))))
  ∧ (∀ l r st st1 (p0 p1 : Z) rest,
       Sys.pipe st = Ok (0, (p0, p1)) st1 →
       forks st = 0 :: rest →
       run (BACK (PIPE l r)) st =
         (Sys.close 1;; Sys.dup p1;; Sys.close p0;; Sys.close p1;;
          run (match l with EXEC argv _ => EXEC argv 1 | _ => l end);; exit 0)
           (emit (Forked 0) (set_forks rest st1)))
  ∧ (∀ l r st st1 (p0 p1 pl : Z) rest,
       Sys.pipe st = Ok (0, (p0, p1)) st1 →
       forks st = pl :: 0 :: rest →
       0 < pl →
       run (BACK (PIPE l r)) st =
         (Sys.close 0;; Sys.dup p0;; Sys.close p0;; Sys.close p1;;
          run (match r with EXEC argv _ => EXEC argv 1 | _ => r end);; exit 0)
           (emit (Forked 0) (emit (Forked pl) (set_forks rest st1))))
  ∧ (∀ l r st, run (BACK (LIST l r)) st = (run l;; run r) st)
  ∧ (∀ (argv0 : string) args r pid rest st,
       argv0 ≠ "cd" → argv0 ≠ "jobs" →
       forks st = pid :: rest → 0 < pid →
       run (BACK (LIST (EXEC (argv0 :: args) 0) r)) st
         = (wait_for_foreground pid;; run r) (emit (Forked pid) (set_forks rest st)))
  ∧ (∀ c file mode fd st,
       run (BACK (REDIR c file mode fd)) st =
         (Sys.close fd;;
          rc ← Sys.open file mode;
          if rc <? 0 then printf (Open_failed file) else run c) st)
  ∧ (∀ c st, run (BACK (BACK c)) st = run (BACK c) st).
Proof.
  split; [exact run_BACK|].
  do 3 (split; [reflexivity|]).
  split; [by intros [] | do 3 (split; [reflexivity|])].
  split.
  { intros argv0 args back pid rest st Hcd Hjobs Hforks Hpid.
    rewrite run_BACK. cbn [mark_background].
    rewrite !(run_EXEC_forks argv0 args _ pid rest st) by (done || lia).
    destruct (Z.eqb_spec pid 0); [lia|]. done. }
  split.
  { intros l r st st1 p0 p1 pl pr rest Hpipe Hforks Hpl Hpr.
    rewrite run_BACK. cbn [mark_background].
    rewrite (run_PIPE_parent _ _ st st1 p0 p1 pl pr rest) by (done || lia).
    by rewrite pipe_is_background_marked. }
  split.
  { intros l r st st1 p0 p1 rest Hpipe Hforks.
    rewrite run_BACK. cbn [mark_background].
    rewrite (run_PIPE_left_child _ _ st st1 p0 p1 rest) by done.
    by destruct l. }
  split.
  { intros l r st st1 p0 p1 pl rest Hpipe Hforks Hpl.
    rewrite run_BACK. cbn [mark_background].
    rewrite (run_PIPE_right_child _ _ st st1 p0 p1 pl rest) by (done || lia).
    by destruct r. }
  split.
  { intros l r st. rewrite run_BACK. cbn [mark_background]. apply run_LIST. }
  split.
  { intros argv0 args r pid rest st Hcd Hjobs Hforks Hpid.
    rewrite run_BACK. cbn [mark_background]. rewrite run_LIST.
    unfold mbind at 1, M_bind at 1.
    rewrite (run_EXEC_forks argv0 args _ pid rest st) by (done || lia).
    destruct (Z.eqb_spec pid 0); [lia|]. done. }
  split.
  { intros c file mode fd st. rewrite run_BACK. cbn [mark_background].
    apply run_REDIR. }
  intros c st. by rewrite (run_BACK (BACK c)).
Qed.

(** Four lines run by the interpreter, the child 5 being ready to be
    reaped: [sleep 5 &] records and announces it and makes no [wait];
    [sleep 5] waits for it; in [(sleep 5 ; ls) &] and in [sleep 5 > out &]
    the [BACK] node wraps a [LIST] and a [REDIR], no flag is set and the
    commands are waited for as in the foreground. *)
Example background_marking_runs :
  parse_and_run "sleep 5 &" (boot [5] [(5, 0)] [] [] [] [] "")
    = Ok tt (emit (Out (Job_started 5))
               (set_bg_jobs (add_job 5 (replicate NPROC 0))
                  (emit (Forked 5) (boot [] [(5, 0)] [] [] [] [] ""))))
  ∧ parse_and_run "sleep 5" (boot [5] [(5, 0)] [] [] [] [] "")
    = Ok tt (emit (Forked 5) (boot [] [] [] [] [] [] ""))
  ∧ Parse.parsecmd (parse_fuel "(sleep 5 ; ls) &") "(sleep 5 ; ls) &"
    = Parse.Parsed (BACK (LIST (EXEC ["sleep"; "5"] 0) (EXEC ["ls"] 0))) ""
  ∧ parse_and_run "(sleep 5 ; ls) &" (boot [5; 6] [(5, 0); (6, 0)] [] [] [] [] "")
    = Ok tt (emit (Forked 6) (emit (Forked 5) (boot [] [] [] [] [] [] "")))
  ∧ Parse.parsecmd (parse_fuel "sleep 5 > out &") "sleep 5 > out &"
    = Parse.Parsed
        (BACK (REDIR (EXEC ["sleep"; "5"] 0) "out"
                 (Z.lor (Z.lor O_WRONLY O_CREATE) O_TRUNC) 1)) ""
  ∧ parse_and_run "sleep 5 > out &" (boot [5] [(5, 0)] [] [true] [] [] "")
    = Ok tt (emit (Forked 5)
               (set_ofile (<[1%nat := Some (File "out"
                                              (Z.lor (Z.lor O_WRONLY O_CREATE) O_TRUNC))]>
                             (ofile (boot [] [] [] [] [] [] "")))
                  (boot [] [] [] [] [] [] ""))).
Proof. repeat split; vm_compute; reflexivity. Qed.

(** ** What a computation leaves alone *)

#[global] Instance ofile_frame : Frame ofile.
Proof. by split. Qed.

#[global] Instance input_frame : Frame input.
Proof. by split. Qed.

Ltac frame_solve :=
  rewrite ?frame_emit, ?frame_bg_jobs, ?frame_forks, ?frame_waits,
    ?frame_zombies, ?frame_opens, ?frame_chdirs, ?frame_execs;
  try done.

Section Keeps.
Context {X : Type} (field : proc → X) `{!Frame field}.

Lemma keeps_bind {A B} (m : M A) (f : A → M B) :
  keeps field m → (∀ a, keeps field (f a)) → keeps field (m ≫= f).
Proof.
  intros Hm Hf st b st'. unfold mbind, M_bind.
  destruct (m st) as [a st1| | |] eqn:E; try done.
  intros H. rewrite (Hf _ _ _ _ H). by eapply Hm.
Qed.

Lemma no_return_keeps {A} (m : M A) : no_return m → keeps field m.
Proof. intros H st a st' E. by destruct (H st a st'). Qed.

Lemma keeps_ret {A} (a : A) : keeps field (mret a).
Proof. intros st b st' [= _ <-]. done. Qed.

Lemma keeps_printf m : keeps field (printf m).
Proof. intros st b st' [= _ <-]. frame_solve. Qed.

Lemma keeps_panic s : keeps field (panic s).
Proof. done. Qed.

Lemma keeps_add_job_m pid : keeps field (add_job_m pid).
Proof. intros st b st' [= _ <-]. frame_solve. Qed.

Lemma keeps_fork1 : keeps field fork1.
Proof.
  intros st pid st'. unfold fork1, Sys.fork. run_step.
  destruct (forks st) as [|p rest]; simpl; [done|].
  destruct (p =? -1); simpl; [done|]. intros [= _ <-]. frame_solve.
Qed.

Lemma keeps_chdir dir : keeps field (Sys.chdir dir).
Proof.
  intros st rc st'. unfold Sys.chdir.
  destruct (chdirs st) as [|[] rest]; intros [= _ <-]; frame_solve.
Qed.

Lemma keeps_exec path argv : keeps field (Sys.exec path argv).
Proof.
  intros st rc st'. unfold Sys.exec.
  destruct (execs st) as [|[] rest]; try done; intros [= _ <-]; frame_solve.
Qed.

Lemma keeps_reap_background_job pid status :
  keeps field (reap_background_job pid status).
Proof.
  intros st b st'. unfold reap_background_job.
  destruct (nonzero _); intros [= _ <-]; frame_solve.
Qed.

Lemma keeps_print_jobs : keeps field print_jobs.
Proof.
  unfold print_jobs. intros st. generalize st at 2 3.
  induction (bg_jobs st) as [|j rest IH]; intros st0 b st'; simpl.
  - by intros [= _ <-].
  - run_step. destruct (nonzero j); simpl; intros H;
      rewrite (IH _ _ _ H); frame_solve.
Qed.

Lemma keeps_wait_for_foreground F : keeps field (wait_for_foreground F).
Proof.
  unfold wait_for_foreground. intros st. generalize st at 2 3.
  induction (waits st) as [|[p s] ws IH]; intros st0 b st'; simpl.
  - by intros [= _ <-].
  - run_step. destruct (0 <? p); [|intros [= _ <-]; frame_solve].
    destruct (p =? F); [intros [= _ <-]; frame_solve|].
    unfold reap_background_job. destruct (nonzero _); intros H;
      rewrite (IH _ _ _ H); frame_solve.
Qed.

Lemma keeps_reap_zombies : keeps field reap_zombies.
Proof.
  unfold reap_zombies. intros st. generalize st at 2 3.
  induction (zombies st) as [|[p s] ws IH]; intros st0 b st'; simpl.
  - by intros [= _ <-].
  - run_step. destruct (0 <? p); [|intros [= _ <-]; frame_solve].
    unfold reap_background_job. destruct (nonzero _); intros H;
      rewrite (IH _ _ _ H); frame_solve.
Qed.

End Keeps.

Lemma no_return_exit status : no_return (exit status).
Proof. done. Qed.

Lemma no_return_bind {A B} (m : M A) (f : A → M B) :
  (∀ a, no_return (f a)) → no_return (m ≫= f).
Proof.
  intros Hf st b st'. unfold mbind, M_bind.
  destruct (m st) as [a st1| | |]; try done. apply Hf.
Qed.

Lemma mark_background_no_redir c :
  no_redir_outside_pipes c → no_redir_outside_pipes (mark_background c).
Proof. by destruct c. Qed.

Ltac keeps_tac IH :=
  repeat first
    [ apply IH; simpl in *; tauto
    | apply keeps_ret | apply keeps_printf; tc_solve | apply keeps_panic
    | apply keeps_add_job_m; tc_solve | apply keeps_fork1; tc_solve
    | apply keeps_chdir; tc_solve
    | apply keeps_exec; tc_solve | apply keeps_print_jobs; tc_solve
    | apply keeps_wait_for_foreground; tc_solve
    | apply no_return_keeps, no_return_exit
    | apply keeps_bind; [|intros]
    | match goal with
      | |- keeps _ (if ?b then _ else _) => destruct b
      | |- keeps _ (match ?x with _ => _ end) => destruct x
      end ].

(** ** Descriptors of the interpreter *)

Section InterpreterFrame.

Lemma pipe_cases st :
  Sys.pipe st = Ok (-1, (0, 0)) st
  ∨ ∃ p0 p1 st1, Sys.pipe st = Ok (0, (p0, p1)) st1.
Proof.
  unfold Sys.pipe.
  destruct (Sys.fdalloc PipeRead (ofile st)) as [[i0 tbl0]|]; [|by left].
  destruct (Sys.fdalloc PipeWrite tbl0) as [[i1 tbl1]|]; [|by left].
  right. by eexists _, _, _.
Qed.

(** Whatever the interpreter runs that has no [REDIR] of its own leaves its
    descriptors as they were; the two ends of a pipe are closed again
    before the [PIPE] case goes on. *)
Lemma runcmd_keeps_ofile n :
  ∀ c, no_redir_outside_pipes c → keeps ofile (runcmd n c).
Proof.
  induction n as [|n IH]; intros c Hc; [done|].
  destruct c as [argv back|c file mode fd|l r|l r|c]; simpl.
  - keeps_tac IH.
  - destruct Hc.
  - intros st a st' H.
    unfold mbind at 1, M_bind at 1 in H.
    destruct (pipe_cases st) as [Hpipe|(p0 & p1 & st1 & Hpipe)];
      rewrite Hpipe in H; simpl in H; [by run_step|].
    destruct (pipe_close_both _ _ _ _ Hpipe) as (i0 & i1 & -> & -> & _ & Htbl).
    unfold mbind at 1 2, M_bind at 1 2, mret at 1, M_ret at 1 in H.
    destruct (fork1 st1) as [pl st2| | |] eqn:Hf1; try done.
    apply (keeps_fork1 ofile) in Hf1.
    destruct (pl =? 0).
    { exfalso. revert H. repeat (apply no_return_bind; intros). apply no_return_exit. }
    unfold mbind at 1, M_bind at 1 in H.
    destruct (fork1 st2) as [pr st3| | |] eqn:Hf2; try done.
    apply (keeps_fork1 ofile) in Hf2.
    destruct (pr =? 0).
    { exfalso. revert H. repeat (apply no_return_bind; intros). apply no_return_exit. }
    unfold mbind at 1 2, M_bind at 1 2 in H. rewrite !close_of_nat in H.
    assert (keeps ofile
              (if nonzero (pipe_is_background l r)
               then add_job_m pl;; add_job_m pr;; printf (Job_started pl)
               else wait_for_foreground pl;; wait_for_foreground pr)) as Hk
      by keeps_tac IH.
    rewrite (Hk _ _ _ H). simpl. by rewrite Hf2, Hf1.
  - keeps_tac IH.
  - apply IH. by apply mark_background_no_redir.
Qed.

Lemma run_keeps_ofile c : no_redir_outside_pipes c → keeps_ofile (run c).
Proof. apply runcmd_keeps_ofile. Qed.

End InterpreterFrame.

(** ** The tokenizer *)

Section Tokens.
Import Parse.
Implicit Types (c : ascii) (s w rest toks : string).

Lemma word_char_inv c :
  word_char c = true →
  strchr whitespace c = false ∧ strchr symbols c = false ∧ Ascii.eqb c NUL = false.
Proof.
  unfold word_char. rewrite negb_true_iff, !orb_false_iff. tauto.
Qed.

Lemma strchr_subset toks c :
  all_chars (strchr symbols) toks = true →
  strchr symbols c = false → strchr toks c = false.
Proof.
  intros Hsub Hc. induction toks as [|d t IH]; simpl in *; [done|].
  apply andb_true_iff in Hsub as [Hd Ht].
  rewrite (IH Ht), orb_false_r.
  destruct (Ascii.eqb_spec d c) as [->|]; [congruence | done].
Qed.

Lemma append_cons c s rest : String c s +:+ rest = String c (s +:+ rest).
Proof. reflexivity. Qed.

Lemma skip_whitespace_cons c s :
  skip_whitespace (String c s)
    = if strchr whitespace c then skip_whitespace s else String c s.
Proof. reflexivity. Qed.

Lemma scan_word_cons c s :
  scan_word (String c s)
    = if strchr whitespace c || strchr symbols c then (EmptyString, String c s)
      else let (w, rest) := scan_word s in (String c w, rest).
Proof. reflexivity. Qed.

Lemma all_chars_cons p c s : all_chars p (String c s) = p c && all_chars p s.
Proof. reflexivity. Qed.

Lemma skip_whitespace_not_blank c s :
  strchr whitespace c = false → skip_whitespace (String c s) = String c s.
Proof. intros H. by rewrite skip_whitespace_cons, H. Qed.

Lemma skip_whitespace_blank b s :
  is_blank b = true → skip_whitespace (b +:+ s) = skip_whitespace s.
Proof.
  induction b as [|c b IH]; [done|].
  unfold is_blank. rewrite all_chars_cons. intros [Hc Hb]%andb_true_iff.
  rewrite append_cons, skip_whitespace_cons, Hc. by apply IH.
Qed.

Lemma skip_whitespace_idem s : skip_whitespace (skip_whitespace s) = skip_whitespace s.
Proof.
  induction s as [|c s IH]; [done|]. rewrite skip_whitespace_cons.
  destruct (strchr whitespace c) eqn:E; [done|].
  by rewrite skip_whitespace_cons, E.
Qed.

Lemma append_empty_r s : s +:+ "" = s.
Proof. induction s as [|c s IH]; [done|]. by rewrite append_cons, IH. Qed.

Lemma skip_whitespace_all_blank b : is_blank b = true → skip_whitespace b = "".
Proof.
  intros H. pose proof (skip_whitespace_blank b "" H) as E.
  by rewrite append_empty_r in E.
Qed.

Lemma scan_word_app w rest :
  all_chars word_char w = true → stops rest = true →
  scan_word (w +:+ rest) = (w, rest).
Proof.
  intros Hw Hrest. induction w as [|c w IH].
  - change ("" +:+ rest) with rest.
    destruct rest as [|c rest]; [done|].
    unfold stops in Hrest. by rewrite scan_word_cons, Hrest.
  - rewrite all_chars_cons in Hw. apply andb_true_iff in Hw as [Hc Hw].
    destruct (word_char_inv c Hc) as (Hws & Hsym & _).
    by rewrite append_cons, scan_word_cons, Hws, Hsym, (IH Hw).
Qed.

Lemma is_word_inv w :
  is_word w = true →
  ∃ c w', w = String c w' ∧ word_char c = true ∧ all_chars word_char w = true.
Proof.
  destruct w as [|c w']; [done|]. intros H. exists c, w'.
  split; [done|]. split; [|done].
  unfold is_word in H. rewrite all_chars_cons in H.
  by apply andb_true_iff in H as [? _].
Qed.

Lemma gettoken_word w rest :
  is_word w = true → stops rest = true →
  gettoken (w +:+ rest) = Parsed ("a"%char, w) (skip_whitespace rest).
Proof.
  intros Hw Hrest.
  destruct (is_word_inv w Hw) as (c & w' & -> & Hc & Hall).
  destruct (word_char_inv c Hc) as (Hws & Hsym & Hnul).
  unfold gettoken. rewrite append_cons, skip_whitespace_not_blank by done.
  rewrite Hnul.
  rewrite (strchr_subset "|();&<" c) by done.
  assert (Ascii.eqb c ">" = false) as ->.
  { pose proof (strchr_subset ">" c eq_refl Hsym) as H.
    unfold strchr in H. rewrite orb_false_r in H.
    by rewrite Ascii.eqb_sym. }
  rewrite <- append_cons.
  by rewrite scan_word_app.
Qed.

Lemma peek_word toks w rest :
  all_chars (strchr symbols) toks = true →
  is_word w = true →
  peek toks (w +:+ rest) = Parsed false (w +:+ rest).
Proof.
  intros Htoks Hw.
  destruct (is_word_inv w Hw) as (c & w' & -> & Hc & Hall).
  destruct (word_char_inv c Hc) as (Hws & Hsym & Hnul).
  unfold peek. rewrite append_cons, skip_whitespace_not_blank by done.
  by rewrite (strchr_subset toks c), andb_false_r.
Qed.

Lemma peek_end toks : peek toks "" = Parsed false "".
Proof. done. Qed.

Lemma gettoken_end : gettoken "" = Parsed (NUL, "") "".
Proof. done. Qed.

End Tokens.

(** ** Simple commands *)

Section SimpleCommands.
Import Parse.
Implicit Types (c : ascii) (s w rest : string) (ws argv : list string) (ret : cmd).

Lemma append_assoc s1 s2 s3 : (s1 +:+ s2) +:+ s3 = s1 +:+ (s2 +:+ s3).
Proof. induction s1 as [|c s1 IH]; [done|]. by rewrite !append_cons, IH. Qed.

Lemma unwords_cons_app w ws rest :
  unwords (w :: ws) +:+ rest = w +:+ after_word ws rest.
Proof.
  destruct ws as [|w' ws]; [done|].
  change (unwords (w :: w' :: ws)) with (w +:+ " " +:+ unwords (w' :: ws)).
  by rewrite !append_assoc.
Qed.

Lemma stops_after_word ws rest : stops rest = true → stops (after_word ws rest) = true.
Proof. by destruct ws. Qed.

Lemma skip_after_word ws rest :
  Forall (λ w, is_word w = true) ws →
  skip_whitespace (after_word ws rest) = next_cursor ws rest.
Proof.
  destruct ws as [|w ws]; [done|]. intros Hws.
  apply Forall_cons in Hws as [Hw _].
  unfold after_word, next_cursor.
  rewrite (skip_whitespace_blank " ") by done.
  destruct (is_word_inv w Hw) as (c & w' & -> & Hc & _).
  destruct (word_char_inv c Hc) as (Hblank & _ & _).
  rewrite unwords_cons_app, append_cons.
  by rewrite skip_whitespace_not_blank.
Qed.

Lemma parseredirs_none fuel ret s s' :
  peek "<>" s = Parsed false s' → parseredirs (S fuel) ret s = Parsed ret s'.
Proof. intros H. parse_step. by rewrite H. Qed.

(** At the end of a simple command no redirection follows. *)
Lemma peek_redir_at_end rest :
  ends_command rest = true →
  peek "<>" (skip_whitespace rest) = Parsed false (skip_whitespace rest).
Proof.
  unfold ends_command, peek. rewrite skip_whitespace_idem.
  destruct (skip_whitespace rest) as [|c s]; [done|].
  intros [Hnul H]%andb_true_iff. f_equal.
  apply andb_false_iff. right.
  unfold strchr in *. rewrite !orb_false_r in *.
  repeat (apply orb_true_iff in H as [H|H]);
    apply Ascii.eqb_eq in H; by subst c.
Qed.

Lemma next_cursor_no_redir fuel ret ws rest :
  Forall (λ w, is_word w = true) ws →
  ends_command rest = true →
  parseredirs (S fuel) ret (next_cursor ws rest) = Parsed ret (next_cursor ws rest).
Proof.
  intros Hws Hrest. apply parseredirs_none.
  destruct ws as [|w ws]; [by apply peek_redir_at_end|].
  apply Forall_cons in Hws as [Hw _].
  unfold next_cursor. rewrite unwords_cons_app. by apply peek_word.
Qed.

Lemma next_cursor_no_redir_words fuel ret w ws rest :
  is_word w = true →
  parseredirs (S fuel) ret (next_cursor (w :: ws) rest)
    = Parsed ret (next_cursor (w :: ws) rest).
Proof.
  intros Hw. apply parseredirs_none.
  unfold next_cursor. rewrite unwords_cons_app. by apply peek_word.
Qed.

(** One word taken by the loop of [parseexec]. *)
Lemma parseexec_args_word fuel ret argv w ws rest :
  is_word w = true → Forall (λ w, is_word w = true) ws → stops rest = true →
  parseexec_args (S fuel) ret argv (next_cursor (w :: ws) rest) =
    if (MAXARGS <=? length (argv ++ [w]))%nat then Panicked [Panic "too many args"]
    else (ret ← parseredirs fuel ret; parseexec_args fuel ret (argv ++ [w]))
           (next_cursor ws rest).
Proof.
  intros Hw Hws Hrest. unfold next_cursor at 1. rewrite unwords_cons_app.
  parse_step. rewrite peek_word by done. parse_step.
  rewrite gettoken_word by (done || by apply stops_after_word). parse_step.
  rewrite skip_after_word by done.
  change (Ascii.eqb "a" NUL) with false. change (negb (Ascii.eqb "a" "a")) with false.
  cbv iota. by destruct (MAXARGS <=? length (argv ++ [w]))%nat.
Qed.

(** Ten words are too many: the tenth makes the loop panic. *)
Lemma parseexec_args_too_many ws :
  ∀ argv ret rest fuel,
    Forall (λ w, is_word w = true) ws → stops rest = true →
    (length argv < MAXARGS)%nat →
    (MAXARGS ≤ length argv + length ws)%nat →
    (length ws < fuel)%nat →
    parseexec_args fuel ret argv (next_cursor ws rest)
      = Panicked [Panic "too many args"].
Proof.
  induction ws as [|w ws IH]; intros argv ret rest fuel Hws Hrest Hlen Hmany Hfuel.
  - simpl in Hmany. lia.
  - apply Forall_cons in Hws as [Hw Hws].
    destruct fuel as [|fuel]; [lia|].
    rewrite parseexec_args_word by done.
    rewrite length_app. simpl length.
    destruct (Nat.leb_spec MAXARGS (length argv + 1)) as [|Hroom]; [done|].
    simpl in Hmany, Hfuel.
    destruct ws as [|w' ws']; [simpl in Hmany; lia|].
    destruct fuel as [|fuel]; [simpl in Hfuel; lia|].
    pose proof Hws as Hws'. apply Forall_cons in Hws' as [Hw' _].
    bind_step. rewrite next_cursor_no_redir_words by done.
    apply IH; try done; rewrite ?length_app; simpl in *; lia.
Qed.

(** Fewer than ten words up to the end of the command: all are taken. *)
Lemma parseexec_args_words ws :
  ∀ argv ret rest fuel,
    Forall (λ w, is_word w = true) ws → stops rest = true →
    ends_command rest = true →
    (length argv + length ws < MAXARGS)%nat →
    (length ws < fuel)%nat →
    parseexec_args fuel ret argv (next_cursor ws rest)
      = Parsed (ret, argv ++ ws) (skip_whitespace rest).
Proof.
  induction ws as [|w ws IH]; intros argv ret rest fuel Hws Hrest Hend Hlen Hfuel.
  - destruct fuel as [|fuel]; [simpl in Hfuel; lia|].
    rewrite app_nil_r. unfold next_cursor. parse_step.
    unfold ends_command in Hend. unfold peek. rewrite skip_whitespace_idem.
    destruct (skip_whitespace rest) as [|c s] eqn:E; [done|].
    by rewrite Hend.
  - apply Forall_cons in Hws as [Hw Hws].
    destruct fuel as [|fuel]; [lia|].
    rewrite parseexec_args_word by done.
    rewrite length_app. simpl length.
    simpl in Hlen, Hfuel.
    destruct (Nat.leb_spec MAXARGS (length argv + 1)) as [|Hroom]; [lia|].
    destruct fuel as [|fuel]; [lia|].
    bind_step. rewrite next_cursor_no_redir by done.
    rewrite IH; try done; rewrite ?length_app; simpl; try lia.
    by rewrite <- app_assoc.
Qed.

Lemma parseexec_words w ws rest fuel :
  Forall (λ w, is_word w = true) (w :: ws) → stops rest = true →
  ends_command rest = true →
  (length (w :: ws) < MAXARGS)%nat →
  (length (w :: ws) + 2 < fuel)%nat →
  parseexec fuel (unwords (w :: ws) +:+ rest)
    = Parsed (EXEC (w :: ws) 0) (skip_whitespace rest).
Proof.
  intros Hws Hrest Hend Hlen Hfuel.
  destruct fuel as [|fuel]; [lia|].
  pose proof Hws as Hws'. apply Forall_cons in Hws' as [Hw _].
  parse_step. rewrite unwords_cons_app at 1. rewrite peek_word by done.
  rewrite <- unwords_cons_app. bind_step.
  change (unwords (w :: ws) +:+ rest) with (next_cursor (w :: ws) rest).
  destruct fuel as [|fuel]; [lia|].
  rewrite next_cursor_no_redir_words by done.
  rewrite (parseexec_args_words (w :: ws) [] execcmd rest) by (done || simpl in *; lia).
  done.
Qed.

Lemma parseexec_too_many w ws rest fuel :
  Forall (λ w, is_word w = true) (w :: ws) → stops rest = true →
  (MAXARGS ≤ length (w :: ws))%nat →
  (length (w :: ws) + 2 < fuel)%nat →
  parseexec fuel (unwords (w :: ws) +:+ rest) = Panicked [Panic "too many args"].
Proof.
  intros Hws Hrest Hlen Hfuel.
  destruct fuel as [|fuel]; [lia|].
  pose proof Hws as Hws'. apply Forall_cons in Hws' as [Hw _].
  parse_step. rewrite unwords_cons_app at 1. rewrite peek_word by done.
  rewrite <- unwords_cons_app. bind_step.
  change (unwords (w :: ws) +:+ rest) with (next_cursor (w :: ws) rest).
  destruct fuel as [|fuel]; [lia|].
  rewrite next_cursor_no_redir_words by done.
  by rewrite (parseexec_args_too_many (w :: ws) [] execcmd rest)
    by (done || simpl in *; unfold MAXARGS; lia).
Qed.

Lemma all_chars_app p s1 s2 :
  all_chars p (s1 +:+ s2) = all_chars p s1 && all_chars p s2.
Proof.
  induction s1 as [|c s1 IH]; [done|].
  by rewrite append_cons, !all_chars_cons, IH, andb_assoc.
Qed.

Lemma all_chars_impl (p q : ascii → bool) s :
  (∀ c, p c = true → q c = true) → all_chars p s = true → all_chars q s = true.
Proof.
  intros Hpq. induction s as [|c s IH]; [done|].
  rewrite !all_chars_cons. intros [Hc Hs]%andb_true_iff.
  by rewrite (Hpq c Hc), (IH Hs).
Qed.

Lemma c_string_no_nul s : no_nul s = true → c_string s = s.
Proof.
  unfold no_nul. induction s as [|c s IH]; [done|].
  rewrite all_chars_cons. intros [Hc Hs]%andb_true_iff.
  cbn [c_string]. apply negb_true_iff in Hc. by rewrite Hc, (IH Hs).
Qed.

Lemma no_nul_word w : is_word w = true → no_nul w = true.
Proof.
  intros Hw. destruct (is_word_inv w Hw) as (c & w' & -> & _ & Hall).
  eapply all_chars_impl; [|exact Hall].
  intros d Hd. destruct (word_char_inv d Hd) as (_ & _ & Hnul). by rewrite Hnul.
Qed.

Lemma no_nul_blank b : is_blank b = true → no_nul b = true.
Proof.
  apply all_chars_impl. intros c Hc.
  destruct (Ascii.eqb_spec c NUL) as [->|]; done.
Qed.

Lemma no_nul_unwords ws :
  Forall (λ w, is_word w = true) ws → no_nul (unwords ws) = true.
Proof.
  induction ws as [|w ws IH]; [done|]. intros [Hw Hws]%Forall_cons.
  pose proof (unwords_cons_app w ws "") as E. rewrite !append_empty_r in E.
  rewrite E. pose proof (no_nul_word w Hw) as Hnw. specialize (IH Hws).
  unfold no_nul in *. rewrite all_chars_app, Hnw. cbn [andb].
  destruct ws as [|w' ws']; [done|].
  unfold after_word. rewrite append_empty_r, all_chars_app. by rewrite IH.
Qed.

Lemma blank_stops b : is_blank b = true → stops b = true.
Proof.
  destruct b as [|c b]; [done|]. unfold is_blank. rewrite all_chars_cons.
  intros [Hc _]%andb_true_iff. unfold stops. by rewrite Hc.
Qed.

Lemma blank_ends_command b : is_blank b = true → ends_command b = true.
Proof. intros Hb. unfold ends_command. by rewrite skip_whitespace_all_blank. Qed.

(** A line of words: [parseline] and [parsecmd] follow [parseexec]. *)
Lemma parsecmd_follows_parseexec fuel line :
  no_nul line = true →
  (parseexec fuel line = Panicked [Panic "too many args"] →
   parsecmd (S (S fuel)) line = Panicked [Panic "too many args"])
  ∧ (∀ cmd, parseexec fuel line = Parsed cmd "" →
     parsecmd (S (S fuel)) line = Parsed cmd "").
Proof.
  intros Hnul. unfold parsecmd. rewrite c_string_no_nul by done.
  split.
  - intros H. parse_step. by rewrite H.
  - intros cmd H. parse_step. rewrite H. reflexivity.
Qed.

End SimpleCommands.

Section ArgumentLimit.
Import Parse.

Lemma string_length_app s1 s2 :
  String.length (s1 +:+ s2) = (String.length s1 + String.length s2)%nat.
Proof.
  induction s1 as [|c s1 IH]; [done|].
  rewrite append_cons. simpl. by rewrite IH.
Qed.

Lemma length_unwords ws :
  Forall (λ w, is_word w = true) ws → (length ws ≤ String.length (unwords ws))%nat.
Proof.
  induction ws as [|w ws IH]; [done|]. intros [Hw Hws]%Forall_cons.
  pose proof (unwords_cons_app w ws "") as E. rewrite append_empty_r in E.
  rewrite E, string_length_app.
  destruct (is_word_inv w Hw) as (c & w' & -> & _ & _).
  specialize (IH Hws). change (length (String c w' :: ws)) with (S (length ws)).
  change (String.length (String c w')) with (S (String.length w')).
  destruct ws as [|w2 ws']; [simpl; lia|].
  unfold after_word. rewrite !string_length_app.
  change (String.length " ") with 1%nat. lia.
Qed.

Lemma parse_fuel_words w ws rest :
  Forall (λ w, is_word w = true) (w :: ws) →
  ∃ fuel, parse_fuel (unwords (w :: ws) +:+ rest) = S (S fuel)
          ∧ (length (w :: ws) + 2 < fuel)%nat.
Proof.
  intros Hws. apply length_unwords in Hws.
  exists (4 * String.length (unwords (w :: ws) +:+ rest) + 2)%nat.
  unfold parse_fuel. rewrite string_length_app.
  change (length (w :: ws)) with (S (length ws)) in *. lia.
Qed.

End ArgumentLimit.

(** C7, as amended.  [argv] has [MAXARGS] slots and the last one used holds
    the terminator, so a simple command of up to [MAXARGS - 1] words is
    parsed into an [EXEC] with those words, and one of [MAXARGS] words or
    more makes [parsecmd] panic with "too many args": the process writes
    that line and exits with status 1 before [runcmd] is entered, no
    [fork] made.  [runcmd] checks no length: the child hands [exec] the
    whole vector. *)
Theorem too_many_args_rejected_at_parse (w : string) ws rest st :
  Forall (λ w, is_word w = true) (w :: ws) →
  is_blank rest = true →
  ((length (w :: ws) < MAXARGS)%nat →
   Parse.parsecmd (parse_fuel (unwords (w :: ws) +:+ rest)) (unwords (w :: ws) +:+ rest)
     = Parse.Parsed (EXEC (w :: ws) 0) "")
  ∧ ((MAXARGS ≤ length (w :: ws))%nat →
     Parse.parsecmd (parse_fuel (unwords (w :: ws) +:+ rest)) (unwords (w :: ws) +:+ rest)
       = Parse.Panicked [Panic "too many args"]
     ∧ parse_and_run (unwords (w :: ws) +:+ rest) st
       = Exited 1 (emit (Out (Panic "too many args")) st))
  ∧ (∀ fs es,
       w ≠ "cd" → w ≠ "jobs" →
       forks st = 0 :: fs → execs st = true :: es →
       run (EXEC (w :: ws) 0) st
         = Execed (w :: ws) (set_execs es (emit (Forked 0) (set_forks fs st)))).
Proof.
  intros Hws Hrest.
  destruct (parse_fuel_words w ws rest Hws) as (fuel & Hfuel & Hbig).
  assert (no_nul (unwords (w :: ws) +:+ rest) = true) as Hnul.
  { unfold no_nul. rewrite all_chars_app.
    apply andb_true_iff. split; [by apply no_nul_unwords | by apply no_nul_blank]. }
  destruct (parsecmd_follows_parseexec fuel _ Hnul) as [Hpanic Hok].
  split; [|split].
  - intros Hlen. rewrite Hfuel. apply Hok.
    rewrite parseexec_words;
      [by rewrite skip_whitespace_all_blank | done | by apply blank_stops
      | by apply blank_ends_command | done | done].
  - intros Hlen.
    assert (Parse.parsecmd (parse_fuel (unwords (w :: ws) +:+ rest))
              (unwords (w :: ws) +:+ rest) = Parse.Panicked [Panic "too many args"]) as E.
    { rewrite Hfuel. apply Hpanic.
      apply parseexec_too_many; [done | by apply blank_stops | done | done]. }
    split; [done|]. unfold parse_and_run. by rewrite E.
  - intros fs es Hcd Hjobs Hforks Hexecs.
    rewrite (run_EXEC_forks _ _ _ 0 fs) by done. simpl.
    unfold Sys.exec. run_step. by rewrite Hexecs.
Qed.

Lemma too_many_args_rejected_at_parse_witness :
  let ws := ["b"; "c"; "d"; "e"; "f"; "g"; "h"; "i"; "j"; "k"] in
  let st := boot [0] [] [] [] [] [true] "" in
  ((length ("a" :: ws) < MAXARGS)%nat →
   Parse.parsecmd (parse_fuel (unwords ("a" :: ws) +:+ " ")) (unwords ("a" :: ws) +:+ " ")
     = Parse.Parsed (EXEC ("a" :: ws) 0) "")
  ∧ ((MAXARGS ≤ length ("a" :: ws))%nat →
     Parse.parsecmd (parse_fuel (unwords ("a" :: ws) +:+ " ")) (unwords ("a" :: ws) +:+ " ")
       = Parse.Panicked [Panic "too many args"]
     ∧ parse_and_run (unwords ("a" :: ws) +:+ " ") st
       = Exited 1 (emit (Out (Panic "too many args")) st))
  ∧ (∀ fs es,
       "a" ≠ "cd" → "a" ≠ "jobs" →
       forks st = 0 :: fs → execs st = true :: es →
       run (EXEC ("a" :: ws) 0) st
         = Execed ("a" :: ws) (set_execs es (emit (Forked 0) (set_forks fs st)))).
Proof.
  apply (too_many_args_rejected_at_parse "a"
           ["b"; "c"; "d"; "e"; "f"; "g"; "h"; "i"; "j"; "k"] " ").
  - repeat constructor.
  - reflexivity.
Defined.

(** C7 as stated fails: a command of exactly [MAXARGS] words does not fit;
    its parse panics. *)
Lemma exactly_maxargs_words_panic :
  length ["a"; "b"; "c"; "d"; "e"; "f"; "g"; "h"; "i"; "j"] = MAXARGS
  ∧ Parse.parsecmd (parse_fuel "a b c d e f g h i j") "a b c d e f g h i j"
    = Parse.Panicked [Panic "too many args"]
  ∧ Parse.parsecmd (parse_fuel "a b c d e f g h i") "a b c d e f g h i"
    = Parse.Parsed (EXEC ["a"; "b"; "c"; "d"; "e"; "f"; "g"; "h"; "i"] 0) "".
Proof. split; [|split]; vm_compute; reflexivity. Qed.

(** ** What every parsed tree looks like *)

Section ParsedShape.
Import Parse.
Implicit Types (s rest : string) (c ret : cmd).

Lemma P_bind_inv {A B} (m : P A) (f : A → P B) s (b : B) rest :
  (m ≫= f) s = Parsed b rest →
  ∃ a s1, m s = Parsed a s1 ∧ f a s1 = Parsed b rest.
Proof.
  unfold mbind, P_bind. destruct (m s) as [a s1| |]; [|done|done].
  intros H. by exists a, s1.
Qed.

Lemma peek_parsed toks s : ∃ b, peek toks s = Parsed b (skip_whitespace s).
Proof. unfold peek. destruct (skip_whitespace s); by eexists. Qed.

Lemma gettoken_parsed s : ∃ tok q s', gettoken s = Parsed (tok, q) s'.
Proof.
  unfold gettoken. destruct (skip_whitespace s) as [|c s1]; [by eexists _, _, _|].
  destruct (Ascii.eqb c NUL); [by eexists _, _, _|].
  destruct (strchr "|();&<" c); [by eexists _, _, _|].
  destruct (Ascii.eqb c ">").
  - destruct s1 as [|d s2]; [by eexists _, _, _|].
    destruct d as [[] [] [] [] [] [] [] []]; by eexists _, _, _.
  - destruct (scan_word (String c s1)). by eexists _, _, _.
Qed.

Lemma parseredirs_shape fuel :
  ∀ ret s c rest,
    parsed_shape ret → parseredirs fuel ret s = Parsed c rest → parsed_shape c.
Proof.
  induction fuel as [|fuel IH]; intros ret s c rest Hret H; [done|].
  revert H. parse_step.
  destruct (peek_parsed "<>" s) as [more ->].
  destruct more; [|by intros [= <- _]].
  destruct (gettoken_parsed (skip_whitespace s)) as (tok & q1 & s1 & ->).
  destruct (gettoken_parsed s1) as (tok2 & q & s2 & ->).
  destruct (negb (Ascii.eqb tok2 "a")); [done|].
  apply IH. unfold redircmd.
  destruct (Ascii.eqb tok "<"); [simpl; tauto|].
  destruct (Ascii.eqb tok ">"); [simpl; tauto|].
  destruct (Ascii.eqb tok "+"); [simpl; tauto|]. done.
Qed.

Lemma set_argv_shape ret argv : parsed_shape ret → parsed_shape (set_argv ret argv).
Proof.
  induction ret; simpl; try done. intros [H ?]. split; [by apply IHret | done].
Qed.

Lemma parseexec_args_shape fuel :
  ∀ ret argv s ret' argv' rest,
    parsed_shape ret →
    parseexec_args fuel ret argv s = Parsed (ret', argv') rest →
    parsed_shape ret'.
Proof.
  induction fuel as [|fuel IH]; intros ret argv s ret' argv' rest Hret H; [done|].
  revert H. parse_step.
  destruct (peek_parsed "|)&;" s) as [stop ->].
  destruct stop; [by intros [= <- _ _]|].
  destruct (gettoken_parsed (skip_whitespace s)) as (tok & q & s1 & ->).
  destruct (Ascii.eqb tok NUL); [by intros [= <- _ _]|].
  destruct (negb (Ascii.eqb tok "a")); [done|].
  destruct (MAXARGS <=? length (argv ++ [q]))%nat; [done|].
  destruct (parseredirs fuel ret s1) as [ret1 s2| |] eqn:E; [|done|done].
  apply IH. by eapply parseredirs_shape.
Qed.

Lemma parse_backs_shape fuel :
  ∀ c s c' rest,
    parsed_shape c → parse_backs fuel c s = Parsed c' rest → parsed_shape c'.
Proof.
  induction fuel as [|fuel IH]; intros c s c' rest Hc H; [done|].
  revert H. parse_step.
  destruct (peek_parsed "&" s) as [more ->].
  destruct more; [|by intros [= <- _]].
  destruct (gettoken_parsed (skip_whitespace s)) as (tok & q & s1 & ->).
  by apply IH.
Qed.

Lemma parse_shape fuel :
  (∀ s c rest, parseline fuel s = Parsed c rest → parsed_shape c)
  ∧ (∀ s c rest, parsepipe fuel s = Parsed c rest → parsed_shape c)
  ∧ (∀ s c rest, parseexec fuel s = Parsed c rest → parsed_shape c)
  ∧ (∀ s c rest, parseblock fuel s = Parsed c rest → parsed_shape c).
Proof.
  induction fuel as [|fuel (IHline & IHpipe & IHexec & IHblock)]; [done|].
  repeat split; intros s c rest; parse_step.
  - destruct (parsepipe fuel s) as [c1 s1| |] eqn:E1; [|done|done].
    destruct (parse_backs fuel c1 s1) as [c2 s2| |] eqn:E2; [|done|done].
    apply IHpipe in E1. apply (parse_backs_shape _ _ _ _ _ E1) in E2.
    destruct (peek_parsed ";" s2) as [more ->].
    destruct more; [|by intros [= <- _]].
    destruct (gettoken_parsed (skip_whitespace s2)) as (tok & q & s3 & ->).
    destruct (parseline fuel s3) as [c3 s4| |] eqn:E3; [|done|done].
    intros [= <- _]. split; [done | by eapply IHline].
  - destruct (parseexec fuel s) as [c1 s1| |] eqn:E1; [|done|done].
    apply IHexec in E1.
    destruct (peek_parsed "|" s1) as [more ->].
    destruct more; [|by intros [= <- _]].
    destruct (gettoken_parsed (skip_whitespace s1)) as (tok & q & s3 & ->).
    destruct (parsepipe fuel s3) as [c3 s4| |] eqn:E3; [|done|done].
    intros [= <- _]. split; [done | by eapply IHpipe].
  - destruct (peek_parsed "(" s) as [block ->].
    destruct block; [apply IHblock|].
    destruct (parseredirs fuel execcmd (skip_whitespace s)) as [ret s1| |] eqn:E1;
      [|done|done].
    apply parseredirs_shape in E1; [|done].
    destruct (parseexec_args fuel ret [] s1) as [[ret' argv] s2| |] eqn:E2;
      [|done|done].
    intros [= <- _]. apply set_argv_shape. by eapply parseexec_args_shape.
  - destruct (peek_parsed "(" s) as [open ->].
    destruct open; simpl; [|done].
    destruct (gettoken_parsed (skip_whitespace s)) as (tok & q & s1 & ->).
    destruct (parseline fuel s1) as [c1 s2| |] eqn:E1; [|done|done].
    apply IHline in E1.
    destruct (peek_parsed ")" s2) as [close ->].
    destruct close; simpl; [|done].
    destruct (gettoken_parsed (skip_whitespace s2)) as (tok' & q' & s3 & ->).
    by apply parseredirs_shape.
Qed.

(** No tree that [parsecmd] returns carries a flag, and each of its
    redirections has one of the three pairs of mode and descriptor. *)
Lemma parsecmd_parsed_shape fuel buf c rest :
  parsecmd fuel buf = Parsed c rest → parsed_shape c.
Proof.
  unfold parsecmd. unfold mbind, P_bind, mret, P_ret.
  destruct (parseline fuel (c_string buf)) as [c1 s1| |] eqn:E; [|done|done].
  apply (proj1 (parse_shape fuel)) in E.
  destruct (peek_parsed "" s1) as [b ->].
  destruct (skip_whitespace s1); by intros [= <- _].
Qed.

Lemma parsed_shape_well_marked c : parsed_shape c → well_marked c.
Proof.
  induction c as [argv back|c IH file mode fd|l IHl r IHr|l IHl r IHr|c IH]; simpl.
  - done.
  - intros [H _]. by apply IH.
  - intros [Hl Hr]. split; [|split; auto].
    destruct l, r; simpl in *; try done. by subst.
  - intros [Hl Hr]. auto.
  - auto.
Qed.

End ParsedShape.

(** ** Redirections *)

Section Redirections.
Import Parse.
Implicit Types (s rest file blank : string) (ret : cmd).

Lemma peek_redir_symbol c s :
  (c = "<" ∨ c = ">")%char → peek "<>" (String c s) = Parsed true (String c s).
Proof. by intros [-> | ->]. Qed.

Lemma gettoken_lt s : gettoken (String "<" s) = Parsed ("<"%char, "<") (skip_whitespace s).
Proof. reflexivity. Qed.

Lemma gettoken_gtgt s :
  gettoken (String ">" (String ">" s)) = Parsed ("+"%char, ">>") (skip_whitespace s).
Proof. reflexivity. Qed.

Lemma gettoken_gt s :
  Ascii.eqb (first_char s) ">" = false →
  gettoken (String ">" s) = Parsed (">"%char, ">") (skip_whitespace s).
Proof.
  intros Hfirst. unfold gettoken.
  rewrite skip_whitespace_not_blank by done.
  change (Ascii.eqb ">" NUL) with false. change (strchr "|();&<" ">") with false.
  change (Ascii.eqb ">" ">") with true. cbv iota.
  destruct s as [|d s']; [done|]. simpl in Hfirst.
  destruct d as [[] [] [] [] [] [] [] []]; try done.
Qed.

(** The file name that follows a redirection symbol. *)
Lemma file_after_symbol blank file rest :
  is_blank blank = true → is_word file = true → stops rest = true →
  skip_whitespace (blank +:+ file +:+ rest) = file +:+ rest
  ∧ gettoken (file +:+ rest) = Parsed ("a"%char, file) (skip_whitespace rest)
  ∧ Ascii.eqb (first_char (blank +:+ file +:+ rest)) ">" = false.
Proof.
  intros Hblank Hfile Hrest.
  destruct (is_word_inv file Hfile) as (c & w' & -> & Hc & _).
  destruct (word_char_inv c Hc) as (Hws & Hsym & _).
  split; [|split].
  - rewrite skip_whitespace_blank by done.
    by rewrite append_cons, skip_whitespace_not_blank.
  - by apply gettoken_word.
  - destruct blank as [|b blank].
    + change ("" +:+ String c w' +:+ rest) with (String c (w' +:+ rest)). simpl.
      pose proof (strchr_subset ">" c eq_refl Hsym) as H.
      unfold strchr in H. by rewrite orb_false_r, Ascii.eqb_sym in H.
    + rewrite append_cons. simpl.
      unfold is_blank in Hblank. rewrite all_chars_cons in Hblank.
      apply andb_true_iff in Hblank as [Hb _].
      destruct (Ascii.eqb_spec b ">") as [->|]; done.
Qed.

End Redirections.

(** C6, as amended.  [parseredirs] turns [< file] into a [REDIR] with mode
    [O_RDONLY] on descriptor 0, [> file] into one with mode
    [O_WRONLY|O_CREATE|O_TRUNC] on descriptor 1, and [>> file] into one with
    mode [O_WRONLY|O_CREATE] on descriptor 1: write-only and
    create-if-absent, without truncation and with no further flag.  Every
    [REDIR] of every parsed tree has one of these three pairs, and [runcmd]
    hands the mode to [open] as it is. *)
Theorem redirection_open_flags fuel ret blank file rest :
  is_blank blank = true → is_word file = true → stops rest = true →
  Parse.parseredirs (S fuel) ret ("<" +:+ blank +:+ file +:+ rest)
    = Parse.parseredirs fuel (REDIR ret file O_RDONLY 0) (Parse.skip_whitespace rest)
  ∧ Parse.parseredirs (S fuel) ret (">" +:+ blank +:+ file +:+ rest)
    = Parse.parseredirs fuel
        (REDIR ret file (Z.lor (Z.lor O_WRONLY O_CREATE) O_TRUNC) 1)
        (Parse.skip_whitespace rest)
  ∧ Parse.parseredirs (S fuel) ret (">>" +:+ blank +:+ file +:+ rest)
    = Parse.parseredirs fuel (REDIR ret file (Z.lor O_WRONLY O_CREATE) 1)
        (Parse.skip_whitespace rest)
  ∧ mode_flags O_RDONLY = [Read_only]
  ∧ mode_flags (Z.lor (Z.lor O_WRONLY O_CREATE) O_TRUNC) = [Write_only; Create; Truncate]
  ∧ mode_flags (Z.lor O_WRONLY O_CREATE) = [Write_only; Create]
  ∧ (∀ n buf c r, Parse.parsecmd n buf = Parse.Parsed c r → parsed_shape c)
  ∧ (∀ c mode fd st,
       run (REDIR c file mode fd) st =
         (Sys.close fd;;
          rc ← Sys.open file mode;
          if rc <? 0 then printf (Open_failed file) else run c) st).
Proof.
  intros Hblank Hfile Hrest.
  destruct (file_after_symbol blank file rest Hblank Hfile Hrest) as (Hskip & Hfile' & Hgt).
  split; [|split; [|split]].
  - change ("<" +:+ blank +:+ file +:+ rest)
      with (String "<" (blank +:+ file +:+ rest)).
    cbn [Parse.parseredirs]. unfold mbind, Parse.P_bind. cbv beta iota.
    rewrite peek_redir_symbol by auto. cbv beta iota.
    rewrite gettoken_lt, Hskip, Hfile'. reflexivity.
  - change (">" +:+ blank +:+ file +:+ rest)
      with (String ">" (blank +:+ file +:+ rest)).
    cbn [Parse.parseredirs]. unfold mbind, Parse.P_bind. cbv beta iota.
    rewrite peek_redir_symbol by auto. cbv beta iota.
    rewrite gettoken_gt by done. rewrite Hskip, Hfile'. reflexivity.
  - change (">>" +:+ blank +:+ file +:+ rest)
      with (String ">" (String ">" (blank +:+ file +:+ rest))).
    cbn [Parse.parseredirs]. unfold mbind, Parse.P_bind. cbv beta iota.
    rewrite peek_redir_symbol by auto. cbv beta iota.
    rewrite gettoken_gtgt, Hskip, Hfile'. reflexivity.
  - split; [reflexivity|]. split; [reflexivity|]. split; [reflexivity|].
    split; [exact parsecmd_parsed_shape|].
    intros c mode fd st. apply run_REDIR.
Qed.

Lemma redirection_open_flags_witness :
  Parse.parseredirs 3 (EXEC ["echo"] 0) ("<" +:+ " " +:+ "log" +:+ "")
    = Parse.parseredirs 2 (REDIR (EXEC ["echo"] 0) "log" O_RDONLY 0) (Parse.skip_whitespace "")
  ∧ Parse.parseredirs 3 (EXEC ["echo"] 0) (">" +:+ " " +:+ "log" +:+ "")
    = Parse.parseredirs 2
        (REDIR (EXEC ["echo"] 0) "log" (Z.lor (Z.lor O_WRONLY O_CREATE) O_TRUNC) 1)
        (Parse.skip_whitespace "")
  ∧ Parse.parseredirs 3 (EXEC ["echo"] 0) (">>" +:+ " " +:+ "log" +:+ "")
    = Parse.parseredirs 2 (REDIR (EXEC ["echo"] 0) "log" (Z.lor O_WRONLY O_CREATE) 1)
        (Parse.skip_whitespace "")
  ∧ mode_flags O_RDONLY = [Read_only]
  ∧ mode_flags (Z.lor (Z.lor O_WRONLY O_CREATE) O_TRUNC) = [Write_only; Create; Truncate]
  ∧ mode_flags (Z.lor O_WRONLY O_CREATE) = [Write_only; Create]
  ∧ (∀ n buf c r, Parse.parsecmd n buf = Parse.Parsed c r → parsed_shape c)
  ∧ (∀ c mode fd st,
       run (REDIR c "log" mode fd) st =
         (Sys.close fd;;
          rc ← Sys.open "log" mode;
          if rc <? 0 then printf (Open_failed "log") else run c) st).
Proof.
  apply (redirection_open_flags 2 (EXEC ["echo"] 0) " " "log" ""); reflexivity.
Defined.

(** C6 as stated fails for [>>]: the mode parsed for [echo hi >> log] is
    [O_WRONLY|O_CREATE], which carries the write-only and the create flag
    and nothing else; it is the mode of [>] with [O_TRUNC] cleared, and no
    append flag is in it. *)
Lemma append_redirection_mode :
  Parse.parsecmd (parse_fuel "echo hi >> log") "echo hi >> log"
    = Parse.Parsed (REDIR (EXEC ["echo"; "hi"] 0) "log" (Z.lor O_WRONLY O_CREATE) 1) ""
  ∧ mode_flags (Z.lor O_WRONLY O_CREATE) = [Write_only; Create]
  ∧ Z.lor O_WRONLY O_CREATE = 0x201
  ∧ Z.ldiff (Z.lor (Z.lor O_WRONLY O_CREATE) O_TRUNC) O_TRUNC = Z.lor O_WRONLY O_CREATE.
Proof. repeat split; vm_compute; reflexivity. Qed.

(** ** Trailing [&] *)

Section TrailingBackground.
Import Parse.

Lemma parse_backs_once fuel cmd :
  parse_backs (S (S fuel)) cmd "&" = Parsed (BACK cmd) "".
Proof. reflexivity. Qed.

Lemma parse_backs_twice fuel cmd :
  parse_backs (S (S (S fuel))) cmd "& &" = Parsed (BACK (BACK cmd)) "".
Proof. reflexivity. Qed.



End TrailingBackground.



(** ** Reading a line *)

Section ReadingLines.
Implicit Types (line rest : string) (st : proc).

Lemma getcmd_fill_line fd line :
  ∀ rest room first st,
    no_lf line = true → (String.length line < room)%nat →
    Sys.is_open fd st = true →
    input st = line +:+ nl +:+ rest →
    getcmd_fill room first fd st = Ok (Some line) (set_input rest st).
Proof.
  induction line as [|c line IH]; intros rest room first st Hlf Hroom Hfd Hin;
    (destruct room as [|room]; [simpl in Hroom; lia|]).
  - simpl. unfold Sys.read1. run_step. rewrite Hfd, Hin. simpl. done.
  - unfold no_lf in Hlf. rewrite all_chars_cons in Hlf.
    apply andb_true_iff in Hlf as [Hc Hlf]. apply negb_true_iff in Hc.
    simpl. unfold Sys.read1. run_step. rewrite Hfd, Hin. simpl. rewrite Hc.
    rewrite (IH rest room false (set_input (line +:+ nl +:+ rest) st));
      [by destruct st | done | simpl in Hroom; lia | done | done].
Qed.

(** [getcmd] on a line that ends in a line feed and fits in the buffer. *)
Lemma getcmd_line fd line rest st :
  no_lf line = true → (String.length line < 99)%nat →
  Sys.is_open fd st = true →
  input st = line +:+ nl +:+ rest →
  getcmd 100 fd st =
    Ok (if Ascii.eqb (first_char line) NUL then -1 else 0, line) (set_input rest st).
Proof.
  intros Hlf Hlen Hfd Hin. unfold getcmd.
  unfold mbind at 1, M_bind at 1. change (100 - 1)%nat with 99%nat.
  rewrite (getcmd_fill_line fd line rest 99 true st) by done.
  by destruct (Ascii.eqb (first_char line) NUL).
Qed.

Lemma keeps_read1 fd : keeps_ofile (Sys.read1 fd).
Proof.
  intros st a st'. unfold Sys.read1.
  destruct (Sys.is_open fd st); [|by intros [= _ <-]].
  destruct (input st); by intros [= _ <-].
Qed.

Lemma keeps_getcmd_fill fd room : ∀ first, keeps_ofile (getcmd_fill room first fd).
Proof.
  induction room as [|room IH]; intros first; simpl; [apply keeps_ret|].
  apply keeps_bind; [apply keeps_read1|]. intros [c|].
  - destruct (Ascii.eqb c LF); [apply keeps_ret|].
    apply keeps_bind; [apply IH | intros; apply keeps_ret].
  - destruct first; apply keeps_ret.
Qed.

Lemma keeps_getcmd nbuf fd : keeps_ofile (getcmd nbuf fd).
Proof.
  apply keeps_bind; [apply keeps_getcmd_fill|].
  intros [buf|]; [|apply keeps_ret].
  destruct (Ascii.eqb _ _); apply keeps_ret.
Qed.

Lemma first_char_no_lf line : no_lf line = true → Ascii.eqb (first_char line) LF = false.
Proof.
  destruct line as [|c line]; [done|]. unfold no_lf. rewrite all_chars_cons.
  intros [Hc _]%andb_true_iff. by apply negb_true_iff in Hc.
Qed.

(** One turn of the loop of [main] on a line that is not empty: the
    command is run by the interpreter itself, on its own state. *)
Lemma sh_loop_line n fd line rest st :
  no_lf line = true → (String.length line < 99)%nat →
  Ascii.eqb (first_char line) NUL = false →
  Sys.is_open fd st = true →
  input st = line +:+ nl +:+ rest →
  sh_loop (S n) fd st =
    (parse_and_run line;;
     (if fd =? 0 then reap_zombies else mret tt);;
     sh_loop n fd) (line_read fd rest st).
Proof.
  intros Hlf Hlen Hnul Hfd Hin. cbn [sh_loop].
  unfold mbind at 1 2, M_bind at 1 2.
  assert (∃ st1, (if fd =? 0 then printf Prompt else mret ()) st = Ok tt st1
                 ∧ input st1 = input st
                 ∧ Sys.is_open fd st1 = true
                 ∧ set_input rest st1 = line_read fd rest st)
    as (st1 & -> & Hin1 & Hfd1 & Hst1).
  { unfold line_read. destruct (fd =? 0); by eexists. }
  rewrite (getcmd_line fd line rest st1); [|done|done|done|by rewrite Hin1].
  rewrite Hnul, Hst1. cbv beta iota.
  change (0 <? 0) with false. cbv iota.
  by rewrite ?Hnul, (first_char_no_lf line Hlf).
Qed.

(** An empty line: [getcmd] returns -1 and the loop is left. *)
Lemma sh_loop_empty_line n fd rest st :
  Sys.is_open fd st = true →
  input st = nl +:+ rest →
  sh_loop (S n) fd st = Ok tt (line_read fd rest st).
Proof.
  intros Hfd Hin. cbn [sh_loop].
  unfold mbind at 1 2, M_bind at 1 2.
  assert (∃ st1, (if fd =? 0 then printf Prompt else mret ()) st = Ok tt st1
                 ∧ input st1 = input st
                 ∧ Sys.is_open fd st1 = true
                 ∧ set_input rest st1 = line_read fd rest st)
    as (st1 & -> & Hin1 & Hfd1 & Hst1).
  { unfold line_read. destruct (fd =? 0); by eexists. }
  rewrite (getcmd_line fd "" rest st1); [|done|simpl; lia|done|by rewrite Hin1].
  by rewrite Hst1.
Qed.

End ReadingLines.

(** ** Blank lines *)

Section BlankLines.
Import Parse.

Lemma peek_blank toks blank : is_blank blank = true → peek toks blank = Parsed false "".
Proof. intros H. unfold peek. by rewrite skip_whitespace_all_blank. Qed.

(** A line of white space is parsed into the empty command. *)
Lemma parsecmd_blank blank :
  is_blank blank = true → parsecmd (parse_fuel blank) blank = Parsed (EXEC [] 0) "".
Proof.
  intros Hblank. unfold parsecmd. rewrite c_string_no_nul by (by apply no_nul_blank).
  unfold parse_fuel.
  replace (4 * String.length blank + 4)%nat
    with (S (S (S (S (4 * String.length blank))))) by lia.
  cbn [parseline parsepipe parseexec]. unfold mbind, P_bind. cbv beta iota.
  rewrite peek_blank by done. reflexivity.
Qed.

Lemma main_interactive n (name : string) st :
  main n [name] st = (sh_loop n 0;; exit 0) (set_bg_jobs (replicate NPROC 0) st).
Proof. reflexivity. Qed.

Lemma blank_first_char blank :
  is_blank blank = true → blank ≠ "" → Ascii.eqb (first_char blank) NUL = false.
Proof.
  destruct blank as [|c blank]; [done|]. unfold is_blank. rewrite all_chars_cons.
  intros [Hc _]%andb_true_iff _. simpl.
  destruct (Ascii.eqb_spec c NUL) as [->|]; done.
Qed.

End BlankLines.

(** C2: what the code does with a blank line.  A line of white space is
    parsed into the empty command, on which [runcmd] calls [exit(1)] in the
    interpreter itself; on an empty line [getcmd] returns -1 and [main]
    leaves its loop and calls [exit(0)].  In both cases no process is
    created and nothing but the prompt is written, and the lines that
    follow are never read. *)
Theorem blank_line_ends_session n (name blank rest : string) :
  is_blank blank = true → no_lf blank = true → blank ≠ "" →
  (String.length blank < 99)%nat →
  (∀ st,
     Sys.is_open 0 st = true →
     input st = blank +:+ nl +:+ rest →
     main (S n) [name] st
       = Exited 1 (line_read 0 rest (set_bg_jobs (replicate NPROC 0) st))
     ∧ trace (line_read 0 rest (set_bg_jobs (replicate NPROC 0) st))
       = trace st ++ [Out Prompt]
     ∧ input (line_read 0 rest (set_bg_jobs (replicate NPROC 0) st)) = rest)
  ∧ (∀ st,
       Sys.is_open 0 st = true →
       input st = nl +:+ rest →
       main (S n) [name] st
         = Exited 0 (line_read 0 rest (set_bg_jobs (replicate NPROC 0) st))
       ∧ trace (line_read 0 rest (set_bg_jobs (replicate NPROC 0) st))
         = trace st ++ [Out Prompt]
       ∧ input (line_read 0 rest (set_bg_jobs (replicate NPROC 0) st)) = rest)
  ∧ Parse.parsecmd (parse_fuel blank) blank = Parse.Parsed (EXEC [] 0) ""
  ∧ (∀ st, run (EXEC [] 0) st = Exited 1 st).
Proof.
  intros Hblank Hlf Hne Hlen.
  split; [|split; [|by split; [apply parsecmd_blank|]]].
  - intros st Hfd Hin. split; [|done]. rewrite main_interactive.
    unfold mbind, M_bind.
    rewrite (sh_loop_line n 0 blank rest);
      [|done|done|by apply blank_first_char|done|done].
    unfold mbind, M_bind, parse_and_run. by rewrite parsecmd_blank.
  - intros st Hfd Hin. split; [|done]. rewrite main_interactive.
    unfold mbind, M_bind. by rewrite (sh_loop_empty_line n 0 rest).
Qed.

Lemma blank_line_ends_session_witness :
  (∀ st,
     Sys.is_open 0 st = true →
     input st = "   " +:+ nl +:+ ("echo hi" +:+ nl) →
     main 3 ["sh"] st
       = Exited 1 (line_read 0 ("echo hi" +:+ nl) (set_bg_jobs (replicate NPROC 0) st))
     ∧ trace (line_read 0 ("echo hi" +:+ nl) (set_bg_jobs (replicate NPROC 0) st))
       = trace st ++ [Out Prompt]
     ∧ input (line_read 0 ("echo hi" +:+ nl) (set_bg_jobs (replicate NPROC 0) st))
       = "echo hi" +:+ nl)
  ∧ (∀ st,
       Sys.is_open 0 st = true →
       input st = nl +:+ ("echo hi" +:+ nl) →
       main 3 ["sh"] st
         = Exited 0 (line_read 0 ("echo hi" +:+ nl) (set_bg_jobs (replicate NPROC 0) st))
       ∧ trace (line_read 0 ("echo hi" +:+ nl) (set_bg_jobs (replicate NPROC 0) st))
         = trace st ++ [Out Prompt]
       ∧ input (line_read 0 ("echo hi" +:+ nl) (set_bg_jobs (replicate NPROC 0) st))
         = "echo hi" +:+ nl)
  ∧ Parse.parsecmd (parse_fuel "   ") "   " = Parse.Parsed (EXEC [] 0) ""
  ∧ (∀ st, run (EXEC [] 0) st = Exited 1 st).
Proof.
  apply (blank_line_ends_session 2 "sh" "   " ("echo hi" +:+ nl)).
  - reflexivity.
  - reflexivity.
  - discriminate.
  - simpl. lia.
Defined.

(** The two sessions run: three spaces, then [echo hi]; and an empty line,
    then [echo hi].  Each ends at its first line, with status 1 and 0, the
    second line unread and no process created. *)
Example blank_line_sessions :
  main 3 ["sh"] (boot [5] [(5, 0)] [] [] [] [] ("   " +:+ nl +:+ "echo hi" +:+ nl))
    = Exited 1 (emit (Out Prompt) (boot [5] [(5, 0)] [] [] [] [] ("echo hi" +:+ nl)))
  ∧ main 3 ["sh"] (boot [5] [(5, 0)] [] [] [] [] (nl +:+ "echo hi" +:+ nl))
    = Exited 0 (emit (Out Prompt) (boot [5] [(5, 0)] [] [] [] [] ("echo hi" +:+ nl)))
  ∧ main 3 ["sh"] (boot [5] [(5, 0)] [] [] [] [] ("echo hi" +:+ nl))
    = Exited 0 (emit (Out Prompt) (emit (Forked 5) (emit (Out Prompt)
                 (boot [] [] [] [] [] [] "")))).
Proof. repeat split; vm_compute; reflexivity. Qed.

(** ** Redirections run by the interpreter *)

Section LowestFree.
Implicit Types (f g : fobj) (tbl : list (option fobj)) (st : proc).

(** [fdalloc] takes the first free slot: with slot [i] free, one that is
    not above [i], every slot below it being taken. *)
Lemma fdalloc_first_free f tbl (i : nat) :
  tbl !! i = Some None →
  ∃ j : nat,
    (j ≤ i)%nat
    ∧ (∀ k : nat, (k < j)%nat → ∃ g, tbl !! k = Some (Some g))
    ∧ tbl !! j = Some None
    ∧ Sys.fdalloc f tbl = Some (j, <[j := Some f]> tbl).
Proof.
  revert i. induction tbl as [|[g|] rest IH]; intros i Hi.
  - done.
  - destruct i as [|i]; [done|]. simpl in Hi.
    destruct (IH i Hi) as (j & Hj & Hbelow & Hfree & Halloc).
    exists (S j). split; [lia|]. split.
    { intros [|k] Hk; [by exists g|]. apply Hbelow. lia. }
    split; [done|]. simpl. by rewrite Halloc.
  - exists O. split; [lia|]. split; [intros k Hk; lia|]. done.
Qed.

(** A [REDIR] whose [open] succeeds: the file takes the first free
    descriptor, which is the one just closed or a lower one. *)
Lemma run_REDIR_lowest c (file : string) mode (i : nat) os st :
  (i < length (ofile st))%nat →
  opens st = true :: os →
  ∃ j : nat,
    (j ≤ i)%nat
    ∧ (∀ k : nat, (k < j)%nat → ∃ g, ofile st !! k = Some (Some g))
    ∧ ((j < i)%nat → ofile st !! j = Some None)
    ∧ run (REDIR c file mode (Z.of_nat i)) st
      = run c (set_ofile (<[j := Some (File file mode)]> (<[i := None]> (ofile st)))
                 (set_opens os st)).
Proof.
  intros Hi Hopens.
  destruct (fdalloc_first_free (File file mode) (<[i := None]> (ofile st)) i)
    as (j & Hj & Hbelow & Hfree & Halloc); [by apply list_lookup_insert_eq|].
  exists j. split; [done|]. split.
  { intros k Hk. destruct (Hbelow k Hk) as [g Hg].
    rewrite list_lookup_insert_ne in Hg by lia. by exists g. }
  split.
  { intros Hlt. by rewrite list_lookup_insert_ne in Hfree by lia. }
  rewrite run_REDIR. unfold mbind at 1, M_bind at 1. rewrite close_of_nat.
  unfold mbind, M_bind, Sys.open. simpl. rewrite Hopens, Halloc.
  assert ((Z.of_nat j <? 0) = false) as -> by (apply Z.ltb_ge; lia).
  by destruct st.
Qed.

End LowestFree.

(** C9, as amended.  The loop of [main] runs the command of a line in the
    interpreter itself.  A [REDIR] run there closes its descriptor in the
    interpreter's own table.  When [open] fails the descriptor stays closed
    and [runcmd] returns.  When it succeeds the file takes the lowest free
    descriptor [j]: the one just closed when every lower descriptor is
    open, and otherwise a lower one that was closed before, the descriptor
    of the [REDIR] then staying closed.  Either way the table is as [open]
    left it when the wrapped command returns, and nothing the interpreter
    does afterwards puts the old file back: commands without a [REDIR] of
    their own outside a pipe, [reap_zombies], the prompt and [getcmd] all
    leave the table as it is. *)
Theorem redirect_persists_in_interpreter c (file : string) mode (i : nat) st :
  (i < length (ofile st))%nat →
  (∀ os, opens st = false :: os →
     run (REDIR c file mode (Z.of_nat i)) st
       = Ok tt (emit (Out (Open_failed file))
                  (set_opens os (set_ofile (<[i := None]> (ofile st)) st)))
     ∧ <[i := None]> (ofile st) !! i = Some None)
  ∧ (∀ os, opens st = true :: os →
       ∃ j : nat,
         (j ≤ i)%nat
         ∧ (∀ k : nat, (k < j)%nat → ∃ g, ofile st !! k = Some (Some g))
         ∧ ((j < i)%nat → ofile st !! j = Some None)
         ∧ run (REDIR c file mode (Z.of_nat i)) st
           = run c (set_ofile (<[j := Some (File file mode)]> (<[i := None]> (ofile st)))
                      (set_opens os st))
         ∧ <[j := Some (File file mode)]> (<[i := None]> (ofile st)) !! j
           = Some (Some (File file mode))
         ∧ ((j < i)%nat →
            <[j := Some (File file mode)]> (<[i := None]> (ofile st)) !! i = Some None)
         ∧ (no_redir_outside_pipes c →
            ∀ a st', run (REDIR c file mode (Z.of_nat i)) st = Ok a st' →
                     ofile st' = <[j := Some (File file mode)]> (<[i := None]> (ofile st))))
  ∧ ((∀ k : nat, (k < i)%nat → ∃ g, ofile st !! k = Some (Some g)) →
     ∀ os, opens st = true :: os →
       run (REDIR c file mode (Z.of_nat i)) st
         = run c (set_ofile (<[i := Some (File file mode)]> (ofile st)) (set_opens os st))
       ∧ <[i := Some (File file mode)]> (ofile st) !! i = Some (Some (File file mode))
       ∧ (no_redir_outside_pipes c →
          ∀ a st', run (REDIR c file mode (Z.of_nat i)) st = Ok a st' →
                   ofile st' = <[i := Some (File file mode)]> (ofile st)))
  ∧ (∀ c', no_redir_outside_pipes c' → keeps_ofile (run c'))
  ∧ keeps_ofile reap_zombies
  ∧ (∀ fd, keeps_ofile (getcmd 100 fd))
  ∧ keeps_ofile (printf Prompt)
  ∧ (∀ n fd line rest st0,
       no_lf line = true → (String.length line < 99)%nat →
       Ascii.eqb (first_char line) NUL = false →
       Sys.is_open fd st0 = true →
       input st0 = line +:+ nl +:+ rest →
       sh_loop (S n) fd st0 =
         (parse_and_run line;;
          (if fd =? 0 then reap_zombies else mret tt);;
          sh_loop n fd) (line_read fd rest st0)).
Proof.
  intros Hi.
  assert (<[i := None]> (ofile st) !! i = Some None) as Hclosed
    by (by apply list_lookup_insert_eq).
  split; [|split; [|split; [|split; [|split; [|split; [|split]]]]]].
  - intros os Hopens. split; [|done].
    rewrite run_REDIR. unfold mbind at 1, M_bind at 1. rewrite close_of_nat.
    unfold mbind, M_bind, Sys.open. simpl. by rewrite Hopens.
  - intros os Hopens.
    destruct (run_REDIR_lowest c file mode i os st Hi Hopens)
      as (j & Hj & Hbelow & Hfree & Hrun).
    exists j. split; [done|]. split; [done|]. split; [done|]. split; [done|].
    split; [apply list_lookup_insert_eq; rewrite length_insert; lia|].
    split; [intros Hlt; by rewrite list_lookup_insert_ne by lia|].
    intros Hc a st' Hok. rewrite Hrun in Hok.
    by rewrite (run_keeps_ofile c Hc _ _ _ Hok).
  - intros Hbelow os Hopens.
    assert (run (REDIR c file mode (Z.of_nat i)) st
            = run c (set_ofile (<[i := Some (File file mode)]> (ofile st))
                       (set_opens os st))) as Hrun.
    { rewrite run_REDIR. unfold mbind at 1, M_bind at 1. rewrite close_of_nat.
      unfold mbind, M_bind, Sys.open. simpl. rewrite Hopens.
      rewrite (Sys_fdalloc_lowest_after_close (File file mode) (ofile st) i) by done.
      assert ((Z.of_nat i <? 0) = false) as -> by (apply Z.ltb_ge; lia).
      rewrite list_insert_insert_eq. by destruct st. }
    split; [done|]. split; [by apply list_lookup_insert_eq|].
    intros Hc a st' Hok. rewrite Hrun in Hok.
    by rewrite (run_keeps_ofile c Hc _ _ _ Hok).
  - intros c'. apply run_keeps_ofile.
  - apply (keeps_reap_zombies ofile).
  - intros fd. apply keeps_getcmd.
  - apply (keeps_printf ofile).
  - intros n fd line rest st0. apply sh_loop_line.
Qed.

Lemma redirect_persists_in_interpreter_witness :
  let c := EXEC ["cd"; "/"] 0 in
  let mode := Z.lor (Z.lor O_WRONLY O_CREATE) O_TRUNC in
  let st := set_ofile (<[0%nat := None]> (ofile (boot [] [] [] [true] [true] [] "")))
              (boot [] [] [] [true] [true] [] "") in
  (∀ os, opens st = false :: os →
     run (REDIR c "out" mode (Z.of_nat 1)) st
       = Ok tt (emit (Out (Open_failed "out"))
                  (set_opens os (set_ofile (<[1%nat := None]> (ofile st)) st)))
     ∧ <[1%nat := None]> (ofile st) !! 1%nat = Some None)
  ∧ (∀ os, opens st = true :: os →
       ∃ j : nat,
         (j ≤ 1)%nat
         ∧ (∀ k : nat, (k < j)%nat → ∃ g, ofile st !! k = Some (Some g))
         ∧ ((j < 1)%nat → ofile st !! j = Some None)
         ∧ run (REDIR c "out" mode (Z.of_nat 1)) st
           = run c (set_ofile (<[j := Some (File "out" mode)]> (<[1%nat := None]> (ofile st)))
                      (set_opens os st))
         ∧ <[j := Some (File "out" mode)]> (<[1%nat := None]> (ofile st)) !! j
           = Some (Some (File "out" mode))
         ∧ ((j < 1)%nat →
            <[j := Some (File "out" mode)]> (<[1%nat := None]> (ofile st)) !! 1%nat = Some None)
         ∧ (no_redir_outside_pipes c →
            ∀ a st', run (REDIR c "out" mode (Z.of_nat 1)) st = Ok a st' →
                     ofile st' = <[j := Some (File "out" mode)]> (<[1%nat := None]> (ofile st))))
  ∧ ((∀ k : nat, (k < 1)%nat → ∃ g, ofile st !! k = Some (Some g)) →
     ∀ os, opens st = true :: os →
       run (REDIR c "out" mode (Z.of_nat 1)) st
         = run c (set_ofile (<[1%nat := Some (File "out" mode)]> (ofile st)) (set_opens os st))
       ∧ <[1%nat := Some (File "out" mode)]> (ofile st) !! 1%nat = Some (Some (File "out" mode))
       ∧ (no_redir_outside_pipes c →
          ∀ a st', run (REDIR c "out" mode (Z.of_nat 1)) st = Ok a st' →
                   ofile st' = <[1%nat := Some (File "out" mode)]> (ofile st)))
  ∧ (∀ c', no_redir_outside_pipes c' → keeps_ofile (run c'))
  ∧ keeps_ofile reap_zombies
  ∧ (∀ fd, keeps_ofile (getcmd 100 fd))
  ∧ keeps_ofile (printf Prompt)
  ∧ (∀ n fd line rest st0,
       no_lf line = true → (String.length line < 99)%nat →
       Ascii.eqb (first_char line) NUL = false →
       Sys.is_open fd st0 = true →
       input st0 = line +:+ nl +:+ rest →
       sh_loop (S n) fd st0 =
         (parse_and_run line;;
          (if fd =? 0 then reap_zombies else mret tt);;
          sh_loop n fd) (line_read fd rest st0)).
Proof.
  apply (redirect_persists_in_interpreter (EXEC ["cd"; "/"] 0) "out"
           (Z.lor (Z.lor O_WRONLY O_CREATE) O_TRUNC) 1
           (set_ofile (<[0%nat := None]> (ofile (boot [] [] [] [true] [true] [] "")))
              (boot [] [] [] [true] [true] [] ""))).
  simpl. lia.
Defined.

(** C9 as stated fails when a lower descriptor is closed.  In the line
    [cd / < nofile ; cd / > out] the first redirection, whose [open] fails,
    leaves descriptor 0 closed; the second closes descriptor 1, and its
    [open], which succeeds, takes descriptor 0.  Descriptor 1 is closed and
    is not reopened: it is still closed when the session ends. *)
Lemma redirect_lands_on_descriptor_0 :
  Parse.parsecmd (parse_fuel "cd / < nofile ; cd / > out") "cd / < nofile ; cd / > out"
    = Parse.Parsed
        (LIST (REDIR (EXEC ["cd"; "/"] 0) "nofile" O_RDONLY 0)
              (REDIR (EXEC ["cd"; "/"] 0) "out"
                 (Z.lor (Z.lor O_WRONLY O_CREATE) O_TRUNC) 1)) ""
  ∧ parse_and_run "cd / < nofile ; cd / > out" (boot [] [] [] [false; true] [true] [] "")
    = Ok tt (set_ofile
               ([Some (File "out" (Z.lor (Z.lor O_WRONLY O_CREATE) O_TRUNC));
                 None; Some Console] ++ replicate (NOFILE - 3) None)
               (emit (Chdir "/") (emit (Out (Open_failed "nofile"))
                  (boot [] [] [] [] [] [] ""))))
  ∧ main 40 ["sh"] (boot [] [] [] [false; true] [true] []
                      ("cd / < nofile ; cd / > out" +:+ nl))
    = Exited 0
        (set_ofile
           ([Some (File "out" (Z.lor (Z.lor O_WRONLY O_CREATE) O_TRUNC));
             None; Some Console] ++ replicate (NOFILE - 3) None)
           (emit (Out Prompt) (emit (Chdir "/")
              (emit (Out (Open_failed "nofile")) (emit (Out Prompt)
                 (boot [] [] [] [] [] [] "")))))).
Proof. repeat split; vm_compute; reflexivity. Qed.

(** Two interactive sessions.  After [cd / > out] descriptor 1 of the
    interpreter names [out] to the end of the session; after
    [cd / < nofile], whose [open] fails, descriptor 0 stays closed, so the
    next [getcmd] reads nothing and the session ends with [jobs] unread. *)
Example redirect_sessions :
  (∃ st',
     main 5 ["sh"] (boot [] [] [] [true] [true] []
                      ("cd / > out" +:+ nl +:+ "jobs" +:+ nl)) = Exited 0 st'
     ∧ ofile st' !! 1%nat
       = Some (Some (File "out" (Z.lor (Z.lor O_WRONLY O_CREATE) O_TRUNC)))
     ∧ input st' = "")
  ∧ (∃ st',
       main 5 ["sh"] (boot [] [] [] [false] [] []
                        ("cd / < nofile" +:+ nl +:+ "jobs" +:+ nl)) = Exited 0 st'
       ∧ ofile st' !! 0%nat = Some None
       ∧ trace st' = [Out Prompt; Out (Open_failed "nofile"); Out Prompt]
       ∧ input st' = "jobs" +:+ nl).
Proof.
  split; eexists; (split; [vm_compute; reflexivity|]); repeat split.
Qed.

(** ** The parser always ends *)

Section ParserEnds.
Import Parse.
Implicit Types (s rest : string) (c : ascii).

Lemma skip_whitespace_length s :
  (String.length (skip_whitespace s) ≤ String.length s)%nat.
Proof.
  induction s as [|c s IH]; [done|]. rewrite skip_whitespace_cons.
  destruct (strchr whitespace c); simpl; lia.
Qed.

Lemma skip_whitespace_head s c s1 :
  skip_whitespace s = String c s1 → strchr whitespace c = false.
Proof.
  induction s as [|d s IH]; [done|]. rewrite skip_whitespace_cons.
  destruct (strchr whitespace d) eqn:E; [done|]. by intros [= <- _].
Qed.

Lemma scan_word_length s :
  (String.length (scan_word s).2 ≤ String.length s)%nat.
Proof.
  induction s as [|c s IH]; [done|]. rewrite scan_word_cons.
  destruct (strchr whitespace c || strchr symbols c); [done|].
  destruct (scan_word s) as [w r]. simpl in *. lia.
Qed.

(** Every symbol is a token of [gettoken]. *)
Lemma symbols_are_tokens c :
  strchr symbols c = strchr "|();&<" c || Ascii.eqb c ">".
Proof.
  rewrite (Ascii.eqb_sym c ">"). unfold symbols. cbn [strchr].
  destruct (Ascii.eqb "<" c), (Ascii.eqb "|" c), (Ascii.eqb ">" c),
    (Ascii.eqb "&" c), (Ascii.eqb ";" c), (Ascii.eqb "(" c), (Ascii.eqb ")" c);
    reflexivity.
Qed.

(** The second character of [>>] or [>]. *)
Lemma gettoken_gt_length s tok q s' :
  match s with
  | String ">" s2 => Parsed ("+"%char, ">>") (skip_whitespace s2)
  | _ => Parsed (">"%char, ">") (skip_whitespace s)
  end = Parsed (tok, q) s' →
  (String.length s' ≤ String.length s)%nat.
Proof.
  destruct s as [|d s2]; [by intros [= _ _ <-]|].
  pose proof (skip_whitespace_length s2).
  pose proof (skip_whitespace_length (String d s2)). simpl in *.
  destruct d as [[] [] [] [] [] [] [] []]; intros [= _ _ <-]; simpl in *; lia.
Qed.

Lemma gettoken_length s tok q s' :
  gettoken s = Parsed (tok, q) s' →
  (String.length s' ≤ String.length s)%nat.
Proof.
  unfold gettoken. pose proof (skip_whitespace_length s) as Hs.
  destruct (skip_whitespace s) as [|c s1]; [by intros [= _ _ <-]|].
  simpl in Hs.
  destruct (Ascii.eqb c NUL).
  { intros [= _ _ <-].
    pose proof (skip_whitespace_length (String c s1)). simpl in *. lia. }
  destruct (strchr "|();&<" c).
  { intros [= _ _ <-]. pose proof (skip_whitespace_length s1). lia. }
  destruct (Ascii.eqb c ">").
  - intros H. apply gettoken_gt_length in H. lia.
  - pose proof (scan_word_length (String c s1)) as Hw.
    destruct (scan_word (String c s1)) as [w r]. intros [= _ _ <-].
    pose proof (skip_whitespace_length r). simpl in *. lia.
Qed.

(** Where the text goes on with a character other than NUL, a token is
    taken and the cursor moves on. *)
Lemma gettoken_moves s c s1 tok q s' :
  skip_whitespace s = String c s1 → Ascii.eqb c NUL = false →
  gettoken s = Parsed (tok, q) s' →
  (String.length s' < String.length s)%nat ∧ Ascii.eqb tok NUL = false.
Proof.
  intros Hskip Hnul. pose proof (skip_whitespace_length s) as Hs.
  pose proof (skip_whitespace_head s c s1 Hskip) as Hws.
  unfold gettoken. rewrite Hskip in *. rewrite Hnul. simpl in Hs.
  pose proof (symbols_are_tokens c) as Hsym.
  destruct (strchr "|();&<" c) eqn:Htok.
  { intros [= <- _ <-]. pose proof (skip_whitespace_length s1). split; [lia | done]. }
  destruct (Ascii.eqb c ">") eqn:Hgt.
  - intros H. split.
    + apply gettoken_gt_length in H. lia.
    + destruct s1 as [|d s2]; [by injection H as <- _ _|].
      destruct d as [[] [] [] [] [] [] [] []]; by injection H as <- _ _.
  - cbn [orb] in Hsym. rewrite scan_word_cons, Hws, Hsym.
    cbn [orb]. cbv iota.
    pose proof (scan_word_length s1) as Hw.
    destruct (scan_word s1) as [w r]. intros [= <- _ <-].
    pose proof (skip_whitespace_length r). simpl in *. split; [lia | done].
Qed.

Lemma gettoken_after_peek toks s s1 tok q s' :
  peek toks s = Parsed true s1 →
  gettoken s1 = Parsed (tok, q) s' →
  (String.length s' < String.length s)%nat.
Proof.
  unfold peek. pose proof (skip_whitespace_length s) as Hs.
  destruct (skip_whitespace s) as [|c s2] eqn:E; [done|].
  intros [= Hc <-] Htok. apply andb_true_iff in Hc as [Hnul _].
  apply negb_true_iff in Hnul.
  assert (skip_whitespace (String c s2) = String c s2) as Hidem
    by (by rewrite <- E, skip_whitespace_idem).
  destruct (gettoken_moves _ _ _ _ _ _ Hidem Hnul Htok) as [Hlt _]. lia.
Qed.

Lemma gettoken_not_end s tok q s' :
  gettoken s = Parsed (tok, q) s' → Ascii.eqb tok NUL = false →
  (String.length s' < String.length s)%nat.
Proof.
  intros Htok Hnul.
  destruct (skip_whitespace s) as [|c s1] eqn:E.
  - unfold gettoken in Htok. rewrite E in Htok. by injection Htok as <- _ _.
  - destruct (Ascii.eqb c NUL) eqn:Hc.
    + unfold gettoken in Htok. rewrite E, Hc in Htok. by injection Htok as <- _ _.
    + by destruct (gettoken_moves _ _ _ _ _ _ E Hc Htok).
Qed.

Lemma consumes_le {A} s s1 (r : presult A) :
  (String.length s1 ≤ String.length s)%nat → consumes s1 r → consumes s r.
Proof. destruct r; simpl; [lia | done | done]. Qed.

Lemma peek_length toks s b s1 :
  peek toks s = Parsed b s1 → (String.length s1 ≤ String.length s)%nat.
Proof.
  destruct (peek_parsed toks s) as [b' ->]. intros [= _ <-].
  apply skip_whitespace_length.
Qed.

Lemma parseredirs_consumes fuel :
  ∀ ret s, (String.length s < fuel)%nat → consumes s (parseredirs fuel ret s).
Proof.
  induction fuel as [|fuel IH]; intros ret s Hfuel; [lia|]. parse_step.
  destruct (peek "<>" s) as [more s0| |] eqn:Hpeek;
    [|by destruct (peek_parsed "<>" s) as [? E]; rewrite E in Hpeek ..].
  pose proof (peek_length _ _ _ _ Hpeek) as Hs0.
  destruct more; [|done].
  destruct (gettoken_parsed s0) as (tok & q1 & s1 & Ht1). rewrite Ht1.
  pose proof (gettoken_after_peek _ _ _ _ _ _ Hpeek Ht1) as Hs1.
  destruct (gettoken_parsed s1) as (tok2 & q & s2 & Ht2). rewrite Ht2.
  pose proof (gettoken_length _ _ _ _ Ht2) as Hs2.
  destruct (negb (Ascii.eqb tok2 "a")); [done|].
  apply (consumes_le s s2); [lia|]. apply IH. lia.
Qed.

Lemma parse_backs_consumes fuel :
  ∀ cmd s, (String.length s < fuel)%nat → consumes s (parse_backs fuel cmd s).
Proof.
  induction fuel as [|fuel IH]; intros cmd s Hfuel; [lia|]. parse_step.
  destruct (peek "&" s) as [more s0| |] eqn:Hpeek;
    [|by destruct (peek_parsed "&" s) as [? E]; rewrite E in Hpeek ..].
  pose proof (peek_length _ _ _ _ Hpeek) as Hs0.
  destruct more; [|done].
  destruct (gettoken_parsed s0) as (tok & q1 & s1 & Ht1). rewrite Ht1.
  pose proof (gettoken_after_peek _ _ _ _ _ _ Hpeek Ht1) as Hs1.
  apply (consumes_le s s1); [lia|]. apply IH. lia.
Qed.

Lemma parseexec_args_consumes fuel :
  ∀ ret argv s,
    (String.length s < fuel)%nat → consumes s (parseexec_args fuel ret argv s).
Proof.
  induction fuel as [|fuel IH]; intros ret argv s Hfuel; [lia|]. parse_step.
  destruct (peek "|)&;" s) as [stop s0| |] eqn:Hpeek;
    [|by destruct (peek_parsed "|)&;" s) as [? E]; rewrite E in Hpeek ..].
  pose proof (peek_length _ _ _ _ Hpeek) as Hs0.
  destruct stop; [done|].
  destruct (gettoken_parsed s0) as (tok & q & s1 & Ht1). rewrite Ht1.
  pose proof (gettoken_length _ _ _ _ Ht1) as Hs1.
  destruct (Ascii.eqb tok NUL) eqn:Hnul; [simpl; lia|].
  pose proof (gettoken_not_end _ _ _ _ Ht1 Hnul) as Hlt.
  destruct (negb (Ascii.eqb tok "a")); [done|].
  destruct (MAXARGS <=? length (argv ++ [q]))%nat; [done|].
  pose proof (parseredirs_consumes fuel ret s1) as Hredir.
  destruct (parseredirs fuel ret s1) as [ret' s2| |]; [|done|apply Hredir; lia].
  assert (String.length s2 ≤ String.length s1)%nat as Hs2 by (apply Hredir; lia).
  apply (consumes_le s s2); [lia|]. apply IH. lia.
Qed.

(** Four units of fuel per character and four more are enough for any
    line: no production is entered more than once before a character is
    consumed. *)
Lemma parse_consumes fuel :
  (∀ s, (4 * String.length s + 4 ≤ fuel)%nat → consumes s (parseline fuel s))
  ∧ (∀ s, (4 * String.length s + 3 ≤ fuel)%nat → consumes s (parsepipe fuel s))
  ∧ (∀ s, (4 * String.length s + 2 ≤ fuel)%nat → consumes s (parseexec fuel s))
  ∧ (∀ s, (4 * String.length s + 1 ≤ fuel)%nat → consumes s (parseblock fuel s)).
Proof.
  induction fuel as [|fuel (IHline & IHpipe & IHexec & IHblock)];
    [repeat split; intros; lia|].
  repeat split; intros s Hfuel; parse_step.
  - pose proof (IHpipe s) as Hpipe.
    destruct (parsepipe fuel s) as [c1 s1| |]; [|done|apply Hpipe; lia].
    assert (String.length s1 ≤ String.length s)%nat as Hs1 by (apply Hpipe; lia).
    pose proof (parse_backs_consumes fuel c1 s1) as Hbacks.
    destruct (parse_backs fuel c1 s1) as [c2 s2| |]; [|done|apply Hbacks; lia].
    assert (String.length s2 ≤ String.length s1)%nat as Hs2 by (apply Hbacks; lia).
    destruct (peek ";" s2) as [more s3| |] eqn:Hpeek;
      [|by destruct (peek_parsed ";" s2) as [? E]; rewrite E in Hpeek ..].
    pose proof (peek_length _ _ _ _ Hpeek) as Hs3.
    destruct more; [|simpl; lia].
    destruct (gettoken_parsed s3) as (tok & q & s4 & Ht). rewrite Ht.
    pose proof (gettoken_after_peek _ _ _ _ _ _ Hpeek Ht) as Hs4.
    pose proof (IHline s4) as Hline.
    destruct (parseline fuel s4) as [c3 s5| |]; [|done|apply Hline; lia].
    assert (String.length s5 ≤ String.length s4)%nat by (apply Hline; lia).
    simpl. lia.
  - pose proof (IHexec s) as Hexec.
    destruct (parseexec fuel s) as [c1 s1| |]; [|done|apply Hexec; lia].
    assert (String.length s1 ≤ String.length s)%nat as Hs1 by (apply Hexec; lia).
    destruct (peek "|" s1) as [more s3| |] eqn:Hpeek;
      [|by destruct (peek_parsed "|" s1) as [? E]; rewrite E in Hpeek ..].
    pose proof (peek_length _ _ _ _ Hpeek) as Hs3.
    destruct more; [|simpl; lia].
    destruct (gettoken_parsed s3) as (tok & q & s4 & Ht). rewrite Ht.
    pose proof (gettoken_after_peek _ _ _ _ _ _ Hpeek Ht) as Hs4.
    pose proof (IHpipe s4) as Hpipe.
    destruct (parsepipe fuel s4) as [c3 s5| |]; [|done|apply Hpipe; lia].
    assert (String.length s5 ≤ String.length s4)%nat by (apply Hpipe; lia).
    simpl. lia.
  - destruct (peek "(" s) as [block s0| |] eqn:Hpeek;
      [|by destruct (peek_parsed "(" s) as [? E]; rewrite E in Hpeek ..].
    pose proof (peek_length _ _ _ _ Hpeek) as Hs0.
    destruct block.
    + apply (consumes_le s s0); [done|]. apply IHblock. lia.
    + pose proof (parseredirs_consumes fuel execcmd s0) as Hredir.
      destruct (parseredirs fuel execcmd s0) as [ret s1| |];
        [|done|apply Hredir; lia].
      assert (String.length s1 ≤ String.length s0)%nat as Hs1 by (apply Hredir; lia).
      pose proof (parseexec_args_consumes fuel ret [] s1) as Hargs.
      destruct (parseexec_args fuel ret [] s1) as [[ret' argv] s2| |];
        [|done|apply Hargs; lia].
      assert (String.length s2 ≤ String.length s1)%nat by (apply Hargs; lia).
      simpl. lia.
  - destruct (peek "(" s) as [open s0| |] eqn:Hpeek;
      [|by destruct (peek_parsed "(" s) as [? E]; rewrite E in Hpeek ..].
    pose proof (peek_length _ _ _ _ Hpeek) as Hs0.
    destruct open; [|done]. cbn [negb]. cbv iota.
    destruct (gettoken_parsed s0) as (tok & q & s1 & Ht). rewrite Ht.
    pose proof (gettoken_after_peek _ _ _ _ _ _ Hpeek Ht) as Hs1.
    pose proof (IHline s1) as Hline.
    destruct (parseline fuel s1) as [c1 s2| |]; [|done|apply Hline; lia].
    assert (String.length s2 ≤ String.length s1)%nat as Hs2 by (apply Hline; lia).
    destruct (peek ")" s2) as [close s3| |] eqn:Hpeek2;
      [|by destruct (peek_parsed ")" s2) as [? E]; rewrite E in Hpeek2 ..].
    pose proof (peek_length _ _ _ _ Hpeek2) as Hs3.
    destruct close; [|done]. cbn [negb]. cbv iota.
    destruct (gettoken_parsed s3) as (tok' & q' & s4 & Ht'). rewrite Ht'.
    pose proof (gettoken_length _ _ _ _ Ht') as Hs4.
    apply (consumes_le s s4); [lia|]. apply parseredirs_consumes. lia.
Qed.

Lemma c_string_length buf : (String.length (c_string buf) ≤ String.length buf)%nat.
Proof.
  induction buf as [|c buf IH]; [done|]. cbn [c_string].
  destruct (Ascii.eqb c NUL); simpl; lia.
Qed.

(** [parsecmd] ends on every buffer with the fuel [main] gives it. *)
Lemma parsecmd_ends buf : consumes buf (parsecmd (parse_fuel buf) buf).
Proof.
  unfold parsecmd. unfold mbind, P_bind, mret, P_ret.
  pose proof (c_string_length buf) as Hlen.
  pose proof (proj1 (parse_consumes (parse_fuel buf)) (c_string buf)) as Hline.
  destruct (parseline (parse_fuel buf) (c_string buf)) as [cmd s1| |];
    [|done|apply Hline; unfold parse_fuel; lia].
  destruct (peek_parsed "" s1) as [b ->].
  destruct (skip_whitespace s1); simpl; [lia | done].
Qed.

End ParserEnds.

(** ** The session always ends *)

Section SessionEnds.

Lemma keeps_input_close fd : keeps input (Sys.close fd).
Proof.
  intros st a st' [= _ <-]. by destruct (fd <? 0).
Qed.

Lemma keeps_input_open path mode : keeps input (Sys.open path mode).
Proof.
  intros st rc st'. unfold Sys.open.
  destruct (opens st) as [|[] rest]; simpl; try (by intros [= _ <-]).
  destruct (Sys.fdalloc _ _) as [[i tbl]|]; by intros [= _ <-].
Qed.

Lemma keeps_input_dup fd : keeps input (Sys.dup fd).
Proof.
  intros st rc st'. unfold Sys.dup.
  destruct (fd <? 0); [by intros [= _ <-]|].
  destruct (ofile st !! Sys.fd_index fd) as [[f|]|]; try (by intros [= _ <-]).
  destruct (Sys.fdalloc _ _) as [[i tbl]|]; by intros [= _ <-].
Qed.

Lemma keeps_input_pipe : keeps input Sys.pipe.
Proof.
  intros st rc st'. unfold Sys.pipe.
  destruct (Sys.fdalloc PipeRead _) as [[i0 tbl0]|]; [|by intros [= _ <-]].
  destruct (Sys.fdalloc PipeWrite _) as [[i1 tbl1]|]; by intros [= _ <-].
Qed.

Ltac keeps_input_tac IH :=
  repeat first
    [ apply IH
    | apply keeps_input_close | apply keeps_input_open
    | apply keeps_input_dup | apply keeps_input_pipe
    | apply keeps_ret | apply keeps_printf; tc_solve | apply keeps_panic
    | apply keeps_add_job_m; tc_solve | apply keeps_fork1; tc_solve
    | apply keeps_chdir; tc_solve
    | apply keeps_exec; tc_solve | apply keeps_print_jobs; tc_solve
    | apply keeps_wait_for_foreground; tc_solve
    | apply no_return_keeps, no_return_exit
    | apply keeps_bind; [|intros]
    | match goal with
      | |- keeps _ (if ?b then _ else _) => destruct b
      | |- keeps _ (let '(_, _) := ?x in _) => destruct x
      | |- keeps _ (match ?x with _ => _ end) => destruct x
      end ].

(** No command reads the input of the interpreter. *)
Lemma runcmd_keeps_input n : ∀ c, keeps input (runcmd n c).
Proof.
  induction n as [|n IH]; intros c; [done|].
  destruct c as [argv back|c file mode fd|l r|l r|c]; simpl;
    keeps_input_tac IH.
Qed.

Lemma parse_and_run_keeps_input buf : keeps input (parse_and_run buf).
Proof.
  unfold parse_and_run.
  destruct (Parse.parsecmd (parse_fuel buf) buf) as [cmd rest|out|]; [| |done].
  - apply runcmd_keeps_input.
  - apply no_return_keeps, no_return_bind. intros. apply no_return_exit.
Qed.

Lemma parse_and_run_ends buf : ends (parse_and_run buf).
Proof.
  unfold parse_and_run. pose proof (parsecmd_ends buf) as Hparse.
  destruct (Parse.parsecmd (parse_fuel buf) buf) as [cmd rest|out|]; [| |done].
  - apply run_ends.
  - apply ends_bind; [done | intros; apply ends_exit].
Qed.

(** What [getcmd] stores it has read. *)
Lemma getcmd_fill_reads fd room :
  ∀ first st, ∃ r st',
    getcmd_fill room first fd st = Ok r st'
    ∧ (String.length (input st')
       + match r with Some buf => String.length buf | None => 0 end
       ≤ String.length (input st))%nat.
Proof.
  induction room as [|room IH]; intros first st; simpl.
  - exists (Some EmptyString), st. split; [done | simpl; lia].
  - unfold mbind at 1, M_bind at 1, Sys.read1.
    destruct (Sys.is_open fd st).
    + destruct (input st) as [|c rest] eqn:Hin.
      * destruct first; eexists _, st; (split; [done | simpl; rewrite Hin; simpl; lia]).
      * destruct (Ascii.eqb c LF).
        { eexists _, _. split; [done | simpl; lia]. }
        destruct (IH false (set_input rest st)) as (r & st' & Hfill & Hlen).
        unfold mbind, M_bind. rewrite Hfill.
        eexists _, st'. split; [done|]. simpl in *.
        destruct r as [buf|]; simpl; lia.
    + destruct first; eexists _, st; (split; [done | simpl; lia]).
Qed.

Lemma getcmd_reads fd st :
  ∃ rc buf st',
    getcmd 100 fd st = Ok (rc, buf) st'
    ∧ (String.length (input st') ≤ String.length (input st))%nat
    ∧ ((rc <? 0) = false →
       (String.length (input st') < String.length (input st))%nat).
Proof.
  unfold getcmd. unfold mbind, M_bind.
  destruct (getcmd_fill_reads fd (100 - 1) true st) as (r & st' & -> & Hlen).
  destruct r as [buf|]; [|by eexists _, _, st'; repeat split; [lia|]].
  destruct buf as [|c buf]; simpl in *.
  - eexists _, _, st'. repeat split; [lia | done].
  - destruct (Ascii.eqb c NUL); eexists _, _, st'; repeat split; try done; lia.
Qed.

(** A unit of fuel per byte of input and one more are enough for the loop
    of [main]: every line taken up has been read. *)
Lemma sh_loop_ends n :
  ∀ fd st, (String.length (input st) < n)%nat → sh_loop n fd st ≠ OutOfFuel.
Proof.
  induction n as [|n IH]; intros fd st Hn; [lia|]. cbn [sh_loop].
  unfold mbind at 1 2, M_bind at 1 2.
  assert (∃ st1, (if fd =? 0 then printf Prompt else mret ()) st = Ok tt st1
                 ∧ input st1 = input st) as (st1 & -> & Hin1)
    by (destruct (fd =? 0); by eexists).
  destruct (getcmd_reads fd st1) as (rc & buf & st2 & -> & Hle & Hlt).
  rewrite Hin1 in Hle, Hlt. cbv beta iota. destruct (rc <? 0) eqn:Hrc; [done|].
  specialize (Hlt eq_refl).
  destruct (_ || _).
  { apply IH. lia. }
  unfold mbind at 1, M_bind at 1.
  pose proof (parse_and_run_ends buf st2) as Hends.
  destruct (parse_and_run buf st2) as [[] st3| | |] eqn:Hrun; try done.
  apply parse_and_run_keeps_input in Hrun.
  unfold mbind at 1, M_bind at 1.
  assert (ends (if fd =? 0 then reap_zombies else mret ())) as Hreap
    by (destruct (fd =? 0); [apply ends_reap_zombies | apply ends_ret]).
  assert (keeps input (if fd =? 0 then reap_zombies else mret ())) as Hkeep
    by (destruct (fd =? 0); [apply keeps_reap_zombies; tc_solve | apply keeps_ret]).
  specialize (Hreap st3).
  destruct ((if fd =? 0 then reap_zombies else mret ()) st3) as [[] st4| | |] eqn:Hz;
    try done.
  apply Hkeep in Hz. apply IH. rewrite Hz, Hrun. lia.
Qed.

(** [main] ends on every input. *)
Lemma main_ends n argv st :
  (String.length (input st) < n)%nat → main n argv st ≠ OutOfFuel.
Proof.
  intros Hn. unfold main. unfold mbind at 1, M_bind at 1, modify.
  unfold mbind at 1, M_bind at 1.
  set (st0 := set_bg_jobs (replicate NPROC 0) st).
  assert (∃ r, match argv with
               | _ :: script :: _ =>
                   fd ← Sys.open script O_RDONLY;
                   if fd <? 0 then (printf (Cannot_open_script script);; exit 1;; mret fd)
                   else mret fd
               | _ => mret 0
               end st0 = r
               ∧ match r with
                 | Ok _ st1 => input st1 = input st
                 | OutOfFuel => False
                 | _ => True
                 end) as (r & -> & Hr).
  { destruct argv as [|name [|script more]]; [by eexists | by eexists |].
    unfold mbind, M_bind.
    destruct (Sys.open script O_RDONLY st0) as [fd st1| | |] eqn:Hopen.
    - apply keeps_input_open in Hopen.
      destruct (fd <? 0); by eexists.
    - eexists. split; [reflexivity | exact I].
    - eexists. split; [reflexivity | exact I].
    - by pose proof (ends_open script O_RDONLY st0). }
  destruct r as [fd st1| | |]; try done.
  unfold mbind, M_bind.
  pose proof (sh_loop_ends n fd st1) as Hloop.
  rewrite Hr in Hloop. specialize (Hloop Hn).
  by destruct (sh_loop n fd st1).
Qed.

End SessionEnds.

(** * Further properties of the code *)

(** ** The job table: round trips and missing pids *)

Section JobTableMore.
Implicit Types (pid q j : Z) (jobs : list Z).

Lemma is_bg_job_add_other q pid jobs :
  q ≠ 0 → q ≠ pid → is_bg_job q (add_job pid jobs) = is_bg_job q jobs.
Proof.
  intros Hq Hne. induction jobs as [|j rest IH]; [done|].
  cbn [add_job is_bg_job].
  destruct (Z.eqb_spec j 0) as [->|Hj]; cbn [is_bg_job].
  - destruct (Z.eqb_spec pid q); [congruence|].
    destruct (Z.eqb_spec 0 q); [congruence | done].
  - by destruct (j =? q).
Qed.

Lemma is_bg_job_remove_other q pid jobs :
  q ≠ 0 → q ≠ pid → is_bg_job q (remove_job pid jobs) = is_bg_job q jobs.
Proof.
  intros Hq Hne. induction jobs as [|j rest IH]; [done|].
  cbn [remove_job is_bg_job].
  destruct (Z.eqb_spec j pid) as [->|Hj]; cbn [is_bg_job].
  - destruct (Z.eqb_spec 0 q); [congruence|].
    destruct (Z.eqb_spec pid q); [congruence | done].
  - by destruct (j =? q).
Qed.

Lemma occurrences_add_other q pid jobs :
  q ≠ 0 → q ≠ pid → occurrences q (add_job pid jobs) = occurrences q jobs.
Proof.
  intros Hq Hne. induction jobs as [|j rest IH]; [done|]. cbn [add_job].
  destruct (Z.eqb_spec j 0) as [->|Hj]; rewrite !occurrences_cons.
  - destruct (decide (pid = q)), (decide (0 = q)); congruence.
  - by rewrite IH.
Qed.

Lemma remove_job_absent pid jobs : pid ∉ jobs → remove_job pid jobs = jobs.
Proof.
  induction jobs as [|j rest IH]; simpl; intros Hin; [done|].
  apply not_elem_of_cons in Hin as [Hj Hrest].
  destruct (Z.eqb_spec j pid); [congruence|]. by rewrite IH.
Qed.

(** The slot cleared is the first that holds [pid]; what comes after it
    is not looked at. *)
Lemma remove_job_first pid pre post :
  pid ∉ pre → remove_job pid (pre ++ pid :: post) = pre ++ 0 :: post.
Proof.
  induction pre as [|j pre IH]; simpl; intros Hin.
  - by rewrite Z.eqb_refl.
  - apply not_elem_of_cons in Hin as [Hj Hpre].
    destruct (Z.eqb_spec j pid); [congruence|]. by rewrite IH.
Qed.

End JobTableMore.

(** X1.  A pid that is not in the table and is recorded by [add_job] is
    found by [is_bg_job] when the table had a free slot, and [remove_job]
    of it gives back the table as it was before, slot for slot. *)
Theorem add_job_round_trip pid jobs :
  pid ∉ jobs →
  remove_job pid (add_job pid jobs) = jobs
  ∧ (0 ∈ jobs → is_bg_job pid (add_job pid jobs) = 1).
Proof.
  intros Hin. split.
  - induction jobs as [|j rest IH]; simpl; [done|].
    apply not_elem_of_cons in Hin as [Hj Hrest].
    destruct (Z.eqb_spec j 0) as [->|Hj0]; simpl.
    + by rewrite Z.eqb_refl.
    + destruct (Z.eqb_spec j pid); [congruence|]. by rewrite IH.
  - intros Hfree. induction jobs as [|j rest IH]; simpl.
    + by apply elem_of_nil in Hfree.
    + apply not_elem_of_cons in Hin as [Hj Hrest].
      destruct (Z.eqb_spec j 0) as [->|Hj0]; simpl.
      * by rewrite Z.eqb_refl.
      * destruct (Z.eqb_spec j pid); [done|].
        apply IH; [done|]. apply elem_of_cons in Hfree as [?|?]; [congruence | done].
Qed.

Lemma add_job_round_trip_witness :
  let jobs := [4; 0; 9; 0] in
  remove_job 7 (add_job 7 jobs) = jobs
  ∧ (0 ∈ jobs → is_bg_job 7 (add_job 7 jobs) = 1).
Proof.
  apply (add_job_round_trip 7 [4; 0; 9; 0]).
  apply (bool_decide_unpack _). vm_compute. exact I.
Defined.

(** X2.  Recording or removing one pid changes nothing for any other pid:
    the slots that hold another pid [q] (other than 0, the mark of a free
    slot) stay as many, and [is_bg_job q] answers as before. *)
Theorem job_table_other_pids q pid jobs :
  q ≠ 0 → q ≠ pid →
  occurrences q (add_job pid jobs) = occurrences q jobs
  ∧ occurrences q (remove_job pid jobs) = occurrences q jobs
  ∧ is_bg_job q (add_job pid jobs) = is_bg_job q jobs
  ∧ is_bg_job q (remove_job pid jobs) = is_bg_job q jobs.
Proof.
  intros Hq Hne. split; [by apply occurrences_add_other|].
  split; [by apply occurrences_remove_other|].
  split; [by apply is_bg_job_add_other | by apply is_bg_job_remove_other].
Qed.

Lemma job_table_other_pids_witness :
  let jobs := [4; 0; 9; 0] in
  occurrences 9 (add_job 7 jobs) = occurrences 9 jobs
  ∧ occurrences 9 (remove_job 7 jobs) = occurrences 9 jobs
  ∧ is_bg_job 9 (add_job 7 jobs) = is_bg_job 9 jobs
  ∧ is_bg_job 9 (remove_job 7 jobs) = is_bg_job 9 jobs.
Proof. apply (job_table_other_pids 9 7 [4; 0; 9; 0]); lia. Defined.

(** X3.  [remove_job] of a pid that no slot holds leaves the table as it
    is, and so do [remove_job] and [add_job] of 0, which marks a free slot.
    Of the slots that hold [pid], [remove_job] clears the first and no
    other: the slots before it and the slots after it, those holding [pid]
    among them, are as they were.  So a pid held by one slot is no longer
    found once it is removed, while one held by several slots is still
    found. *)
Theorem remove_job_missing_pid pid jobs :
  (pid ∉ jobs → remove_job pid jobs = jobs)
  ∧ remove_job 0 jobs = jobs
  ∧ add_job 0 jobs = jobs
  ∧ (∀ pre post,
       jobs = pre ++ pid :: post → pid ∉ pre →
       remove_job pid jobs = pre ++ 0 :: post)
  ∧ (pid ≠ 0 → occurrences pid jobs = 1%nat →
     is_bg_job pid (remove_job pid jobs) = 0)
  ∧ (pid ≠ 0 → (1 < occurrences pid jobs)%nat →
     is_bg_job pid (remove_job pid jobs) = 1).
Proof.
  split; [apply remove_job_absent|].
  split; [|split; [|split; [|split]]].
  - induction jobs as [|j rest IH]; simpl; [done|].
    destruct (Z.eqb_spec j 0) as [->|]; [done | by rewrite IH].
  - induction jobs as [|j rest IH]; simpl; [done|].
    destruct (Z.eqb_spec j 0) as [->|]; [done | by rewrite IH].
  - intros pre post -> Hpre. by apply remove_job_first.
  - intros Hp Hone. apply is_bg_job_not_elem.
    intros Hin. apply occurrences_pos_elem in Hin.
    rewrite occurrences_remove_same in Hin by done. lia.
  - intros Hp Hmany. apply is_bg_job_elem, occurrences_pos_elem.
    rewrite occurrences_remove_same by done. lia.
Qed.

(** ** The built-in commands *)

Section Builtins.
Implicit Types (args : list string) (back : Z) (st : proc).

Lemma print_jobs_from_spec jobs :
  ∀ st, print_jobs_from jobs st
        = Ok tt (foldl (λ s e, emit e s) st (job_lines jobs)).
Proof.
  unfold job_lines.
  induction jobs as [|j rest IH]; intros st; [done|].
  cbn [print_jobs_from List.filter]. unfold mbind, M_bind.
  destruct (nonzero j); cbn [fmap list_fmap foldl]; run_step; apply IH.
Qed.

Lemma trace_foldl_emit evs : ∀ st, trace (foldl (λ s e, emit e s) st evs) = trace st ++ evs.
Proof.
  induction evs as [|e evs IH]; intros st; simpl; [by rewrite app_nil_r|].
  rewrite IH. simpl. by rewrite <- app_assoc.
Qed.

End Builtins.

(** X4.  The built-in [jobs] runs in the interpreter itself: it writes one
    line per slot of the table that is not 0, in the order of the slots,
    and nothing else; its arguments and the background flag are ignored, no
    process is created and the table stays as it is. *)
Theorem jobs_builtin_lists_table args back st :
  run (EXEC ("jobs" :: args) back) st
    = Ok tt (foldl (λ s e, emit e s) st (job_lines (bg_jobs st)))
  ∧ trace (foldl (λ s e, emit e s) st (job_lines (bg_jobs st)))
    = trace st ++ job_lines (bg_jobs st)
  ∧ bg_jobs (foldl (λ s e, emit e s) st (job_lines (bg_jobs st))) = bg_jobs st
  ∧ forks (foldl (λ s e, emit e s) st (job_lines (bg_jobs st))) = forks st
  ∧ job_lines (replicate NPROC 0) = [].
Proof.
  split; [|split; [|split; [|split]]].
  - unfold run. cbn [cmd_depth runcmd]. change ("jobs" =? "cd")%string with false.
    change ("jobs" =? "jobs")%string with true. cbv iota.
    unfold print_jobs. apply print_jobs_from_spec.
  - apply trace_foldl_emit.
  - generalize (job_lines (bg_jobs st)). intros evs. revert st.
    induction evs as [|e evs IH]; intros st; simpl; [done|]. by rewrite IH.
  - generalize (job_lines (bg_jobs st)). intros evs. revert st.
    induction evs as [|e evs IH]; intros st; simpl; [done|]. by rewrite IH.
  - vm_compute. reflexivity.
Qed.

(** X5.  The built-in [cd] runs in the interpreter itself and always
    returns to it.  Without an argument it writes "cannot cd " and calls
    nothing; with arguments it hands the first one to [chdir] and writes
    "cannot cd" with that name when [chdir] fails.  In no case is a process
    created or a job recorded, and a trailing [&] changes nothing: the
    [BACK] node runs as the command alone. *)
Theorem cd_builtin_in_interpreter (dir : string) more back st :
  run (EXEC ["cd"] back) st = Ok tt (emit (Out (Cannot_cd "")) st)
  ∧ (∀ cs, chdirs st = true :: cs →
       run (EXEC ("cd" :: dir :: more) back) st
         = Ok tt (emit (Chdir dir) (set_chdirs cs st)))
  ∧ (∀ cs, chdirs st = false :: cs →
       run (EXEC ("cd" :: dir :: more) back) st
         = Ok tt (emit (Out (Cannot_cd dir)) (set_chdirs cs st)))
  ∧ (∀ args, ∃ st',
       run (EXEC ("cd" :: args) back) st = Ok tt st'
       ∧ forks st' = forks st ∧ bg_jobs st' = bg_jobs st
       ∧ count_forks (trace st') = count_forks (trace st))
  ∧ (∀ args, run (BACK (EXEC ("cd" :: args) back)) st
             = run (EXEC ("cd" :: args) 0) st).
Proof.
  assert (∀ args b, run (EXEC ("cd" :: args) b) st
     = match args with
       | [] => printf (Cannot_cd "")
       | argv1 :: _ =>
           rc ← Sys.chdir argv1;
           if rc <? 0 then printf (Cannot_cd argv1) else mret tt
       end st) as Hrun by (by intros [|a args] b).
  split; [by rewrite Hrun|].
  split; [|split; [|split]].
  - intros cs Hcs. rewrite Hrun. unfold Sys.chdir. run_step. by rewrite Hcs.
  - intros cs Hcs. rewrite Hrun. unfold Sys.chdir. run_step. by rewrite Hcs.
  - intros args. rewrite Hrun. destruct args as [|a args].
    + eexists. split; [reflexivity|]. simpl. repeat split.
      unfold count_forks. rewrite List.filter_app. simpl. by rewrite app_nil_r.
    + unfold Sys.chdir. run_step.
      destruct (chdirs st) as [|[] cs]; simpl;
        (eexists; split; [reflexivity|]); simpl; repeat split;
        unfold count_forks; rewrite ?List.filter_app; simpl; by rewrite ?app_nil_r.
  - intros args. rewrite run_BACK. cbn [mark_background]. by rewrite !Hrun.
Qed.

(** ** The two reaping loops *)

Section ReapingLoops.
Implicit Types (pid status F B : Z) (st : proc).

(** What reaping [p] does to the notices and to the table, for one pid
    [B] that is followed. *)
Lemma reap_background_job_counts p s st :
  ∃ st' new,
    reap_background_job p s st = Ok tt st'
    ∧ trace st' = trace st ++ new
    ∧ waits st' = waits st ∧ zombies st' = zombies st
    ∧ Forall (λ e, e = Out (Bg_exited p s)) new
    ∧ ∀ B, B ≠ 0 →
        count_notices B new
          = Nat.min (if decide (p = B) then 1 else 0) (occurrences B (bg_jobs st))
        ∧ occurrences B (bg_jobs st')
          = Nat.sub (occurrences B (bg_jobs st))
              (Nat.min (if decide (p = B) then 1 else 0) (occurrences B (bg_jobs st))).
Proof.
  destruct (decide (p ∈ bg_jobs st)) as [Hin|Hin].
  - rewrite reap_background_job_tracked by done.
    eexists _, [Out (Bg_exited p s)]. split; [done|]. simpl.
    split; [done|]. split; [done|]. split; [done|].
    split; [by repeat constructor|].
    intros B HB. apply occurrences_pos_elem in Hin.
    destruct (decide (p = B)) as [<-|HpB].
    + rewrite count_notices_cons_same, occurrences_remove_same by done.
      unfold count_notices. cbn [List.filter length].
      destruct (occurrences p (bg_jobs st)); simpl; lia.
    + rewrite count_notices_cons_other, occurrences_remove_other by done.
      unfold count_notices. cbn [List.filter length]. lia.
  - rewrite reap_background_job_untracked by done.
    exists st, []. split; [done|]. rewrite app_nil_r.
    split; [done|]. split; [done|]. split; [done|]. split; [done|].
    intros B HB. destruct (decide (p = B)) as [<-|HpB].
    + assert (occurrences p (bg_jobs st) = 0%nat) as ->.
      { destruct (occurrences p (bg_jobs st)) eqn:E; [done|].
        exfalso. apply Hin, occurrences_pos_elem. lia. }
      done.
    + unfold count_notices. cbn [List.filter length]. lia.
Qed.

Lemma count_notices_app B tr1 tr2 :
  count_notices B (tr1 ++ tr2) = (count_notices B tr1 + count_notices B tr2)%nat.
Proof. unfold count_notices. by rewrite List.filter_app, length_app. Qed.

(** The loop of [reap_zombies] over the children [pre] that are ready. *)
Lemma reap_zombies_from_spec post :
  no_child post →
  ∀ pre st,
    Forall (λ w : Z * Z, 0 < w.1) pre →
    zombies st = pre ++ post →
    ∃ st' new,
      reap_zombies_from (pre ++ post) st = Ok tt st'
      ∧ zombies st' = tail post
      ∧ waits st' = waits st
      ∧ trace st' = trace st ++ new
      ∧ Forall (λ e, ∃ p s, e = Out (Bg_exited p s) ∧ (p, s) ∈ pre) new
      ∧ ∀ B, B ≠ 0 →
          count_notices B new
            = Nat.min (occurrences B (pre.*1)) (occurrences B (bg_jobs st))
          ∧ occurrences B (bg_jobs st')
            = Nat.sub (occurrences B (bg_jobs st))
                (Nat.min (occurrences B (pre.*1)) (occurrences B (bg_jobs st))).
Proof.
  intros Hpost. induction pre as [|[p s] pre IH]; intros st Hpre Hst.
  - destruct post as [|[q sq] post]; simpl.
    + exists st, []. rewrite app_nil_r.
      repeat split; try done; unfold occurrences; simpl; lia.
    + simpl in Hpost. run_step.
      assert ((0 <? q) = false) as -> by lia.
      exists (set_zombies post st), []. simpl. rewrite app_nil_r.
      repeat split; try done; unfold occurrences; simpl; lia.
  - apply Forall_cons in Hpre as [Hp Hpre]. simpl in Hp.
    cbn [app reap_zombies_from]. unfold mbind at 1, M_bind at 1, modify.
    assert ((0 <? p) = true) as -> by lia.
    unfold mbind at 1, M_bind at 1.
    destruct (reap_background_job_counts p s (set_zombies (pre ++ post) st))
      as (st1 & new1 & -> & Htr1 & Hw1 & Hz1 & Hnew1 & Hcount1).
    destruct (IH st1 Hpre Hz1) as (st' & new & Hrun & Hz & Hw & Htr & Hnew & Hcount).
    exists st', (new1 ++ new). split; [done|]. split; [done|].
    split; [by rewrite Hw, Hw1|].
    split; [by rewrite Htr, Htr1, <- app_assoc|].
    split.
    { apply Forall_app. split.
      - eapply Forall_impl; [exact Hnew1|]. intros e ->.
        exists p, s. split; [done | apply list_elem_of_here].
      - eapply Forall_impl; [exact Hnew|].
        intros e (p' & s' & -> & Hin'). exists p', s'. split; [done|].
        by apply list_elem_of_further. }
    intros B HB. destruct (Hcount B HB) as [Hc Ho].
    destruct (Hcount1 B HB) as [Hc1 Ho1]. simpl in Hc1, Ho1.
    rewrite count_notices_app, Hc, Hc1, Ho, Ho1.
    rewrite ?fmap_cons, occurrences_cons; simpl fst.
    change (list_fmap (Z * Z)%type Z fst pre) with (pre.*1).
    destruct (decide (p = B)); lia.
Qed.

(** The loop of [wait_for_foreground] when [wait] never returns [F]. *)
Lemma wait_for_foreground_from_absent F post :
  no_child post →
  ∀ pre st,
    Forall (λ w : Z * Z, 0 < w.1 ∧ w.1 ≠ F) pre →
    waits st = pre ++ post →
    ∃ st' new,
      wait_for_foreground_from F (pre ++ post) st = Ok tt st'
      ∧ waits st' = tail post
      ∧ trace st' = trace st ++ new
      ∧ Forall (λ e, ∃ p s, e = Out (Bg_exited p s) ∧ (p, s) ∈ pre) new
      ∧ ∀ B, B ≠ 0 →
          count_notices B new
            = Nat.min (occurrences B (pre.*1)) (occurrences B (bg_jobs st))
          ∧ occurrences B (bg_jobs st')
            = Nat.sub (occurrences B (bg_jobs st))
                (Nat.min (occurrences B (pre.*1)) (occurrences B (bg_jobs st))).
Proof.
  intros Hpost. induction pre as [|[p s] pre IH]; intros st Hpre Hst.
  - destruct post as [|[q sq] post]; simpl.
    + exists st, []. rewrite app_nil_r.
      repeat split; try done; unfold occurrences; simpl; lia.
    + simpl in Hpost. run_step.
      assert ((0 <? q) = false) as -> by lia.
      exists (set_waits post st), []. simpl. rewrite app_nil_r.
      repeat split; try done; unfold occurrences; simpl; lia.
  - apply Forall_cons in Hpre as [[Hp HpF] Hpre]. simpl in Hp, HpF.
    cbn [app wait_for_foreground_from]. unfold mbind at 1, M_bind at 1, modify.
    assert ((0 <? p) = true) as -> by lia.
    destruct (Z.eqb_spec p F) as [|_]; [done|].
    unfold mbind at 1, M_bind at 1.
    destruct (reap_background_job_counts p s (set_waits (pre ++ post) st))
      as (st1 & new1 & -> & Htr1 & Hw1 & _ & Hnew1 & Hcount1).
    destruct (IH st1 Hpre Hw1) as (st' & new & Hrun & Hw & Htr & Hnew & Hcount).
    exists st', (new1 ++ new). split; [done|]. split; [done|].
    split; [by rewrite Htr, Htr1, <- app_assoc|].
    split.
    { apply Forall_app. split.
      - eapply Forall_impl; [exact Hnew1|]. intros e ->.
        exists p, s. split; [done | apply list_elem_of_here].
      - eapply Forall_impl; [exact Hnew|].
        intros e (p' & s' & -> & Hin'). exists p', s'. split; [done|].
        by apply list_elem_of_further. }
    intros B HB. destruct (Hcount B HB) as [Hc Ho].
    destruct (Hcount1 B HB) as [Hc1 Ho1]. simpl in Hc1, Ho1.
    rewrite count_notices_app, Hc, Hc1, Ho, Ho1.
    rewrite ?fmap_cons, occurrences_cons; simpl fst.
    change (list_fmap (Z * Z)%type Z fst pre) with (pre.*1).
    destruct (decide (p = B)); lia.
Qed.

End ReapingLoops.

(** X6.  [reap_zombies] takes the children that [wait_noblock] hands over
    one after the other and stops at the first result that is not positive
    (no child ready), which it consumes, or when none is left.  Each child
    reaped while the table holds its pid loses one slot and gets one
    completion notice; a child the table does not hold is dropped without
    a notice.  No [wait] is made. *)
Theorem reap_zombies_reports_tracked pre post st :
  Forall (λ w : Z * Z, 0 < w.1) pre →
  no_child post →
  zombies st = pre ++ post →
  ∃ st' new,
    reap_zombies st = Ok tt st'
    ∧ zombies st' = tail post
    ∧ waits st' = waits st
    ∧ trace st' = trace st ++ new
    ∧ Forall (λ e, ∃ p s, e = Out (Bg_exited p s) ∧ (p, s) ∈ pre) new
    ∧ ∀ B, B ≠ 0 →
        count_notices B new
          = Nat.min (occurrences B (pre.*1)) (occurrences B (bg_jobs st))
        ∧ occurrences B (bg_jobs st')
          = Nat.sub (occurrences B (bg_jobs st))
              (Nat.min (occurrences B (pre.*1)) (occurrences B (bg_jobs st))).
Proof.
  intros Hpre Hpost Hz. unfold reap_zombies. rewrite Hz.
  by apply reap_zombies_from_spec.
Qed.

Lemma reap_zombies_reports_tracked_witness :
  let st := set_bg_jobs (add_job 7 (replicate NPROC 0))
              (boot [] [] [(7, 3); (8, 0); (0, 0); (9, 1)] [] [] [] "") in
  ∃ st' new,
    reap_zombies st = Ok tt st'
    ∧ zombies st' = tail [(0, 0); (9, 1)]
    ∧ waits st' = waits st
    ∧ trace st' = trace st ++ new
    ∧ Forall (λ e, ∃ p s, e = Out (Bg_exited p s) ∧ (p, s) ∈ [(7, 3); (8, 0)]) new
    ∧ ∀ B, B ≠ 0 →
        count_notices B new
          = Nat.min (occurrences B ([(7, 3); (8, 0)].*1)) (occurrences B (bg_jobs st))
        ∧ occurrences B (bg_jobs st')
          = Nat.sub (occurrences B (bg_jobs st))
              (Nat.min (occurrences B ([(7, 3); (8, 0)].*1)) (occurrences B (bg_jobs st))).
Proof.
  apply (reap_zombies_reports_tracked [(7, 3); (8, 0)] [(0, 0); (9, 1)]).
  - repeat constructor; simpl; lia.
  - simpl. lia.
  - reflexivity.
Defined.

(** X7.  When [wait] never returns the awaited pid [F] (it was reaped
    before, or is no child), [wait_for_foreground] does not block for
    ever: it reaps every child that [wait] hands over, announcing those the
    table holds, and returns at the first result that is not positive,
    that is when no child is left. *)
Theorem wait_for_foreground_without_child F pre post st :
  Forall (λ w : Z * Z, 0 < w.1 ∧ w.1 ≠ F) pre →
  no_child post →
  waits st = pre ++ post →
  ∃ st' new,
    wait_for_foreground F st = Ok tt st'
    ∧ waits st' = tail post
    ∧ trace st' = trace st ++ new
    ∧ Forall (λ e, ∃ p s, e = Out (Bg_exited p s) ∧ (p, s) ∈ pre) new
    ∧ ∀ B, B ≠ 0 →
        count_notices B new
          = Nat.min (occurrences B (pre.*1)) (occurrences B (bg_jobs st))
        ∧ occurrences B (bg_jobs st')
          = Nat.sub (occurrences B (bg_jobs st))
              (Nat.min (occurrences B (pre.*1)) (occurrences B (bg_jobs st))).
Proof.
  intros Hpre Hpost Hw. unfold wait_for_foreground. rewrite Hw.
  by apply wait_for_foreground_from_absent.
Qed.

Lemma wait_for_foreground_without_child_witness :
  let st := set_bg_jobs (add_job 7 (replicate NPROC 0))
              (boot [] [(7, 3); (-1, 0)] [] [] [] [] "") in
  ∃ st' new,
    wait_for_foreground 5 st = Ok tt st'
    ∧ waits st' = tail [(-1, 0)]
    ∧ trace st' = trace st ++ new
    ∧ Forall (λ e, ∃ p s, e = Out (Bg_exited p s) ∧ (p, s) ∈ [(7, 3)]) new
    ∧ ∀ B, B ≠ 0 →
        count_notices B new
          = Nat.min (occurrences B ([(7, 3)].*1)) (occurrences B (bg_jobs st))
        ∧ occurrences B (bg_jobs st')
          = Nat.sub (occurrences B (bg_jobs st))
              (Nat.min (occurrences B ([(7, 3)].*1)) (occurrences B (bg_jobs st))).
Proof.
  apply (wait_for_foreground_without_child 5 [(7, 3)] [(-1, 0)]).
  - repeat constructor; simpl; lia.
  - simpl. lia.
  - reflexivity.
Defined.

(** ** When the kernel refuses *)

Section Refusals.
Implicit Types (l r : cmd) (st : proc).

Lemma fork1_refused_bind {A} (k : Z → M A) st :
  fork_refused st →
  (fork1 ≫= k) st = Exited 1 (emit (Out (Panic "fork")) (fork_failed st)).
Proof.
  unfold fork_refused, fork_failed, fork1, Sys.fork. run_step.
  destruct st as [j o t [|pid rest] w z op cd ex i]; simpl; [done|].
  by intros ->.
Qed.

Lemma fork1_pid {A} (k : Z → M A) pid rest st :
  forks st = pid :: rest → pid ≠ -1 →
  (fork1 ≫= k) st = k pid (emit (Forked pid) (set_forks rest st)).
Proof.
  intros Hf Hpid. unfold fork1, Sys.fork. run_step. rewrite Hf. simpl.
  by destruct (Z.eqb_spec pid (-1)).
Qed.

End Refusals.

(** X8.  A [fork] that fails is fatal to the process that called it: for a
    command that is no built-in, and for a pipeline at its first or at its
    second [fork], [fork1] writes "fork" and the process exits with status
    1.  When it is the second [fork] of a pipeline that fails, the left
    child has been created already: it is neither waited for nor recorded
    in the job table. *)
Theorem fork_failure_is_fatal (argv0 : string) args back l r st :
  fork_refused st →
  (argv0 ≠ "cd" → argv0 ≠ "jobs" →
   run (EXEC (argv0 :: args) back) st
     = Exited 1 (emit (Out (Panic "fork")) (fork_failed st)))
  ∧ (∀ p0 p1 st1,
       Sys.pipe st = Ok (0, (p0, p1)) st1 →
       run (PIPE l r) st = Exited 1 (emit (Out (Panic "fork")) (fork_failed st1)))
  ∧ (∀ p0 p1 st1 pl,
       Sys.pipe (set_forks (pl :: forks st) st) = Ok (0, (p0, p1)) st1 →
       pl ≠ 0 → pl ≠ -1 →
       run (PIPE l r) (set_forks (pl :: forks st) st)
         = Exited 1 (emit (Out (Panic "fork"))
                       (fork_failed (emit (Forked pl) (set_forks (forks st) st1))))
       ∧ bg_jobs (fork_failed (emit (Forked pl) (set_forks (forks st) st1)))
         = bg_jobs st).
Proof.
  intros Hrefused. split; [|split].
  - intros Hcd Hjobs. unfold run. cbn [cmd_depth runcmd].
    apply String.eqb_neq in Hcd, Hjobs. rewrite Hcd, Hjobs.
    by apply fork1_refused_bind.
  - intros p0 p1 st1 Hpipe. rewrite run_PIPE.
    unfold mbind at 1, M_bind at 1. rewrite Hpipe. cbv beta iota.
    change (0 <? 0) with false. cbv iota.
    unfold mbind at 1, M_bind at 1, mret at 1, M_ret at 1.
    apply fork1_refused_bind.
    destruct (pipe_close_both _ _ _ _ Hpipe) as (i0 & i1 & _ & _ & -> & _).
    exact Hrefused.
  - intros p0 p1 st1 pl Hpipe Hpl0 Hpl1. rewrite run_PIPE.
    unfold mbind at 1, M_bind at 1. rewrite Hpipe. cbv beta iota.
    change (0 <? 0) with false. cbv iota.
    unfold mbind at 1, M_bind at 1, mret at 1, M_ret at 1.
    destruct (pipe_close_both _ _ _ _ Hpipe) as (i0 & i1 & _ & _ & Hst1 & _).
    assert (forks st1 = pl :: forks st) as Hf1 by (by rewrite Hst1).
    assert (bg_jobs st1 = bg_jobs st) as Hj1 by (by rewrite Hst1).
    rewrite (fork1_pid _ pl (forks st)) by done.
    destruct (Z.eqb_spec pl 0); [done|].
    split; [|done].
    by apply fork1_refused_bind.
Qed.

Lemma fork_failure_is_fatal_witness :
  let st := boot [] [] [] [] [] [] "" in
  let l := EXEC ["ls"] 0 in
  let r := EXEC ["wc"] 0 in
  ("ls" ≠ "cd" → "ls" ≠ "jobs" →
   run (EXEC ["ls"; "-l"] 0) st
     = Exited 1 (emit (Out (Panic "fork")) (fork_failed st)))
  ∧ (∀ p0 p1 st1,
       Sys.pipe st = Ok (0, (p0, p1)) st1 →
       run (PIPE l r) st = Exited 1 (emit (Out (Panic "fork")) (fork_failed st1)))
  ∧ (∀ p0 p1 st1 pl,
       Sys.pipe (set_forks (pl :: forks st) st) = Ok (0, (p0, p1)) st1 →
       pl ≠ 0 → pl ≠ -1 →
       run (PIPE l r) (set_forks (pl :: forks st) st)
         = Exited 1 (emit (Out (Panic "fork"))
                       (fork_failed (emit (Forked pl) (set_forks (forks st) st1))))
       ∧ bg_jobs (fork_failed (emit (Forked pl) (set_forks (forks st) st1)))
         = bg_jobs st).
Proof.
  apply (fork_failure_is_fatal "ls" ["-l"] 0 (EXEC ["ls"] 0) (EXEC ["wc"] 0)
           (boot [] [] [] [] [] [] "")).
  reflexivity.
Defined.

(** X9.  A [pipe] that fails is fatal as well: the [PIPE] case writes
    "pipe" and the process exits with status 1 before any [fork] is made
    and before either side is looked at. *)
Theorem pipe_failure_is_fatal l r rc ps st st1 :
  Sys.pipe st = Ok (rc, ps) st1 → rc < 0 →
  run (PIPE l r) st = Exited 1 (emit (Out (Panic "pipe")) st1)
  ∧ forks st1 = forks st
  ∧ trace st1 = trace st.
Proof.
  intros Hpipe Hrc.
  assert (st1 = st) as ->.
  { destruct (pipe_cases st) as [H|(p0 & p1 & st2 & H)]; rewrite H in Hpipe.
    - by injection Hpipe.
    - injection Hpipe as <- _ _. lia. }
  split; [|done]. rewrite run_PIPE.
  unfold mbind at 1, M_bind at 1. rewrite Hpipe. destruct ps as [p0 p1].
  cbv beta iota. assert ((rc <? 0) = true) as -> by lia. reflexivity.
Qed.

Lemma pipe_failure_is_fatal_witness :
  let st := set_ofile (replicate NOFILE (Some Console)) (boot [3; 4] [] [] [] [] [] "") in
  run (PIPE (EXEC ["ls"] 0) (EXEC ["wc"] 0)) st = Exited 1 (emit (Out (Panic "pipe")) st)
  ∧ forks st = forks st
  ∧ trace st = trace st.
Proof.
  apply (pipe_failure_is_fatal (EXEC ["ls"] 0) (EXEC ["wc"] 0) (-1) (0, 0)
           (set_ofile (replicate NOFILE (Some Console)) (boot [3; 4] [] [] [] [] [] ""))).
  - reflexivity.
  - lia.
Defined.

(** ** The children of a pipeline *)

Section PipelineChildren.
Implicit Types (l r : cmd) (st : proc) (tbl : list (option fobj)).

(** What [pipe] does to the table: two slots that were free, the lower
    one for the read end. *)
Lemma pipe_slots st st1 (p0 p1 : Z) :
  Sys.pipe st = Ok (0, (p0, p1)) st1 →
  ∃ i0 i1 : nat,
    p0 = Z.of_nat i0 ∧ p1 = Z.of_nat i1 ∧ i0 ≠ i1
    ∧ ofile st !! i0 = Some None ∧ ofile st !! i1 = Some None
    ∧ st1 = set_ofile (<[i1 := Some PipeWrite]> (<[i0 := Some PipeRead]> (ofile st))) st.
Proof.
  unfold Sys.pipe. intros H.
  destruct (Sys.fdalloc PipeRead (ofile st)) as [[i0 tbl0]|] eqn:E0; [|done].
  destruct (Sys.fdalloc PipeWrite tbl0) as [[i1 tbl1]|] eqn:E1; [|done].
  injection H as <- <- <-.
  apply fdalloc_spec in E0 as [H0 ->]. apply fdalloc_spec in E1 as [H1 ->].
  assert (i0 ≠ i1) as Hne.
  { intros ->. rewrite list_lookup_insert_eq in H1; [done|].
    by eapply lookup_lt_Some. }
  rewrite list_lookup_insert_ne in H1 by done.
  by exists i0, i1.
Qed.

Lemma dup_of_nat (i : nat) f st :
  ofile st !! i = Some (Some f) →
  Sys.dup (Z.of_nat i) st
    = match Sys.fdalloc f (ofile st) with
      | Some (k, tbl) => Ok (Z.of_nat k) (set_ofile tbl st)
      | None => Ok (-1) st
      end.
Proof.
  intros Hi. unfold Sys.dup, Sys.fd_index.
  assert ((Z.of_nat i <? 0) = false) as -> by (apply Z.ltb_ge; lia).
  by rewrite Nat2Z.id, Hi.
Qed.

(** The four calls with which a child puts one end of the pipe in the
    place of descriptor [k]: [close(k); dup(end); close(p[0]);
    close(p[1])]. *)
Lemma pipe_end_onto {A} (then_ : M A) (k i0 i1 : nat) (pick : nat) f tbl st :
  (∀ j : nat, (j < k)%nat → ∃ g, tbl !! j = Some (Some g)) →
  (∃ g, tbl !! k = Some (Some g)) →
  i0 ≠ i1 → tbl !! i0 = Some None → tbl !! i1 = Some None →
  (pick = i0 ∧ f = PipeRead ∨ pick = i1 ∧ f = PipeWrite) →
  ofile st = <[i1 := Some PipeWrite]> (<[i0 := Some PipeRead]> tbl) →
  (Sys.close (Z.of_nat k);; Sys.dup (Z.of_nat pick);;
   Sys.close (Z.of_nat i0);; Sys.close (Z.of_nat i1);; then_) st
    = then_ (set_ofile (<[k := Some f]> tbl) st).
Proof.
  intros Hbelow [g Hk] Hne H0 H1 Hpick Hst.
  assert (k ≠ i0) as Hk0 by (intros ->; congruence).
  assert (k ≠ i1) as Hk1 by (intros ->; congruence).
  assert (k < length tbl)%nat as Hklen by (by eapply lookup_lt_Some).
  assert (i0 < length tbl)%nat as H0len by (by eapply lookup_lt_Some).
  assert (i1 < length tbl)%nat as H1len by (by eapply lookup_lt_Some).
  unfold mbind at 1, M_bind at 1. rewrite close_of_nat.
  unfold mbind at 1, M_bind at 1.
  set (tbl1 := <[k := None]> (ofile st)).
  assert (tbl1 !! pick = Some (Some f)) as Hpicked.
  { unfold tbl1. rewrite Hst.
    destruct Hpick as [[-> ->]|[-> ->]].
    - rewrite list_lookup_insert_ne by done.
      rewrite list_lookup_insert_ne by done.
      apply list_lookup_insert_eq. done.
    - rewrite list_lookup_insert_ne by done.
      apply list_lookup_insert_eq. by rewrite length_insert. }
  rewrite (dup_of_nat pick f) by done. cbn [ofile set_ofile].
  fold tbl1.
  rewrite (fdalloc_lowest f tbl1 k).
  2:{ intros j Hj. destruct (Hbelow j Hj) as [g' Hg'].
      assert (j ≠ i0) by (intros ->; congruence).
      assert (j ≠ i1) by (intros ->; congruence).
      exists g'. unfold tbl1. rewrite Hst.
      rewrite !list_lookup_insert_ne by (done || lia). done. }
  2:{ unfold tbl1. apply list_lookup_insert_eq. rewrite Hst.
      by rewrite !length_insert. }
  unfold mbind, M_bind. rewrite !close_of_nat.
  cbn [ofile set_ofile]. f_equal.
  assert (<[i1:=None]> (<[i0:=None]> (<[k:=Some f]> tbl1)) = <[k:=Some f]> tbl) as Htbl.
  { unfold tbl1. rewrite Hst. rewrite list_insert_insert_eq.
    rewrite (list_insert_insert_ne _ k i1) by done.
    rewrite (list_insert_insert_ne _ k i0) by done.
    rewrite (list_insert_insert_ne _ i0 i1) by done.
    rewrite !list_insert_insert_eq.
    rewrite (list_insert_id _ i0) by (by rewrite list_lookup_insert_ne).
    by rewrite (list_insert_id _ i1) by (by rewrite list_lookup_insert_ne). }
  by rewrite Htbl.
Qed.

End PipelineChildren.

(** X10.  The plumbing of a pipeline, in a process whose descriptors 0 and
    1 are open.  The child in which the first [fork] returns 0 runs the left
    side with the write end of the pipe as its descriptor 1, the child of
    the second [fork] runs the right side with the read end as its
    descriptor 0; in both, the two descriptors [pipe] returned are closed
    again and every other descriptor is as the parent had it.  When its
    side returns, the child calls [exit(0)]. *)
Theorem pipeline_children_plumbing l r st st1 (p0 p1 : Z) f0 f1 :
  Sys.pipe st = Ok (0, (p0, p1)) st1 →
  ofile st !! 0%nat = Some (Some f0) →
  ofile st !! 1%nat = Some (Some f1) →
  (∀ rest, forks st = 0 :: rest →
     run (PIPE l r) st
       = (run l;; exit 0)
           (set_ofile (<[1%nat := Some PipeWrite]> (ofile st))
              (emit (Forked 0) (set_forks rest st))))
  ∧ (∀ pl rest, forks st = pl :: 0 :: rest → pl ≠ 0 → pl ≠ -1 →
       run (PIPE l r) st
         = (run r;; exit 0)
             (set_ofile (<[0%nat := Some PipeRead]> (ofile st))
                (emit (Forked 0) (emit (Forked pl) (set_forks rest st))))).
Proof.
  intros Hpipe Hfd0 Hfd1.
  destruct (pipe_slots _ _ _ _ Hpipe) as (i0 & i1 & -> & -> & Hne & H0 & H1 & Hst1).
  split.
  - intros rest Hforks. rewrite run_PIPE.
    unfold mbind at 1, M_bind at 1. rewrite Hpipe. cbv beta iota.
    change (0 <? 0) with false. cbv iota.
    unfold mbind at 1, M_bind at 1, mret at 1, M_ret at 1.
    rewrite (fork1_pid _ 0 rest) by (by rewrite Hst1 || done).
    change (0 =? 0) with true. cbv iota.
    etrans.
    { apply (pipe_end_onto (run l;; exit 0) 1 i0 i1 i1 PipeWrite (ofile st)); try done.
      - intros j Hj. assert (j = 0%nat) as -> by lia. by exists f0.
      - by exists f1.
      - by right.
      - by rewrite Hst1. }
    rewrite Hst1. by destruct st.
  - intros pl rest Hforks Hpl0 Hpl1. rewrite run_PIPE.
    unfold mbind at 1, M_bind at 1. rewrite Hpipe. cbv beta iota.
    change (0 <? 0) with false. cbv iota.
    unfold mbind at 1, M_bind at 1, mret at 1, M_ret at 1.
    rewrite (fork1_pid _ pl (0 :: rest)) by (by rewrite Hst1 || done).
    destruct (Z.eqb_spec pl 0); [done|].
    rewrite (fork1_pid _ 0 rest) by done.
    change (0 =? 0) with true. cbv iota.
    etrans.
    { apply (pipe_end_onto (run r;; exit 0) 0 i0 i1 i0 PipeRead (ofile st)); try done.
      - intros j Hj. lia.
      - by exists f0.
      - by left.
      - by rewrite Hst1. }
    rewrite Hst1. by destruct st.
Qed.

Lemma pipeline_children_plumbing_witness :
  let l := EXEC ["ls"] 0 in
  let r := EXEC ["wc"] 0 in
  let st := boot [0] [] [] [] [] [true] "" in
  (∀ rest, forks st = 0 :: rest →
     run (PIPE l r) st
       = (run l;; exit 0)
           (set_ofile (<[1%nat := Some PipeWrite]> (ofile st))
              (emit (Forked 0) (set_forks rest st))))
  ∧ (∀ pl rest, forks st = pl :: 0 :: rest → pl ≠ 0 → pl ≠ -1 →
       run (PIPE l r) st
         = (run r;; exit 0)
             (set_ofile (<[0%nat := Some PipeRead]> (ofile st))
                (emit (Forked 0) (emit (Forked pl) (set_forks rest st))))).
Proof.
  apply (pipeline_children_plumbing (EXEC ["ls"] 0) (EXEC ["wc"] 0)
           (boot [0] [] [] [] [] [true] "")
           (set_ofile (<[4%nat := Some PipeWrite]> (<[3%nat := Some PipeRead]>
                         (ofile (boot [0] [] [] [] [] [true] ""))))
              (boot [0] [] [] [] [] [true] ""))
           3 4 Console Console); reflexivity.
Defined.

(** ** Children do not come back *)

Section ChildrenLeave.
Implicit Types (l r : cmd) (st : proc).

Lemma leaves_bind {A B} (m : M A) (f : A → M B) st :
  ends m → (∀ a st', leaves (f a st')) → leaves ((m ≫= f) st).
Proof.
  intros Hm Hf. unfold mbind, M_bind. specialize (Hm st).
  destruct (m st); [apply Hf | done | done | done].
Qed.

End ChildrenLeave.

(** X11.  The process in which [fork] returned 0 never comes back from the
    command that created it: the child of a simple command becomes the
    program or exits, and each child of a pipeline exits once its side is
    done, whatever that side is and however it ends.  So no child reaches
    the loop of [main]. *)
Theorem child_never_returns (argv0 : string) args back l r rest st :
  forks st = 0 :: rest →
  (argv0 ≠ "cd" → argv0 ≠ "jobs" → leaves (run (EXEC (argv0 :: args) back) st))
  ∧ leaves (run (PIPE l r) st)
  ∧ (∀ pl, pl ≠ 0 → leaves (run (PIPE l r) (set_forks (pl :: forks st) st))).
Proof.
  intros Hforks.
  assert (∀ st' (p p0 p1 k : Z) c,
            leaves ((Sys.close k;; Sys.dup p;; Sys.close p0;; Sys.close p1;;
                     run c;; exit 0) st')) as Hchild.
  { intros st' p p0 p1 k c.
    apply leaves_bind; [apply ends_close | intros _ ?].
    apply leaves_bind; [apply ends_dup | intros _ ?].
    apply leaves_bind; [apply ends_close | intros _ ?].
    apply leaves_bind; [apply ends_close | intros _ ?].
    apply leaves_bind; [apply run_ends | intros _ ?]. done. }
  split; [|split].
  - intros Hcd Hjobs. rewrite (run_EXEC_forks argv0 args back 0 rest) by done.
    change (0 =? 0) with true. cbv iota.
    apply leaves_bind; [apply ends_exec | intros _ ?].
    apply leaves_bind; [apply ends_printf | intros _ ?]. done.
  - rewrite run_PIPE. unfold mbind at 1, M_bind at 1.
    destruct (pipe_cases st) as [->|(p0 & p1 & st1 & Hpipe)]; [done|].
    rewrite Hpipe. cbv beta iota. change (0 <? 0) with false. cbv iota.
    unfold mbind at 1, M_bind at 1, mret at 1, M_ret at 1.
    destruct (pipe_close_both _ _ _ _ Hpipe) as (i0 & i1 & _ & _ & Hst1 & _).
    rewrite (fork1_pid _ 0 rest) by (by rewrite Hst1 || done).
    change (0 =? 0) with true. cbv iota. apply Hchild.
  - intros pl Hpl. rewrite run_PIPE. unfold mbind at 1, M_bind at 1.
    destruct (pipe_cases (set_forks (pl :: forks st) st))
      as [->|(p0 & p1 & st1 & Hpipe)]; [done|].
    rewrite Hpipe. cbv beta iota. change (0 <? 0) with false. cbv iota.
    unfold mbind at 1, M_bind at 1, mret at 1, M_ret at 1.
    destruct (pipe_close_both _ _ _ _ Hpipe) as (i0 & i1 & _ & _ & Hst1 & _).
    assert (forks st1 = pl :: 0 :: rest) as Hf1 by (by rewrite Hst1, <- Hforks).
    destruct (Z.eqb_spec pl (-1)) as [->|Hpl1].
    { rewrite fork1_refused_bind; [done|]. unfold fork_refused. by rewrite Hf1. }
    rewrite (fork1_pid _ pl (0 :: rest)) by done.
    destruct (Z.eqb_spec pl 0); [done|].
    rewrite (fork1_pid _ 0 rest) by done.
    change (0 =? 0) with true. cbv iota. apply Hchild.
Qed.

Lemma child_never_returns_witness :
  let st := boot [0] [] [] [] [] [false] "" in
  let l := EXEC ["cd"; "/"] 0 in
  let r := LIST (EXEC ["jobs"] 0) (EXEC ["wc"] 0) in
  ("ls" ≠ "cd" → "ls" ≠ "jobs" → leaves (run (EXEC ["ls"] 1) st))
  ∧ leaves (run (PIPE l r) st)
  ∧ (∀ pl, pl ≠ 0 → leaves (run (PIPE l r) (set_forks (pl :: forks st) st))).
Proof.
  apply (child_never_returns "ls" [] 1 (EXEC ["cd"; "/"] 0)
           (LIST (EXEC ["jobs"] 0) (EXEC ["wc"] 0)) []
           (boot [0] [] [] [] [] [false] "")).
  reflexivity.
Defined.

(** ** Sequences *)

(** X12.  [LIST] runs its left side and then, when that returns, its right
    side in the state the left side left; when the left side ends the
    process, the right side is not run.  Sequencing is associative: the
    trees of [(a ; b) ; c] and of [a ; b ; c] run alike. *)
Theorem list_runs_in_sequence a b c st :
  run (LIST (LIST a b) c) st = run (LIST a (LIST b c)) st
  ∧ (∀ st', run a st = Ok tt st' → run (LIST a b) st = run b st')
  ∧ (∀ status st', run a st = Exited status st' →
       run (LIST a b) st = Exited status st')
  ∧ (∀ argv st', run a st = Execed argv st' →
       run (LIST a b) st = Execed argv st').
Proof.
  split; [|split; [|split]].
  - rewrite (run_LIST (LIST a b) c), (run_LIST a (LIST b c)).
    unfold mbind, M_bind. rewrite (run_LIST a b). unfold mbind, M_bind.
    destruct (run a st) as [[] st1| | |]; [|done..].
    by rewrite (run_LIST b c).
  - intros st' Ha. rewrite run_LIST. unfold mbind, M_bind. by rewrite Ha.
  - intros status st' Ha. rewrite run_LIST. unfold mbind, M_bind. by rewrite Ha.
  - intros argv st' Ha. rewrite run_LIST. unfold mbind, M_bind. by rewrite Ha.
Qed.

(** ** What the job table can hold *)

Section TrackedPids.
Implicit Types (own : list Z) (st : proc) (pid q : Z).

Lemma tracked_from_same own st st' :
  bg_jobs st' = bg_jobs st → forks st' = forks st → tracked_from own st st'.
Proof.
  intros Hj Hf. unfold tracked_from. rewrite Hj, Hf.
  split; [done|]. exists []. split; [done|]. intros q Hq. by right; right; left.
Qed.

Lemma tracked_from_trans own st1 st2 st3 :
  tracked_from own st1 st2 → tracked_from own st2 st3 → tracked_from own st1 st3.
Proof.
  intros (Hl1 & used1 & Hf1 & Hq1) (Hl2 & used2 & Hf2 & Hq2).
  split; [congruence|]. exists (used1 ++ used2).
  split; [by rewrite Hf1, Hf2, app_assoc|].
  intros q Hq. destruct (Hq2 q Hq) as [?|[?|[Hin|Hin]]]; [by left | by right; left | |].
  - destruct (Hq1 q Hin) as [?|[?|[?|Hu]]];
      [by left | by right; left | by right; right; left |].
    right; right; right. apply elem_of_app. by left.
  - right; right; right. apply elem_of_app. by right.
Qed.

Lemma steps_bind own {A B} (m : M A) (f : A → M B) :
  steps (tracked_from own) m → (∀ a, steps (tracked_from own) (f a)) →
  steps (tracked_from own) (m ≫= f).
Proof.
  intros Hm Hf st. unfold mbind, M_bind. specialize (Hm st).
  destruct (m st) as [a st1| | |]; [|done..].
  specialize (Hf a st1).
  destruct (f a st1); [| | |done]; by eapply tracked_from_trans.
Qed.

(** A computation that leaves the table and the results of [fork] as
    they are, however it ends. *)
Lemma steps_same own {A} (m : M A) :
  (∀ st, match m st with
         | Ok _ st' | Exited _ st' | Execed _ st' =>
             bg_jobs st' = bg_jobs st ∧ forks st' = forks st
         | OutOfFuel => True
         end) →
  steps (tracked_from own) m.
Proof.
  intros H st. specialize (H st).
  destruct (m st); [| | |done]; destruct H; by apply tracked_from_same.
Qed.

Lemma steps_ret own {A} (a : A) : steps (tracked_from own) (mret a).
Proof. by apply steps_same. Qed.

Lemma steps_exit own status : steps (tracked_from own) (exit status).
Proof. by apply steps_same. Qed.

Lemma steps_printf own m : steps (tracked_from own) (printf m).
Proof. by apply steps_same. Qed.

Lemma steps_panic own s : steps (tracked_from own) (panic s).
Proof. by apply steps_same. Qed.

Lemma steps_close own fd : steps (tracked_from own) (Sys.close fd).
Proof. apply steps_same. intros st. simpl. by destruct (fd <? 0). Qed.

Lemma steps_open own path mode : steps (tracked_from own) (Sys.open path mode).
Proof.
  apply steps_same. intros st. unfold Sys.open.
  destruct (opens st) as [|[] rest]; simpl; [done| |done].
  by destruct (Sys.fdalloc _ _) as [[i tbl]|].
Qed.

Lemma steps_dup own fd : steps (tracked_from own) (Sys.dup fd).
Proof.
  apply steps_same. intros st. unfold Sys.dup.
  destruct (fd <? 0); [done|].
  destruct (ofile st !! Sys.fd_index fd) as [[f|]|]; [|done..].
  by destruct (Sys.fdalloc _ _) as [[i tbl]|].
Qed.

Lemma steps_pipe own : steps (tracked_from own) Sys.pipe.
Proof.
  apply steps_same. intros st. unfold Sys.pipe.
  destruct (Sys.fdalloc PipeRead _) as [[i0 tbl0]|]; [|done].
  by destruct (Sys.fdalloc PipeWrite _) as [[i1 tbl1]|].
Qed.

Lemma steps_chdir own dir : steps (tracked_from own) (Sys.chdir dir).
Proof.
  apply steps_same. intros st. unfold Sys.chdir.
  by destruct (chdirs st) as [|[] rest].
Qed.

Lemma steps_exec own path argv : steps (tracked_from own) (Sys.exec path argv).
Proof.
  apply steps_same. intros st. unfold Sys.exec.
  by destruct (execs st) as [|[] rest].
Qed.

Lemma steps_read1 own fd : steps (tracked_from own) (Sys.read1 fd).
Proof.
  apply steps_same. intros st. unfold Sys.read1.
  destruct (Sys.is_open fd st); [|done]. by destruct (input st).
Qed.

Lemma steps_print_jobs own : steps (tracked_from own) print_jobs.
Proof.
  apply steps_same. intros st. unfold print_jobs.
  rewrite print_jobs_from_spec.
  generalize (job_lines (bg_jobs st)). intros evs. revert st.
  induction evs as [|e evs IH]; intros st; simpl; [done|].
  destruct (IH (emit e st)) as [-> ->]. done.
Qed.

Lemma elem_of_add_job q pid jobs :
  q ∈ add_job pid jobs → q = pid ∨ q ∈ jobs.
Proof.
  induction jobs as [|j rest IH]; simpl; [by right|].
  destruct (j =? 0).
  - rewrite !elem_of_cons. intros [->|?]; [by left | by right; right].
  - rewrite !elem_of_cons. intros [->|Hin]; [by right; left|].
    destruct (IH Hin); [by left | by right; right].
Qed.

Lemma elem_of_remove_job q pid jobs :
  q ∈ remove_job pid jobs → q = 0 ∨ q ∈ jobs.
Proof.
  induction jobs as [|j rest IH]; simpl; [by right|].
  destruct (j =? pid).
  - rewrite !elem_of_cons. intros [->|?]; [by left | by right; right].
  - rewrite !elem_of_cons. intros [->|Hin]; [by right; left|].
    destruct (IH Hin); [by left | by right; right].
Qed.

Lemma steps_add_job_m own pid : pid ∈ own → steps (tracked_from own) (add_job_m pid).
Proof.
  intros Hown st. simpl. split; [apply add_job_length|].
  exists []. split; [done|].
  intros q Hq. apply elem_of_add_job in Hq as [->|Hq]; [by right; left|].
  by right; right; left.
Qed.

Lemma steps_reap_background_job own pid status :
  steps (tracked_from own) (reap_background_job pid status).
Proof.
  intros st. unfold reap_background_job.
  destruct (nonzero _); [|by apply tracked_from_same].
  simpl. split; [apply remove_job_length|]. exists []. split; [done|].
  intros q Hq. apply elem_of_remove_job in Hq as [->|Hq]; [by left|].
  by right; right; left.
Qed.

Lemma steps_modify_same own f :
  (∀ st, bg_jobs (f st) = bg_jobs st ∧ forks (f st) = forks st) →
  steps (tracked_from own) (modify f).
Proof. intros H. apply steps_same. intros st. apply H. Qed.

Lemma steps_wait_for_foreground own F : steps (tracked_from own) (wait_for_foreground F).
Proof.
  intros st. unfold wait_for_foreground.
  generalize (waits st). intros ws. revert st.
  induction ws as [|[p s] ws IH]; intros st; [by apply tracked_from_same|].
  cbn [wait_for_foreground_from]. apply steps_bind; [by apply steps_modify_same|].
  intros _. destruct (0 <? p); [|apply steps_ret].
  destruct (p =? F); [apply steps_ret|].
  apply steps_bind; [apply steps_reap_background_job|]. intros _ st'. apply IH.
Qed.

Lemma steps_reap_zombies own : steps (tracked_from own) reap_zombies.
Proof.
  intros st. unfold reap_zombies.
  generalize (zombies st). intros zs. revert st.
  induction zs as [|[p s] zs IH]; intros st; [by apply tracked_from_same|].
  cbn [reap_zombies_from]. apply steps_bind; [by apply steps_modify_same|].
  intros _. destruct (0 <? p); [|apply steps_ret].
  apply steps_bind; [apply steps_reap_background_job|]. intros _ st'. apply IH.
Qed.

(** After [fork1] the pid it returned may be recorded. *)
Lemma steps_fork1 own {A} (k : Z → M A) :
  (∀ pid, steps (tracked_from (pid :: own)) (k pid)) →
  steps (tracked_from own) (fork1 ≫= k).
Proof.
  intros Hk st. unfold fork1, Sys.fork. run_step.
  destruct (forks st) as [|pid rest] eqn:Hf; simpl.
  { apply tracked_from_same; [done | simpl; done]. }
  destruct (pid =? -1); simpl.
  { split; [done|]. exists [pid]. split; [by rewrite Hf|].
    intros q Hq. by right; right; left. }
  specialize (Hk pid (emit (Forked pid) (set_forks rest st))).
  assert (∀ st', tracked_from (pid :: own) (emit (Forked pid) (set_forks rest st)) st' →
                 tracked_from own st st') as Hback.
  { intros st' (Hl & used & Hs & Hq). simpl in *. split; [done|].
    exists (pid :: used). split; [by rewrite Hf, Hs|].
    intros q Hin.
    destruct (Hq q Hin) as [?|[Hown|[?|?]]]; [by left | | by right; right; left |].
    - apply elem_of_cons in Hown as [->|?]; [|by right; left].
      right; right; right. apply list_elem_of_here.
    - right; right; right. by apply list_elem_of_further. }
  destruct (k pid _); [| | |done]; by apply Hback.
Qed.

Ltac steps_tac IH :=
  repeat first
    [ apply IH
    | apply steps_ret | apply steps_exit | apply steps_printf | apply steps_panic
    | apply steps_close | apply steps_open | apply steps_dup | apply steps_pipe
    | apply steps_chdir | apply steps_exec | apply steps_print_jobs
    | apply steps_wait_for_foreground
    | apply steps_add_job_m;
      first [ apply list_elem_of_here
            | apply list_elem_of_further, list_elem_of_here ]
    | apply steps_fork1; intros
    | apply steps_bind; [|intros]
    | match goal with
      | |- steps _ (if ?b then _ else _) => destruct b
      | |- steps _ (let '(_, _) := ?x in _) => destruct x
      | |- steps _ (match ?x with _ => _ end) => destruct x
      end ].

Lemma runcmd_steps n : ∀ own c, steps (tracked_from own) (runcmd n c).
Proof.
  induction n as [|n IH]; intros own c; [done|].
  destruct c as [argv back|c file mode fd|l r|l r|c]; simpl; steps_tac IH.
Qed.

Lemma run_steps own c : steps (tracked_from own) (run c).
Proof. apply runcmd_steps. Qed.

End TrackedPids.

Section TrackedSession.
Implicit Types (own : list Z) (st : proc).

Lemma steps_getcmd_fill own fd room :
  ∀ first, steps (tracked_from own) (getcmd_fill room first fd).
Proof.
  induction room as [|room IH]; intros first; [apply steps_ret|].
  cbn [getcmd_fill]. apply steps_bind; [apply steps_read1|].
  intros [c|]; [|destruct first; apply steps_ret].
  destruct (Ascii.eqb c LF); [apply steps_ret|].
  apply steps_bind; [apply IH | intros; apply steps_ret].
Qed.

Lemma steps_getcmd own nbuf fd : steps (tracked_from own) (getcmd nbuf fd).
Proof.
  unfold getcmd. apply steps_bind; [apply steps_getcmd_fill|].
  intros [buf|]; [|apply steps_ret].
  destruct (Ascii.eqb _ _); apply steps_ret.
Qed.

Lemma steps_parse_and_run own buf : steps (tracked_from own) (parse_and_run buf).
Proof.
  unfold parse_and_run.
  destruct (Parse.parsecmd (parse_fuel buf) buf) as [cmd rest|out|]; [| |done].
  - apply run_steps.
  - apply steps_bind; [|intros; apply steps_exit].
    apply steps_same. intros st. revert st.
    induction out as [|m out IH]; intros st; simpl; [done|].
    destruct (IH (emit (Out m) st)) as [-> ->]. done.
Qed.

Lemma sh_loop_steps own n : ∀ fd, steps (tracked_from own) (sh_loop n fd).
Proof.
  induction n as [|n IH]; intros fd; [done|]. cbn [sh_loop].
  apply steps_bind; [destruct (fd =? 0); [apply steps_printf | apply steps_ret]|].
  intros _. apply steps_bind; [apply steps_getcmd|].
  intros [rc buf]. destruct (rc <? 0); [apply steps_ret|].
  destruct (_ || _); [apply IH|].
  apply steps_bind; [apply steps_parse_and_run|]. intros _.
  apply steps_bind; [destruct (fd =? 0); [apply steps_reap_zombies | apply steps_ret]|].
  intros _. apply IH.
Qed.

End TrackedSession.

(** X14.  Whatever command the process runs and however the run ends, the
    job table keeps its size, and every pid it holds afterwards was in the
    table before or is one that [fork] had yet to return when the run
    began: the shell records none but its own children. *)
Theorem job_table_holds_children c st :
  ends_in (λ st',
      length (bg_jobs st') = length (bg_jobs st)
      ∧ ∀ q, q ∈ bg_jobs st' → q = 0 ∨ q ∈ bg_jobs st ∨ q ∈ forks st)
    (run c st).
Proof.
  pose proof (run_steps [] c st) as Hsteps. pose proof (run_ends c st) as Hends.
  destruct (run c st) as [a st'|status st'|argv st'|]; [| | |done];
    destruct Hsteps as (Hl & used & Hf & Hq); (split; [done|]);
    intros q Hin;
    (destruct (Hq q Hin) as [?|[Hown|[?|Hu]]];
       [by left | by apply elem_of_nil in Hown | by right; left |]);
    right; right; rewrite Hf; apply elem_of_app; by left.
Qed.

(** X15.  From its first line to its end a session keeps a table of
    [NPROC] slots.  When [main] ends (fuel for every byte of input being
    given) the results of [fork] that the environment held are split in
    two: those that [fork] returned during the session, [used], and those
    still to come; each slot of the table holds 0 or one of the pids
    [used]. *)
Theorem session_job_table n argv st :
  (String.length (input st) < n)%nat →
  ends_in (λ st',
      length (bg_jobs st') = NPROC
      ∧ ∃ used,
          forks st = used ++ forks st'
          ∧ ∀ q, q ∈ bg_jobs st' → q = 0 ∨ q ∈ used)
    (main n argv st).
Proof.
  intros Hn. pose proof (main_ends n argv st Hn) as Hends.
  set (rest := fd ← match argv with
                    | _ :: script :: _ =>
                        fd ← Sys.open script O_RDONLY;
                        if fd <? 0
                        then (printf (Cannot_open_script script);; exit 1;; mret fd)
                        else mret fd
                    | _ => mret 0
                    end;
               sh_loop n fd;; exit 0).
  assert (steps (tracked_from []) rest) as Hsteps.
  { apply steps_bind.
    - destruct argv as [|name [|script more]]; [apply steps_ret | apply steps_ret |].
      apply steps_bind; [apply steps_open|]. intros fd.
      destruct (fd <? 0); [|apply steps_ret].
      apply steps_bind; [apply steps_printf|]. intros _.
      apply steps_bind; [apply steps_exit | intros; apply steps_ret].
    - intros fd. apply steps_bind; [apply sh_loop_steps | intros; apply steps_exit]. }
  specialize (Hsteps (set_bg_jobs (replicate NPROC 0) st)).
  change (main n argv st) with (rest (set_bg_jobs (replicate NPROC 0) st)) in *.
  destruct (rest (set_bg_jobs (replicate NPROC 0) st))
    as [a st'|status st'|argv' st'|]; [| | |done];
    destruct Hsteps as (Hl & used & Hf & Hq);
    cbn [bg_jobs forks set_bg_jobs] in Hl, Hf, Hq;
    rewrite length_replicate in Hl; (split; [done|]);
    exists used; (split; [done|]);
    intros q Hin;
    (destruct (Hq q Hin) as [?|[Hown|[Hzero|?]]];
       [by left | by apply elem_of_nil in Hown | | by right]);
    left; by apply elem_of_replicate in Hzero as [? _].
Qed.

(** The session of two background commands, with a third result of [fork]
    that no command asks for. *)
Lemma session_job_table_witness :
  let st := boot [5; 6; 7] [] [] [] [] [] ("sleep 5 &" +:+ nl +:+ "sleep 6 &" +:+ nl) in
  ends_in (λ st',
      length (bg_jobs st') = NPROC
      ∧ ∃ used,
          forks st = used ++ forks st'
          ∧ ∀ q, q ∈ bg_jobs st' → q = 0 ∨ q ∈ used)
    (main 21 ["sh"] st).
Proof.
  apply (session_job_table 21 ["sh"]
           (boot [5; 6; 7] [] [] [] [] [] ("sleep 5 &" +:+ nl +:+ "sleep 6 &" +:+ nl))).
  vm_compute. lia.
Defined.

(** ** Redirections, one inside the other *)

Section NestedRedirections.
Implicit Types (c : cmd) (st : proc).

(** A [REDIR] whose [open] succeeds, every lower descriptor being open. *)
Lemma run_REDIR_opened c (file : string) mode (i : nat) os st :
  (i < length (ofile st))%nat →
  (∀ k : nat, (k < i)%nat → ∃ g, ofile st !! k = Some (Some g)) →
  opens st = true :: os →
  run (REDIR c file mode (Z.of_nat i)) st
    = run c (set_ofile (<[i := Some (File file mode)]> (ofile st)) (set_opens os st)).
Proof.
  intros Hi Hbelow Hopens.
  rewrite run_REDIR. unfold mbind at 1, M_bind at 1. rewrite close_of_nat.
  unfold mbind, M_bind, Sys.open. simpl. rewrite Hopens.
  rewrite (Sys_fdalloc_lowest_after_close (File file mode) (ofile st) i) by done.
  assert ((Z.of_nat i <? 0) = false) as -> by (apply Z.ltb_ge; lia).
  rewrite list_insert_insert_eq. by destruct st.
Qed.

(** A [REDIR] whose [open] fails. *)
Lemma run_REDIR_failed c (file : string) mode (i : nat) os st :
  opens st = false :: os →
  run (REDIR c file mode (Z.of_nat i)) st
    = Ok tt (emit (Out (Open_failed file))
               (set_opens os (set_ofile (<[i := None]> (ofile st)) st))).
Proof.
  intros Hopens.
  rewrite run_REDIR. unfold mbind at 1, M_bind at 1. rewrite close_of_nat.
  unfold mbind, M_bind, Sys.open. simpl. by rewrite Hopens.
Qed.

End NestedRedirections.

(** X13.  Two redirections of the same descriptor, one inside the other:
    the outer node is opened first and the inner one after it, on the same
    descriptor, so the command runs with the file of the inner node (the
    one written first on the line) and the file of the outer node is opened
    and closed again unused.  When the inner [open] fails the command is not
    run and the descriptor is left closed. *)
Theorem nested_redirections_inner_wins c (a b : string) ma mb (i : nat) st :
  (i < length (ofile st))%nat →
  (∀ k : nat, (k < i)%nat → ∃ g, ofile st !! k = Some (Some g)) →
  (∀ os, opens st = true :: true :: os →
     run (REDIR (REDIR c a ma (Z.of_nat i)) b mb (Z.of_nat i)) st
       = run c (set_ofile (<[i := Some (File a ma)]> (ofile st)) (set_opens os st)))
  ∧ (∀ os, opens st = true :: false :: os →
       run (REDIR (REDIR c a ma (Z.of_nat i)) b mb (Z.of_nat i)) st
         = Ok tt (emit (Out (Open_failed a))
                    (set_opens os (set_ofile (<[i := None]> (ofile st)) st)))).
Proof.
  intros Hi Hbelow. split; intros os Hopens.
  - rewrite (run_REDIR_opened _ b mb i (true :: os)) by done.
    rewrite (run_REDIR_opened c a ma i os).
    + cbn [ofile set_ofile set_opens]. rewrite list_insert_insert_eq. by destruct st.
    + cbn [ofile set_ofile set_opens]. by rewrite length_insert.
    + intros k Hk. cbn [ofile set_ofile set_opens].
      rewrite list_lookup_insert_ne by lia. by apply Hbelow.
    + done.
  - rewrite (run_REDIR_opened _ b mb i (false :: os)) by done.
    rewrite (run_REDIR_failed c a ma i os) by done.
    cbn [ofile set_ofile set_opens]. rewrite list_insert_insert_eq. by destruct st.
Qed.

Lemma nested_redirections_inner_wins_witness :
  let c := EXEC ["jobs"] 0 in
  let m := Z.lor (Z.lor O_WRONLY O_CREATE) O_TRUNC in
  let st := boot [] [] [] [true; true] [] [] "" in
  (∀ os, opens st = true :: true :: os →
     run (REDIR (REDIR c "a" m (Z.of_nat 1)) "b" m (Z.of_nat 1)) st
       = run c (set_ofile (<[1%nat := Some (File "a" m)]> (ofile st)) (set_opens os st)))
  ∧ (∀ os, opens st = true :: false :: os →
       run (REDIR (REDIR c "a" m (Z.of_nat 1)) "b" m (Z.of_nat 1)) st
         = Ok tt (emit (Out (Open_failed "a"))
                    (set_opens os (set_ofile (<[1%nat := None]> (ofile st)) st)))).
Proof.
  apply (nested_redirections_inner_wins (EXEC ["jobs"] 0) "a" "b"
           (Z.lor (Z.lor O_WRONLY O_CREATE) O_TRUNC)
           (Z.lor (Z.lor O_WRONLY O_CREATE) O_TRUNC) 1
           (boot [] [] [] [true; true] [] [] "")).
  - simpl. lia.
  - intros k Hk. assert (k = O) as -> by lia. by exists Console.
Defined.

(** ** What [getcmd] reads *)

Section GetcmdMore.
Implicit Types (st : proc) (buf line rest : string).

Lemma is_open_set_input fd s st : Sys.is_open fd (set_input s st) = Sys.is_open fd st.
Proof. reflexivity. Qed.

Lemma getcmd_fill_spec fd room :
  ∀ first st, ∃ r st',
    getcmd_fill room first fd st = Ok r st'
    ∧ st' = set_input (input st') st
    ∧ (r = None → first = true)
    ∧ (String.length (default "" r) ≤ room)%nat
    ∧ no_lf (default "" r) = true
    ∧ (input st = default "" r +:+ input st'
       ∨ input st = default "" r +:+ nl +:+ input st').
Proof.
  induction room as [|room IH]; intros first st.
  - exists (Some ""), st. split; [done|]. split; [by destruct st|].
    split; [done|]. split; [done|]. split; [done|]. by left.
  - cbn [getcmd_fill]. unfold mbind at 1, M_bind at 1, Sys.read1.
    destruct (Sys.is_open fd st) eqn:Hopen.
    + destruct (input st) as [|c rest] eqn:Hin.
      * exists (if first then None else Some ""), st.
        split; [by destruct first|]. split; [by destruct st|].
        split; [by destruct first|].
        destruct first; simpl; rewrite Hin; (split; [lia|]); (split; [done|]);
          by left.
      * destruct (Ascii.eqb c LF) eqn:Hc.
        { apply Ascii.eqb_eq in Hc as ->.
          exists (Some ""), (set_input rest st). split; [done|].
          split; [done|]. split; [done|].
          simpl. split; [lia|]. split; [done|]. by right. }
        destruct (IH false (set_input rest st))
          as (r & st' & Hfill & Hst' & Hnone & Hlen & Hlf & Hsplit).
        unfold mbind, M_bind. rewrite Hfill.
        destruct r as [buf|]; [|by specialize (Hnone eq_refl)].
        exists (Some (String c buf)), st'. split; [done|].
        split; [by rewrite Hst' at 1|]. split; [done|].
        cbn [input set_input default from_option id] in *.
        split; [simpl; lia|].
        split; [unfold no_lf in *; by rewrite all_chars_cons, Hc|].
        rewrite !append_cons.
        destruct Hsplit as [->| ->]; [by left | by right].
    + exists (if first then None else Some ""), st.
      split; [by destruct first|]. split; [by destruct st|].
      split; [by destruct first|].
      destruct first; simpl; (split; [lia|]); (split; [done|]); by left.
Qed.

(** A run of bytes that fills the buffer, no line feed among them. *)
Lemma getcmd_fill_full fd a :
  ∀ b first st,
    no_lf a = true → Sys.is_open fd st = true → input st = a +:+ b →
    getcmd_fill (String.length a) first fd st = Ok (Some a) (set_input b st).
Proof.
  induction a as [|c a IH]; intros b first st Hlf Hopen Hin.
  - change ("" +:+ b) with b in Hin. simpl. rewrite <- Hin. by destruct st.
  - cbn [String.length getcmd_fill]. unfold mbind at 1, M_bind at 1, Sys.read1.
    rewrite Hopen, Hin. rewrite append_cons.
    unfold no_lf in Hlf. rewrite all_chars_cons in Hlf.
    apply andb_true_iff in Hlf as [Hc Ha]. apply negb_true_iff in Hc. rewrite Hc.
    unfold mbind, M_bind.
    rewrite (IH b false (set_input (a +:+ b) st)); [by destruct st | done | done | done].
Qed.

(** The bytes of a last line that no line feed ends. *)
Lemma getcmd_fill_unterminated fd a :
  ∀ room first st,
    a ≠ "" → no_lf a = true → (String.length a < room)%nat →
    Sys.is_open fd st = true → input st = a →
    getcmd_fill room first fd st = Ok (Some a) (set_input "" st).
Proof.
  induction a as [|c a IH]; intros room first st Hne Hlf Hroom Hopen Hin; [done|].
  destruct room as [|room]; [simpl in Hroom; lia|].
  cbn [getcmd_fill]. unfold mbind at 1, M_bind at 1, Sys.read1.
  rewrite Hopen, Hin.
  unfold no_lf in Hlf. rewrite all_chars_cons in Hlf.
  apply andb_true_iff in Hlf as [Hc Ha]. apply negb_true_iff in Hc. rewrite Hc.
  unfold mbind, M_bind.
  destruct a as [|d a].
  - destruct room as [|room]; [simpl in Hroom; lia|].
    cbn [getcmd_fill]. unfold mbind, M_bind, Sys.read1.
    rewrite is_open_set_input, Hopen. simpl. by destruct st.
  - rewrite (IH room false (set_input (String d a) st));
      [by destruct st | done | done | simpl in *; lia | done | done].
Qed.

End GetcmdMore.

(** X16.  Whatever the input and whether or not [fd] is open, [getcmd]
    returns 0 or -1 with at most [nbuf - 1] bytes in the buffer, none of
    them a line feed.  No byte is lost: the input is the buffer followed by
    what is left to read, with one line feed between them when it was a
    line feed that ended the line.  The result is 0 exactly when the buffer
    starts with a byte other than NUL, and nothing of the process changes
    but the input. *)
Theorem getcmd_reads_one_line nbuf fd st :
  ∃ rc buf st',
    getcmd nbuf fd st = Ok (rc, buf) st'
    ∧ st' = set_input (input st') st
    ∧ (String.length buf ≤ nbuf - 1)%nat
    ∧ no_lf buf = true
    ∧ (input st = buf +:+ input st' ∨ input st = buf +:+ nl +:+ input st')
    ∧ (rc = 0 ∨ rc = -1)
    ∧ (rc = 0 ↔ Ascii.eqb (first_char buf) NUL = false).
Proof.
  unfold getcmd. unfold mbind, M_bind.
  destruct (getcmd_fill_spec fd (nbuf - 1) true st)
    as (r & st' & -> & Hst' & _ & Hlen & Hlf & Hsplit).
  cbn [default from_option id] in *.
  destruct r as [buf|]; cbn [default from_option id] in *.
  - destruct (Ascii.eqb (first_char buf) NUL) eqn:Hc.
    + exists (-1), buf, st'. split; [done|]. split; [done|]. split; [done|].
      split; [done|]. split; [done|]. split; [by right|].
      rewrite Hc. split; [lia | done].
    + exists 0, buf, st'. split; [done|]. split; [done|]. split; [done|].
      split; [done|]. split; [done|]. split; [by left|]. by rewrite Hc.
  - exists (-1), "", st'. split; [done|]. split; [done|]. split; [simpl; lia|].
    split; [done|]. split; [done|]. split; [by right|]. split; [lia | done].
Qed.

(** X17.  Two edges of [getcmd].  A line longer than the buffer is cut:
    the first [nbuf - 1] bytes are returned as the line and the bytes after
    them stay in the input, to be read as the next line.  And a last line
    that no line feed ends is returned like any other. *)
Theorem getcmd_long_and_last_lines nbuf fd (a b : string) st :
  no_lf a = true →
  Ascii.eqb (first_char a) NUL = false →
  Sys.is_open fd st = true →
  (String.length a = (nbuf - 1)%nat → input st = a +:+ b →
   getcmd nbuf fd st = Ok (0, a) (set_input b st))
  ∧ ((String.length a < nbuf - 1)%nat → input st = a →
     getcmd nbuf fd st = Ok (0, a) (set_input "" st)).
Proof.
  intros Hlf Hfirst Hopen. split.
  - intros Hlen Hin. unfold getcmd. unfold mbind, M_bind.
    rewrite <- Hlen. rewrite (getcmd_fill_full fd a b true st) by done.
    by rewrite Hfirst.
  - intros Hlen Hin. unfold getcmd. unfold mbind, M_bind.
    rewrite (getcmd_fill_unterminated fd a (nbuf - 1) true st); try done.
    + by rewrite Hfirst.
    + by intros ->.
Qed.

Lemma getcmd_long_and_last_lines_witness :
  let st := boot [] [] [] [] [] [] "echo hello" in
  (String.length "echo" = (5 - 1)%nat → input st = "echo" +:+ " hello" →
   getcmd 5 0 st = Ok (0, "echo") (set_input " hello" st))
  ∧ ((String.length "echo" < 5 - 1)%nat → input st = "echo" →
     getcmd 5 0 st = Ok (0, "echo") (set_input "" st)).
Proof.
  apply (getcmd_long_and_last_lines 5 0 "echo" " hello"
           (boot [] [] [] [] [] [] "echo hello")); reflexivity.
Defined.

(** ** How a session ends *)

Section SessionEnd.
Implicit Types (st : proc) (line rest : string).

Lemma no_return_main n argv : no_return (main n argv).
Proof.
  unfold main. apply no_return_bind. intros _.
  apply no_return_bind. intros fd.
  apply no_return_bind. intros _. apply no_return_exit.
Qed.

End SessionEnd.

(** X18.  [main] never returns: given fuel for every byte of the input,
    a session ends with the process calling [exit] or, in a child, with the
    process turned into another program or exiting; it neither runs for
    ever nor falls off the end of [main]. *)
Theorem main_always_exits n argv st :
  (String.length (input st) < n)%nat → leaves (main n argv st).
Proof.
  intros Hn. pose proof (main_ends n argv st Hn) as Hends.
  pose proof (no_return_main n argv st) as Hret.
  destruct (main n argv st) as [a st'| | |]; [|done..].
  by destruct (Hret a st').
Qed.

Lemma main_always_exits_witness :
  leaves (main 12 ["sh"] (boot [5] [(5, 0)] [] [] [] [] ("echo hi" +:+ nl +:+ "cd" +:+ nl))).
Proof.
  apply (main_always_exits 12 ["sh"]
           (boot [5] [(5, 0)] [] [] [] [] ("echo hi" +:+ nl +:+ "cd" +:+ nl))).
  vm_compute. lia.
Defined.

(** X19.  A script that cannot be opened: [main] writes "sh: cannot open"
    with its name and exits with status 1; no prompt is written and nothing
    is read.  Arguments after the name of the script play no part. *)
Theorem script_not_opened n (name script : string) more os st :
  opens st = false :: os →
  main n (name :: script :: more) st
    = Exited 1 (emit (Out (Cannot_open_script script))
                  (set_opens os (set_bg_jobs (replicate NPROC 0) st)))
  ∧ input (emit (Out (Cannot_open_script script))
             (set_opens os (set_bg_jobs (replicate NPROC 0) st))) = input st
  ∧ trace (emit (Out (Cannot_open_script script))
             (set_opens os (set_bg_jobs (replicate NPROC 0) st)))
    = trace st ++ [Out (Cannot_open_script script)].
Proof.
  intros Hopens. split; [|done].
  unfold main, Sys.open. run_step. by rewrite Hopens.
Qed.

Lemma script_not_opened_witness :
  let st := boot [] [] [] [false] [] [] ("echo hi" +:+ nl) in
  main 9 ["sh"; "nosuch.sh"; "extra"] st
    = Exited 1 (emit (Out (Cannot_open_script "nosuch.sh"))
                  (set_opens [] (set_bg_jobs (replicate NPROC 0) st)))
  ∧ input (emit (Out (Cannot_open_script "nosuch.sh"))
             (set_opens [] (set_bg_jobs (replicate NPROC 0) st))) = input st
  ∧ trace (emit (Out (Cannot_open_script "nosuch.sh"))
             (set_opens [] (set_bg_jobs (replicate NPROC 0) st)))
    = trace st ++ [Out (Cannot_open_script "nosuch.sh")].
Proof.
  apply (script_not_opened 9 "sh" "nosuch.sh" ["extra"] []
           (boot [] [] [] [false] [] [] ("echo hi" +:+ nl))).
  reflexivity.
Defined.

(** X20.  A line that [parsecmd] rejects ends the session: the parser
    runs in the interpreter itself, so its [panic] writes its lines and
    exits the shell with status 1, no process created and the lines that
    follow left unread. *)
Theorem syntax_error_ends_session n fd (line rest : string) out st :
  no_lf line = true → (String.length line < 99)%nat →
  Ascii.eqb (first_char line) NUL = false →
  Sys.is_open fd st = true →
  input st = line +:+ nl +:+ rest →
  Parse.parsecmd (parse_fuel line) line = Parse.Panicked out →
  ∃ st',
    sh_loop (S n) fd st = Exited 1 st'
    ∧ trace st' = trace (line_read fd rest st) ++ (Out <$> out)
    ∧ input st' = rest
    ∧ forks st' = forks st
    ∧ bg_jobs st' = bg_jobs st.
Proof.
  intros Hlf Hlen Hfirst Hopen Hin Hparse.
  rewrite (sh_loop_line n fd line rest st) by done.
  unfold mbind at 1, M_bind at 1, parse_and_run. rewrite Hparse.
  unfold mbind, M_bind, exit.
  eexists. split; [reflexivity|].
  assert (∀ st0,
            trace (foldl (λ st m, emit (Out m) st) st0 out) = trace st0 ++ (Out <$> out)
            ∧ input (foldl (λ st m, emit (Out m) st) st0 out) = input st0
            ∧ forks (foldl (λ st m, emit (Out m) st) st0 out) = forks st0
            ∧ bg_jobs (foldl (λ st m, emit (Out m) st) st0 out) = bg_jobs st0) as Hfold.
  { clear. induction out as [|m out IH]; intros st0; simpl.
    - by rewrite app_nil_r.
    - destruct (IH (emit (Out m) st0)) as (-> & -> & -> & ->).
      simpl. by rewrite <- app_assoc. }
  destruct (Hfold (line_read fd rest st)) as (-> & -> & -> & ->).
  unfold line_read. by destruct (fd =? 0).
Qed.

Lemma syntax_error_ends_session_witness :
  let st := boot [5] [] [] [] [] [] ("echo >" +:+ nl +:+ ("echo hi" +:+ nl)) in
  ∃ st',
    sh_loop (S 3) 0 st = Exited 1 st'
    ∧ trace st' = trace (line_read 0 ("echo hi" +:+ nl) st)
                  ++ (Out <$> [Panic "missing file for redirection"])
    ∧ input st' = "echo hi" +:+ nl
    ∧ forks st' = forks st
    ∧ bg_jobs st' = bg_jobs st.
Proof.
  apply (syntax_error_ends_session 3 0 "echo >" ("echo hi" +:+ nl)
           [Panic "missing file for redirection"]
           (boot [5] [] [] [] [] [] ("echo >" +:+ nl +:+ ("echo hi" +:+ nl))));
    try reflexivity.
  simpl. lia.
Defined.

(** ** The fuel of the parser *)

Section ParserFuel.
Import Parse.
Implicit Types (s rest : string) (c ret : cmd).

Lemma refines_refl {A} (r : presult A) : refines r r.
Proof. by right. Qed.

Lemma refines_bind {A B} (m1 m2 : P A) (f1 f2 : A → P B) s :
  refines (m1 s) (m2 s) →
  (∀ a s', refines (f1 a s') (f2 a s')) →
  refines ((m1 ≫= f1) s) ((m2 ≫= f2) s).
Proof.
  intros Hm Hf. unfold mbind, P_bind.
  destruct Hm as [->| ->]; [by left|].
  destruct (m2 s); [apply Hf | by right | by right].
Qed.

Ltac refines_tac :=
  repeat first
    [ apply refines_refl
    | match goal with
      | H : ∀ ret s, refines (parseredirs _ ret s) _ |- refines (parseredirs _ _ _) _ =>
          apply H
      | H : ∀ ret argv s, refines (parseexec_args _ ret argv s) _
        |- refines (parseexec_args _ _ _ _) _ => apply H
      | H : ∀ c s, refines (parse_backs _ c s) _ |- refines (parse_backs _ _ _) _ =>
          apply H
      | H : ∀ s, refines (parseline _ s) _ |- refines (parseline _ _) _ => apply H
      | H : ∀ s, refines (parsepipe _ s) _ |- refines (parsepipe _ _) _ => apply H
      | H : ∀ s, refines (parseexec _ s) _ |- refines (parseexec _ _) _ => apply H
      | H : ∀ s, refines (parseblock _ s) _ |- refines (parseblock _ _) _ => apply H
      end
    | apply refines_bind; [|intros]
    | match goal with
      | |- refines ((if ?b then _ else _) _) _ => destruct b
      | |- refines ((let '(_, _) := ?x in _) _) _ => destruct x
      end ].

(** More fuel changes no result. *)
Lemma parse_fuel_mono n :
  ∀ m, (n ≤ m)%nat →
    (∀ ret s, refines (parseredirs n ret s) (parseredirs m ret s))
    ∧ (∀ ret argv s, refines (parseexec_args n ret argv s) (parseexec_args m ret argv s))
    ∧ (∀ c s, refines (parse_backs n c s) (parse_backs m c s))
    ∧ (∀ s, refines (parseline n s) (parseline m s))
    ∧ (∀ s, refines (parsepipe n s) (parsepipe m s))
    ∧ (∀ s, refines (parseexec n s) (parseexec m s))
    ∧ (∀ s, refines (parseblock n s) (parseblock m s)).
Proof.
  induction n as [|n IH]; intros m Hm.
  { repeat split; intros; by left. }
  destruct m as [|m]; [lia|].
  destruct (IH m ltac:(lia)) as (Hredirs & Hargs & Hbacks & Hline & Hpipe & Hexec & Hblock).
  repeat split; intros;
    cbn [parseredirs parseexec_args parse_backs parseline parsepipe parseexec parseblock];
    refines_tac.
Qed.

Lemma parsecmd_fuel_mono n m buf :
  (n ≤ m)%nat → refines (parsecmd n buf) (parsecmd m buf).
Proof.
  intros Hnm. unfold parsecmd.
  destruct (parse_fuel_mono n m Hnm) as (_ & _ & _ & Hline & _).
  assert (refines ((cmd ← parseline n; peek "";; mret cmd) (c_string buf))
                  ((cmd ← parseline m; peek "";; mret cmd) (c_string buf))) as [->| ->];
    [|by left | by right].
  apply refines_bind; [apply Hline | intros; apply refines_refl].
Qed.

(** Any fuel with which a parse ends gives the result of [main]'s parse. *)
Lemma parsecmd_any_fuel n buf r :
  parsecmd n buf = r → r ≠ NoFuel → parsecmd (parse_fuel buf) buf = r.
Proof.
  intros Hr Hdone. pose proof (parsecmd_ends buf) as Hends.
  destruct (Nat.le_ge_cases n (parse_fuel buf)) as [Hle|Hle].
  - destruct (parsecmd_fuel_mono _ _ buf Hle) as [E|E]; congruence.
  - destruct (parsecmd_fuel_mono _ _ buf Hle) as [E|E]; [|congruence].
    rewrite E in Hends. done.
Qed.

End ParserFuel.

(** X21.  [parsecmd] ends on every buffer: it returns a tree, the whole
    line consumed, or it panics.  The fuel plays no part in the result:
    any fuel from [parse_fuel buf] on gives the same one, and so does any
    smaller fuel with which the parse ends at all. *)
Theorem parsecmd_always_ends buf :
  ((∃ c, Parse.parsecmd (parse_fuel buf) buf = Parse.Parsed c "")
   ∨ ∃ out, Parse.parsecmd (parse_fuel buf) buf = Parse.Panicked out)
  ∧ (∀ n, (parse_fuel buf ≤ n)%nat →
       Parse.parsecmd n buf = Parse.parsecmd (parse_fuel buf) buf)
  ∧ (∀ n, Parse.parsecmd n buf = Parse.NoFuel
          ∨ Parse.parsecmd n buf = Parse.parsecmd (parse_fuel buf) buf).
Proof.
  pose proof (parsecmd_ends buf) as Hends.
  split; [|split].
  - unfold Parse.parsecmd in *.
    destruct ((cmd ← Parse.parseline (parse_fuel buf); Parse.peek "";; mret cmd)
                (Parse.c_string buf)) as [c [|d s]|out|] eqn:E; [| | |done].
    + left. by exists c.
    + right. by eexists.
    + right. by exists out.
  - intros n Hn. destruct (parsecmd_fuel_mono _ _ buf Hn) as [E|E]; [|done].
    by rewrite E in Hends.
  - intros n. destruct (Nat.le_ge_cases n (parse_fuel buf)) as [Hle|Hle].
    + apply (parsecmd_fuel_mono _ _ buf Hle).
    + right. destruct (parsecmd_fuel_mono _ _ buf Hle) as [E|E]; [|done].
      by rewrite E in Hends.
Qed.

(** ** What the parser puts into a tree *)

Section ParsedWords.
Import Parse.
Implicit Types (s rest w : string) (ret : cmd) (argv : list string).

Lemma no_nul_cons c s : no_nul (String c s) = negb (Ascii.eqb c NUL) && no_nul s.
Proof. reflexivity. Qed.

Lemma skip_whitespace_no_nul s : no_nul s = true → no_nul (skip_whitespace s) = true.
Proof.
  induction s as [|c s IH]; [done|]. rewrite skip_whitespace_cons.
  destruct (strchr whitespace c); [|done].
  rewrite no_nul_cons. intros [_ H]%andb_true_iff. by apply IH.
Qed.

Lemma scan_word_no_nul s :
  no_nul s = true →
  all_chars word_char (scan_word s).1 = true ∧ no_nul (scan_word s).2 = true.
Proof.
  induction s as [|c s IH]; [done|]. rewrite scan_word_cons, no_nul_cons.
  intros [Hc Hs]%andb_true_iff.
  destruct (strchr whitespace c || strchr symbols c) eqn:E.
  - cbn [fst snd]. split; [done|]. by rewrite no_nul_cons, Hc, Hs.
  - destruct (IH Hs) as [Hw Hrest]. destruct (scan_word s) as [w r]. cbn [fst snd] in *.
    split; [|done]. rewrite all_chars_cons, Hw.
    unfold word_char. apply orb_false_iff in E as [-> ->].
    apply negb_true_iff in Hc. by rewrite Hc.
Qed.

Lemma c_string_is_no_nul buf : no_nul (c_string buf) = true.
Proof.
  induction buf as [|c buf IH]; [done|]. cbn [c_string].
  destruct (Ascii.eqb c NUL) eqn:E; [done|]. by rewrite no_nul_cons, E, IH.
Qed.

Lemma parses_ret {A} (Q : A → Prop) (a : A) : Q a → parses Q (mret a).
Proof. intros Ha s Hs. by split. Qed.

Lemma parses_ppanic {A} (Q : A → Prop) msg : parses Q (ppanic msg).
Proof. by intros s Hs. Qed.

Lemma parses_bind {A B} (Q : A → Prop) (R : B → Prop) (m : P A) (f : A → P B) :
  parses Q m → (∀ a, Q a → parses R (f a)) → parses R (m ≫= f).
Proof.
  intros Hm Hf s Hs. unfold mbind, P_bind. specialize (Hm s Hs).
  destruct (m s) as [a s'| |]; [|done..]. destruct Hm as [Ha Hs'].
  by apply Hf.
Qed.

Lemma parses_peek toks : parses (λ _, True) (peek toks).
Proof.
  intros s Hs. destruct (peek_parsed toks s) as [b ->].
  split; [done|]. by apply skip_whitespace_no_nul.
Qed.

(** A token of kind ['a'] is a word. *)
Lemma parses_gettoken :
  parses (λ '(tok, q), tok = "a"%char → is_word q = true) gettoken.
Proof.
  intros s Hs. unfold gettoken.
  pose proof (skip_whitespace_no_nul s Hs) as Hs0.
  destruct (skip_whitespace s) as [|c s1] eqn:E; [by split|].
  pose proof (skip_whitespace_head s c s1 E) as Hws.
  rewrite no_nul_cons in Hs0. apply andb_true_iff in Hs0 as [Hc Hs1].
  apply negb_true_iff in Hc. rewrite Hc.
  pose proof (symbols_are_tokens c) as Hsym.
  destruct (strchr "|();&<" c) eqn:Htok.
  { split; [|by apply skip_whitespace_no_nul]. intros ->. done. }
  destruct (Ascii.eqb c ">") eqn:Hgt.
  { destruct s1 as [|d s2]; [by split|].
    rewrite no_nul_cons in Hs1. apply andb_true_iff in Hs1 as [Hd Hs2].
    destruct (Ascii.eqb d ">") eqn:Hd2.
    - apply Ascii.eqb_eq in Hd2 as ->. split; [done|].
      by apply skip_whitespace_no_nul.
    - assert (match d with
              | ">"%char => Parsed ("+"%char, ">>") (skip_whitespace s2)
              | _ => Parsed (">"%char, ">") (skip_whitespace (String d s2))
              end = Parsed (">"%char, ">") (skip_whitespace (String d s2))) as ->.
      { destruct d as [[] [] [] [] [] [] [] []]; try reflexivity. discriminate. }
      split; [done|]. apply skip_whitespace_no_nul. by rewrite no_nul_cons, Hd, Hs2. }
  cbn [orb] in Hsym.
  assert (no_nul (String c s1) = true) as Hcs1
    by (by rewrite no_nul_cons, Hc, Hs1).
  destruct (scan_word_no_nul _ Hcs1) as [Hw Hrest].
  rewrite scan_word_cons, Hws, Hsym in Hw, Hrest |- *. cbn [orb] in *.
  destruct (scan_word s1) as [w r]. cbn [fst snd] in *.
  split; [|by apply skip_whitespace_no_nul]. intros _. exact Hw.
Qed.

Lemma parseredirs_fits fuel :
  ∀ ret, argv_fits ret → parses argv_fits (parseredirs fuel ret).
Proof.
  induction fuel as [|fuel IH]; intros ret Hret; [by intros s Hs|].
  cbn [parseredirs].
  apply (parses_bind (λ _, True)); [apply parses_peek|]. intros more _.
  destruct more; [|by apply parses_ret].
  apply (parses_bind (λ '(tok, q), tok = "a"%char → is_word q = true));
    [apply parses_gettoken|].
  intros [tok _] _.
  apply (parses_bind (λ '(tok, q), tok = "a"%char → is_word q = true));
    [apply parses_gettoken|].
  intros [tok2 q] Hq.
  destruct (Ascii.eqb tok2 "a") eqn:E; [|apply parses_ppanic]. cbn [negb].
  apply Ascii.eqb_eq in E. specialize (Hq E).
  apply IH. unfold redircmd.
  destruct (Ascii.eqb tok "<"); [by split|].
  destruct (Ascii.eqb tok ">"); [by split|].
  destruct (Ascii.eqb tok "+"); [by split | done].
Qed.

Lemma set_argv_fits ret argv :
  argv_fits ret → (length argv < MAXARGS)%nat → Forall (λ w, is_word w = true) argv →
  argv_fits (set_argv ret argv).
Proof.
  intros Hret Hlen Hwords.
  induction ret as [a b|c IH file mode fd|l _ r _|l _ r _|c _]; simpl in *; try done.
  destruct Hret. split; [by apply IH | done].
Qed.

Lemma parseexec_args_fits fuel :
  ∀ ret argv,
    argv_fits ret → (length argv < MAXARGS)%nat → Forall (λ w, is_word w = true) argv →
    parses (λ '(ret', argv'),
              argv_fits ret' ∧ (length argv' < MAXARGS)%nat
              ∧ Forall (λ w, is_word w = true) argv')
      (parseexec_args fuel ret argv).
Proof.
  induction fuel as [|fuel IH]; intros ret argv Hret Hlen Hwords; [by intros s Hs|].
  cbn [parseexec_args].
  apply (parses_bind (λ _, True)); [apply parses_peek|]. intros stop _.
  destruct stop; [by apply parses_ret|].
  apply (parses_bind (λ '(tok, q), tok = "a"%char → is_word q = true));
    [apply parses_gettoken|].
  intros [tok q] Hq.
  destruct (Ascii.eqb tok NUL); [by apply parses_ret|].
  destruct (Ascii.eqb tok "a") eqn:E; [|apply parses_ppanic]. cbn [negb].
  apply Ascii.eqb_eq in E. specialize (Hq E).
  destruct (MAXARGS <=? length (argv ++ [q]))%nat eqn:Hmax; [apply parses_ppanic|].
  apply Nat.leb_gt in Hmax.
  apply (parses_bind argv_fits); [by apply parseredirs_fits|].
  intros ret' Hret'. apply IH; [done | done|].
  apply Forall_app. split; [done|]. by constructor.
Qed.

Lemma parse_backs_fits fuel :
  ∀ c, argv_fits c → parses argv_fits (parse_backs fuel c).
Proof.
  induction fuel as [|fuel IH]; intros c Hc; [by intros s Hs|].
  cbn [parse_backs].
  apply (parses_bind (λ _, True)); [apply parses_peek|]. intros more _.
  destruct more; [|by apply parses_ret].
  apply (parses_bind (λ '(tok, q), tok = "a"%char → is_word q = true));
    [apply parses_gettoken|].
  intros _ _. by apply IH.
Qed.

Lemma parse_fits fuel :
  parses argv_fits (parseline fuel)
  ∧ parses argv_fits (parsepipe fuel)
  ∧ parses argv_fits (parseexec fuel)
  ∧ parses argv_fits (parseblock fuel).
Proof.
  induction fuel as [|fuel (IHline & IHpipe & IHexec & IHblock)];
    [by repeat split; intros s Hs|].
  repeat split; cbn [parseline parsepipe parseexec parseblock].
  - apply (parses_bind argv_fits); [done|]. intros c1 Hc1.
    apply (parses_bind argv_fits); [by apply parse_backs_fits|]. intros c2 Hc2.
    apply (parses_bind (λ _, True)); [apply parses_peek|]. intros more _.
    destruct more; [|by apply parses_ret].
    apply (parses_bind (λ '(tok, q), tok = "a"%char → is_word q = true));
      [apply parses_gettoken|].
    intros _ _. apply (parses_bind argv_fits); [done|]. intros c3 Hc3.
    by apply parses_ret.
  - apply (parses_bind argv_fits); [done|]. intros c1 Hc1.
    apply (parses_bind (λ _, True)); [apply parses_peek|]. intros more _.
    destruct more; [|by apply parses_ret].
    apply (parses_bind (λ '(tok, q), tok = "a"%char → is_word q = true));
      [apply parses_gettoken|].
    intros _ _. apply (parses_bind argv_fits); [done|]. intros c3 Hc3.
    by apply parses_ret.
  - apply (parses_bind (λ _, True)); [apply parses_peek|]. intros block _.
    destruct block; [done|].
    apply (parses_bind argv_fits).
    { apply parseredirs_fits. split; [unfold MAXARGS; simpl; lia | done]. }
    intros ret Hret.
    apply (parses_bind (λ '(ret', argv'),
              argv_fits ret' ∧ (length argv' < MAXARGS)%nat
              ∧ Forall (λ w, is_word w = true) argv')).
    { apply parseexec_args_fits; [done | unfold MAXARGS; simpl; lia | done]. }
    intros [ret' argv] (Hret' & Hlen & Hwords).
    apply parses_ret. by apply set_argv_fits.
  - apply (parses_bind (λ _, True)); [apply parses_peek|]. intros open _.
    destruct open; [|apply parses_ppanic]. cbn [negb].
    apply (parses_bind (λ '(tok, q), tok = "a"%char → is_word q = true));
      [apply parses_gettoken|].
    intros _ _. apply (parses_bind argv_fits); [done|]. intros c1 Hc1.
    apply (parses_bind (λ _, True)); [apply parses_peek|]. intros close _.
    destruct close; [|apply parses_ppanic]. cbn [negb].
    apply (parses_bind (λ '(tok, q), tok = "a"%char → is_word q = true));
      [apply parses_gettoken|].
    intros _ _. by apply parseredirs_fits.
Qed.

End ParsedWords.

(** X22.  In every tree that [parsecmd] returns, whatever the line, each
    [argv] holds fewer than [MAXARGS] words, so that the terminator has its
    slot and no array of an [execcmd] is written past its end, and each
    argument and each file name is a word: at least one character, none of
    them white space, a symbol of the shell or NUL. *)
Theorem parsed_argv_fits fuel buf c rest :
  Parse.parsecmd fuel buf = Parse.Parsed c rest → argv_fits c.
Proof.
  unfold Parse.parsecmd. intros H.
  pose proof (proj1 (parse_fits fuel) (Parse.c_string buf) (c_string_is_no_nul buf)) as Hline.
  revert H. unfold mbind, Parse.P_bind, mret, Parse.P_ret.
  destruct (Parse.parseline fuel (Parse.c_string buf)) as [c1 s1| |]; [|done..].
  destruct Hline as [Hc1 _].
  destruct (peek_parsed "" s1) as [b ->].
  destruct (Parse.skip_whitespace s1); [|done]. by intros [= <- _].
Qed.

Lemma parsed_argv_fits_witness :
  argv_fits (LIST (PIPE (EXEC ["ls"; "-l"] 0) (REDIR (EXEC ["wc"] 0) "out"
                     (Z.lor (Z.lor O_WRONLY O_CREATE) O_TRUNC) 1))
                  (BACK (EXEC ["sleep"; "5"] 0))).
Proof.
  apply (parsed_argv_fits (parse_fuel "ls -l | wc > out ; sleep 5 &")
           "ls -l | wc > out ; sleep 5 &" _ "").
  vm_compute. reflexivity.
Defined.

(** ** White space before a command *)

Section LeadingBlank.
Import Parse.
Implicit Types (s blank buf : string).

Lemma peek_after_blank toks blank s :
  is_blank blank = true → peek toks (blank +:+ s) = peek toks s.
Proof. intros Hb. unfold peek. by rewrite skip_whitespace_blank. Qed.

Lemma gettoken_after_blank blank s :
  is_blank blank = true → gettoken (blank +:+ s) = gettoken s.
Proof. intros Hb. unfold gettoken. by rewrite skip_whitespace_blank. Qed.

Lemma parseline_after_blank fuel blank s :
  is_blank blank = true → parseline fuel (blank +:+ s) = parseline fuel s.
Proof.
  intros Hb. destruct fuel as [|[|[|fuel]]]; [done..|].
  cbn [parseline parsepipe parseexec]. unfold mbind, P_bind.
  by rewrite peek_after_blank.
Qed.

Lemma c_string_after_blank blank buf :
  is_blank blank = true → c_string (blank +:+ buf) = blank +:+ c_string buf.
Proof.
  intros Hb. induction blank as [|c blank IH]; [done|].
  unfold is_blank in Hb. rewrite all_chars_cons in Hb.
  apply andb_true_iff in Hb as [Hc Hb]. rewrite !append_cons. cbn [c_string].
  assert (Ascii.eqb c NUL = false) as ->.
  { destruct (Ascii.eqb_spec c NUL) as [->|]; [done | done]. }
  by rewrite IH.
Qed.

Lemma parsecmd_after_blank fuel blank buf :
  is_blank blank = true → parsecmd fuel (blank +:+ buf) = parsecmd fuel buf.
Proof.
  intros Hb. unfold parsecmd. rewrite c_string_after_blank by done.
  unfold mbind, P_bind. by rewrite parseline_after_blank.
Qed.

End LeadingBlank.

(** X23.  White space before a command changes nothing: [peek] and
    [gettoken] skip it, so the line with white space in front is parsed
    into the same tree, or panics with the same lines, as the line
    without it, and runs alike. *)
Theorem leading_blank_is_skipped (blank buf : string) st :
  is_blank blank = true →
  Parse.parsecmd (parse_fuel (blank +:+ buf)) (blank +:+ buf)
    = Parse.parsecmd (parse_fuel buf) buf
  ∧ parse_and_run (blank +:+ buf) st = parse_and_run buf st
  ∧ (∀ toks s, Parse.peek toks (blank +:+ s) = Parse.peek toks s)
  ∧ (∀ s, Parse.gettoken (blank +:+ s) = Parse.gettoken s).
Proof.
  intros Hb.
  assert (Parse.parsecmd (parse_fuel (blank +:+ buf)) (blank +:+ buf)
          = Parse.parsecmd (parse_fuel buf) buf) as Hparse.
  { rewrite parsecmd_after_blank by done.
    destruct (parsecmd_fuel_mono (parse_fuel buf) (parse_fuel (blank +:+ buf)) buf)
      as [E|E]; [|by pose proof (parsecmd_ends buf) as H; rewrite E in H|done].
    unfold parse_fuel. rewrite string_length_app. lia. }
  split; [done|]. split; [by unfold parse_and_run; rewrite Hparse|].
  split; [intros; by apply peek_after_blank | intros; by apply gettoken_after_blank].
Qed.

Lemma leading_blank_is_skipped_witness :
  let st := boot [5] [(5, 0)] [] [] [] [] "" in
  Parse.parsecmd (parse_fuel ("   " +:+ "echo hi")) ("   " +:+ "echo hi")
    = Parse.parsecmd (parse_fuel "echo hi") "echo hi"
  ∧ parse_and_run ("   " +:+ "echo hi") st = parse_and_run "echo hi" st
  ∧ (∀ toks s, Parse.peek toks ("   " +:+ s) = Parse.peek toks s)
  ∧ (∀ s, Parse.gettoken ("   " +:+ s) = Parse.gettoken s).
Proof.
  apply (leading_blank_is_skipped "   " "echo hi" (boot [5] [(5, 0)] [] [] [] [] "")).
  reflexivity.
Defined.

(** ** A simple command and what follows it *)

Section SimpleCommandThen.
Import Parse.
Implicit Types (s rest w file blank : string) (ret : cmd) (ws argv : list string).

(** The loop of [parseexec] over the words of a command, up to what
    follows the last of them. *)
Lemma parseexec_args_then ws :
  ∀ argv ret rest fuel,
    ws ≠ [] → Forall (λ w, is_word w = true) ws → stops rest = true →
    (length argv + length ws < MAXARGS)%nat →
    parseexec_args (length ws + fuel) ret argv (next_cursor ws rest)
      = (ret ← parseredirs fuel ret; parseexec_args fuel ret (argv ++ ws))
          (skip_whitespace rest).
Proof.
  induction ws as [|w ws IH]; intros argv ret rest fuel Hne Hws Hrest Hlen; [done|].
  apply Forall_cons in Hws as [Hw Hws].
  cbn [length Nat.add]. rewrite parseexec_args_word by done.
  rewrite length_app. cbn [length] in *.
  destruct (Nat.leb_spec MAXARGS (length argv + 1)) as [|Hroom]; [lia|].
  destruct ws as [|w2 ws]; [done|].
  pose proof Hws as Hws'. apply Forall_cons in Hws' as [Hw2 _].
  bind_step. cbn [length Nat.add].
  rewrite next_cursor_no_redir_words by done.
  change (S (length ws + fuel)) with (length (w2 :: ws) + fuel)%nat.
  rewrite (IH (argv ++ [w]) ret rest fuel); [|done|done|done|].
  - by rewrite <- app_assoc.
  - rewrite length_app. cbn [length] in *. lia.
Qed.

Lemma parseexec_then w ws rest fuel :
  Forall (λ w, is_word w = true) (w :: ws) → stops rest = true →
  (length (w :: ws) < MAXARGS)%nat →
  parseexec (S (length (w :: ws) + fuel)) (unwords (w :: ws) +:+ rest)
    = (ret ← parseredirs fuel execcmd;
       '(ret, argv) ← parseexec_args fuel ret (w :: ws);
       mret (set_argv ret argv)) (skip_whitespace rest).
Proof.
  intros Hws Hrest Hlen.
  pose proof Hws as Hws'. apply Forall_cons in Hws' as [Hw _].
  parse_step. rewrite unwords_cons_app at 1. rewrite peek_word by done.
  rewrite <- unwords_cons_app. bind_step.
  change (unwords (w :: ws) +:+ rest) with (next_cursor (w :: ws) rest).
  cbn [length Nat.add].
  rewrite next_cursor_no_redir_words by done.
  change (S (length ws + fuel)) with (length (w :: ws) + fuel)%nat.
  rewrite (parseexec_args_then (w :: ws) [] execcmd rest fuel) by done.
  unfold mbind, P_bind. by destruct (parseredirs fuel execcmd (skip_whitespace rest)).
Qed.

(** A simple command with nothing of its own after it. *)
Lemma parseexec_alone w ws rest fuel :
  Forall (λ w, is_word w = true) (w :: ws) → stops rest = true →
  ends_command rest = true →
  (length (w :: ws) < MAXARGS)%nat →
  parseexec (S (S (S (length (w :: ws) + fuel)))) (unwords (w :: ws) +:+ rest)
    = Parsed (EXEC (w :: ws) 0) (skip_whitespace rest).
Proof.
  intros Hws Hrest Hend Hlen. apply parseexec_words; try done.
  cbn [length] in *. lia.
Qed.

(** One redirection taken by [parseredirs]. *)
Lemma parseredirs_step fuel ret (sym : string) blank file rest :
  is_blank blank = true → is_word file = true → stops rest = true →
  (sym = "<" ∨ sym = ">" ∨ sym = ">>") →
  parseredirs (S fuel) ret (sym +:+ blank +:+ file +:+ rest)
    = parseredirs fuel
        (if String.eqb sym "<" then REDIR ret file O_RDONLY 0
         else if String.eqb sym ">" then
           REDIR ret file (Z.lor (Z.lor O_WRONLY O_CREATE) O_TRUNC) 1
         else REDIR ret file (Z.lor O_WRONLY O_CREATE) 1)
        (skip_whitespace rest).
Proof.
  intros Hblank Hfile Hrest Hsym.
  destruct (file_after_symbol blank file rest Hblank Hfile Hrest) as (Hskip & Hfile' & Hgt).
  destruct Hsym as [->|[->| ->]].
  - change ("<" +:+ blank +:+ file +:+ rest)
      with (String "<" (blank +:+ file +:+ rest)).
    cbn [parseredirs]. unfold mbind, P_bind. cbv beta iota.
    rewrite peek_redir_symbol by auto. cbv beta iota.
    rewrite gettoken_lt, Hskip, Hfile'. reflexivity.
  - change (">" +:+ blank +:+ file +:+ rest)
      with (String ">" (blank +:+ file +:+ rest)).
    cbn [parseredirs]. unfold mbind, P_bind. cbv beta iota.
    rewrite peek_redir_symbol by auto. cbv beta iota.
    rewrite gettoken_gt by done. rewrite Hskip, Hfile'. reflexivity.
  - change (">>" +:+ blank +:+ file +:+ rest)
      with (String ">" (String ">" (blank +:+ file +:+ rest))).
    cbn [parseredirs]. unfold mbind, P_bind. cbv beta iota.
    rewrite peek_redir_symbol by auto. cbv beta iota.
    rewrite gettoken_gtgt, Hskip, Hfile'. reflexivity.
Qed.

(** A redirection symbol with no file name after it. *)
Lemma parseredirs_no_file fuel ret (sym : string) blank :
  is_blank blank = true →
  (sym = "<" ∨ sym = ">" ∨ sym = ">>") →
  parseredirs (S fuel) ret (sym +:+ blank)
    = Panicked [Panic "missing file for redirection"].
Proof.
  intros Hblank Hsym.
  assert (Ascii.eqb (first_char blank) ">" = false) as Hgt.
  { destruct blank as [|b blank]; [done|]. simpl.
    unfold is_blank in Hblank. rewrite all_chars_cons in Hblank.
    apply andb_true_iff in Hblank as [Hb _].
    destruct (Ascii.eqb_spec b ">") as [->|]; done. }
  destruct Hsym as [->|[->| ->]].
  - change ("<" +:+ blank) with (String "<" blank).
    cbn [parseredirs]. unfold mbind, P_bind. cbv beta iota.
    rewrite peek_redir_symbol by auto. cbv beta iota.
    rewrite gettoken_lt, skip_whitespace_all_blank by done. reflexivity.
  - change (">" +:+ blank) with (String ">" blank).
    cbn [parseredirs]. unfold mbind, P_bind. cbv beta iota.
    rewrite peek_redir_symbol by auto. cbv beta iota.
    rewrite gettoken_gt by done. rewrite skip_whitespace_all_blank by done.
    reflexivity.
  - change (">>" +:+ blank) with (String ">" (String ">" blank)).
    cbn [parseredirs]. unfold mbind, P_bind. cbv beta iota.
    rewrite peek_redir_symbol by auto. cbv beta iota.
    rewrite gettoken_gtgt, skip_whitespace_all_blank by done. reflexivity.
Qed.

Lemma parsecmd_of_parseline fuel line :
  no_nul line = true →
  parsecmd fuel line
    = match (cmd ← parseline fuel; peek "";; mret cmd) line with
      | Parsed cmd EmptyString => Parsed cmd EmptyString
      | Parsed cmd s => Panicked [Leftovers s; Panic "syntax"]
      | other => other
      end.
Proof. intros Hnul. unfold parsecmd. by rewrite c_string_no_nul. Qed.

(** A result obtained with some fuel is the result of the parse that
    [main] makes. *)
Lemma parsecmd_parsed_any_fuel n buf c :
  parsecmd n buf = Parsed c "" → parsecmd (parse_fuel buf) buf = Parsed c "".
Proof. intros H. by apply (parsecmd_any_fuel n). Qed.

Lemma parsecmd_panicked_any_fuel n buf out :
  parsecmd n buf = Panicked out → parsecmd (parse_fuel buf) buf = Panicked out.
Proof. intros H. by apply (parsecmd_any_fuel n). Qed.

Lemma no_nul_app s1 s2 : no_nul (s1 +:+ s2) = no_nul s1 && no_nul s2.
Proof. apply all_chars_app. Qed.

End SimpleCommandThen.

(** ** Pipelines of any length *)

Section PipelinesParsed.
Import Parse.
Implicit Types (s rest : string) (ws : list string) (cmds : list (list string)).

Lemma parsepipe_more n m s (c : cmd) s' :
  (n ≤ m)%nat → parsepipe n s = Parsed c s' → parsepipe m s = Parsed c s'.
Proof.
  intros Hnm H. destruct (parse_fuel_mono n m Hnm) as (_ & _ & _ & _ & Hpipe & _).
  destruct (Hpipe s) as [E|E]; congruence.
Qed.

Lemma parseexec_more n m s (c : cmd) s' :
  (n ≤ m)%nat → parseexec n s = Parsed c s' → parseexec m s = Parsed c s'.
Proof.
  intros Hnm H. destruct (parse_fuel_mono n m Hnm) as (_ & _ & _ & _ & _ & Hexec & _).
  destruct (Hexec s) as [E|E]; congruence.
Qed.

Lemma parsepipe_skip fuel s : parsepipe fuel (skip_whitespace s) = parsepipe fuel s.
Proof.
  destruct fuel as [|[|fuel]]; [done..|].
  cbn [parsepipe parseexec]. unfold mbind, P_bind, peek.
  by rewrite skip_whitespace_idem.
Qed.

Lemma parseline_skip fuel s : parseline fuel (skip_whitespace s) = parseline fuel s.
Proof.
  destruct fuel as [|fuel]; [done|].
  cbn [parseline]. unfold mbind, P_bind. by rewrite parsepipe_skip.
Qed.

Lemma no_nul_pipeline_text cmds :
  Forall simple_command cmds → no_nul (pipeline_text cmds) = true.
Proof.
  induction cmds as [|ws cmds IH]; [done|]. intros [Hws Hcmds]%Forall_cons.
  destruct Hws as (_ & Hws & _). specialize (IH Hcmds).
  destruct cmds as [|ws2 cmds]; [by apply no_nul_unwords|].
  change (pipeline_text (ws :: ws2 :: cmds))
    with (unwords ws +:+ " | " +:+ pipeline_text (ws2 :: cmds)).
  rewrite !no_nul_app, IH, no_nul_unwords by done. done.
Qed.

(** The pipeline and what follows it, with fuel enough. *)
Lemma parsepipe_pipeline cmds :
  cmds ≠ [] → Forall simple_command cmds →
  ∀ rest,
    stops rest = true → ends_command rest = true →
    peek "|" (skip_whitespace rest) = Parsed false (skip_whitespace rest) →
    ∃ n, parsepipe n (pipeline_text cmds +:+ rest)
         = Parsed (pipeline cmds) (skip_whitespace rest).
Proof.
  induction cmds as [|ws cmds IH]; [done|].
  intros _ [Hws Hcmds]%Forall_cons rest Hstops Hend Hpeek.
  destruct Hws as (Hne & Hws & Hlen). destruct ws as [|w ws]; [done|].
  destruct cmds as [|ws2 cmds].
  - exists (S (S (S (S (length (w :: ws) + 0))))).
    cbn [pipeline pipeline_text parsepipe]. unfold mbind, P_bind.
    rewrite parseexec_alone by done. by rewrite Hpeek.
  - destruct (IH ltac:(done) Hcmds rest Hstops Hend Hpeek) as [n1 Hrec].
    set (X := pipeline_text (ws2 :: cmds) +:+ rest) in *.
    set (F := Nat.max (S (S (S (length (w :: ws) + 0)))) n1).
    exists (S F).
    change (pipeline (_ :: _ :: _)) with (PIPE (EXEC (w :: ws) 0) (pipeline (ws2 :: cmds))).
    change (pipeline_text ((w :: ws) :: ws2 :: cmds))
      with (unwords (w :: ws) +:+ " | " +:+ pipeline_text (ws2 :: cmds)).
    rewrite !append_assoc. fold X.
    cbn [parsepipe]. unfold mbind, P_bind.
    rewrite (parseexec_more (S (S (S (length (w :: ws) + 0)))) F _
               (EXEC (w :: ws) 0) (skip_whitespace (" | " +:+ X)));
      [|lia|by apply parseexec_alone].
    change (skip_whitespace (" | " +:+ X)) with (String "|" (String " " X)).
    change (peek "|" (String "|" (String " " X)))
      with (Parsed true (String "|" (String " " X))).
    cbv beta iota.
    change (gettoken (String "|" (String " " X)))
      with (Parsed ("|"%char, "|") (skip_whitespace X)).
    cbv beta iota. rewrite parsepipe_skip.
    rewrite (parsepipe_more n1 F _ _ _ ltac:(lia) Hrec). reflexivity.
Qed.

Lemma parsecmd_of_parsepipe n line (c : cmd) :
  no_nul line = true →
  parsepipe n line = Parsed c "" → parsecmd (S n) line = Parsed c "".
Proof.
  intros Hnul Hpipe. rewrite parsecmd_of_parseline by done.
  cbn [parseline]. unfold mbind, P_bind, mret, P_ret. rewrite Hpipe.
  destruct n as [|n]; [done|]. reflexivity.
Qed.

End PipelinesParsed.

(** X24.  A line of simple commands with [|] between them is parsed into
    [PIPE] nodes nested to the right: the first command is the left side
    of the outermost node and the rest of the pipeline its right side.  So
    of [a | b | c] the interpreter creates two children, one for [a] and one
    for [b | c], and the second creates the children of [b] and of [c]. *)
Theorem pipelines_nest_to_the_right cmds :
  cmds ≠ [] → Forall simple_command cmds →
  Parse.parsecmd (parse_fuel (pipeline_text cmds)) (pipeline_text cmds)
    = Parse.Parsed (pipeline cmds) ""
  ∧ ∀ ws more, more ≠ [] →
      pipeline (ws :: more) = PIPE (EXEC ws 0) (pipeline more).
Proof.
  intros Hne Hcmds. split.
  - destruct (parsepipe_pipeline cmds Hne Hcmds "" eq_refl eq_refl eq_refl) as [n Hn].
    rewrite append_empty_r in Hn.
    apply (parsecmd_parsed_any_fuel (S n)).
    apply parsecmd_of_parsepipe; [by apply no_nul_pipeline_text | done].
  - intros ws [|ws2 more] Hmore; [done | reflexivity].
Qed.

Lemma pipelines_nest_to_the_right_witness :
  let cmds := [["ls"; "-l"]; ["grep"; "x"]; ["wc"]] in
  Parse.parsecmd (parse_fuel (pipeline_text cmds)) (pipeline_text cmds)
    = Parse.Parsed (pipeline cmds) ""
  ∧ ∀ ws more, more ≠ [] →
      pipeline (ws :: more) = PIPE (EXEC ws 0) (pipeline more).
Proof.
  apply (pipelines_nest_to_the_right [["ls"; "-l"]; ["grep"; "x"]; ["wc"]]).
  - discriminate.
  - repeat constructor; (discriminate || (unfold MAXARGS; simpl; lia)).
Defined.

(** ** Sequences and what is left over *)

Section LinesOfSimpleCommands.
Import Parse.
Implicit Types (s rest t : string) (a b : list string).

(** The productions, one level at a time. *)
Lemma parseline_S n s :
  parseline (S n) s
    = (cmd ← parsepipe n;
       cmd ← parse_backs n cmd;
       more ← peek ";";
       if more : bool then
         gettoken;;
         r ← parseline n;
         mret (listcmd cmd r)
       else mret cmd) s.
Proof. reflexivity. Qed.

Lemma parsepipe_S n s :
  parsepipe (S n) s
    = (cmd ← parseexec n;
       more ← peek "|";
       if more : bool then
         gettoken;;
         r ← parsepipe n;
         mret (pipecmd cmd r)
       else mret cmd) s.
Proof. reflexivity. Qed.

Lemma parse_backs_S n (cmd : cmd) s :
  parse_backs (S n) cmd s
    = (more ← peek "&";
       if more : bool then gettoken;; parse_backs n (backcmd cmd)
       else mret cmd) s.
Proof. reflexivity. Qed.

Lemma parseexec_S n s :
  parseexec (S n) s
    = (block ← peek "(";
       if block : bool then parseblock n
       else
         ret ← parseredirs n execcmd;
         '(ret, argv) ← parseexec_args n ret [];
         mret (set_argv ret argv)) s.
Proof. reflexivity. Qed.

Lemma parseblock_S n s :
  parseblock (S n) s
    = (open ← peek "(";
       if negb open then ppanic "parseblock"
       else
         gettoken;;
         cmd ← parseline n;
         close ← peek ")";
         if negb close then ppanic "syntax - missing )"
         else
           gettoken;;
           parseredirs n cmd) s.
Proof. reflexivity. Qed.

Lemma P_bind_parsed {A B} (m : P A) (f : A → P B) s (x : A) s' :
  m s = Parsed x s' → (m ≫= f) s = f x s'.
Proof. intros H. unfold mbind, P_bind. by rewrite H. Qed.

Lemma P_bind_panicked {A B} (m : P A) (f : A → P B) s out :
  m s = Panicked out → (m ≫= f) s = Panicked out.
Proof. intros H. unfold mbind, P_bind. by rewrite H. Qed.

(** [parsepipe] and [parseline] on a simple command: what is left to do
    once the command is read. *)
Lemma parsepipe_simple N a rest :
  simple_command a → stops rest = true → ends_command rest = true →
  (length a + 2 < N)%nat →
  parsepipe (S N) (unwords a +:+ rest)
    = (more ← peek "|";
       if more : bool then
         gettoken;;
         r ← parsepipe N;
         mret (pipecmd (EXEC a 0) r)
       else mret (EXEC a 0)) (skip_whitespace rest).
Proof.
  intros (Hne & Hws & Hlen) Hstops Hend HN.
  destruct a as [|w ws]; [done|].
  rewrite parsepipe_S.
  by rewrite (P_bind_parsed _ _ _ (EXEC (w :: ws) 0) (skip_whitespace rest))
    by (by apply parseexec_words).
Qed.

Lemma parseline_simple N a rest :
  simple_command a → stops rest = true → ends_command rest = true →
  peek "|" (skip_whitespace rest) = Parsed false (skip_whitespace rest) →
  (length a + 2 < N)%nat →
  parseline (S (S N)) (unwords a +:+ rest)
    = (cmd ← parse_backs (S N) (EXEC a 0);
       more ← peek ";";
       if more : bool then
         gettoken;;
         r ← parseline (S N);
         mret (listcmd cmd r)
       else mret cmd) (skip_whitespace rest).
Proof.
  intros Ha Hstops Hend Hpeek HN.
  rewrite parseline_S.
  rewrite (P_bind_parsed _ _ _ (EXEC a 0) (skip_whitespace rest)); [done|].
  rewrite parsepipe_simple by done.
  by rewrite (P_bind_parsed _ _ _ false (skip_whitespace rest)).
Qed.

Lemma peek_word_char toks (c : ascii) t :
  all_chars (strchr symbols) toks = true → word_char c = true →
  peek toks (String c t) = Parsed false (String c t).
Proof.
  intros Htoks Hc. apply (peek_word toks (String c "") t Htoks).
  unfold is_word. by rewrite all_chars_cons, Hc.
Qed.

Lemma skip_whitespace_word_char (c : ascii) t :
  word_char c = true → skip_whitespace (String c t) = String c t.
Proof.
  intros Hc. destruct (word_char_inv c Hc) as (Hws & _ & _).
  by apply skip_whitespace_not_blank.
Qed.

Lemma no_nul_line a rest :
  simple_command a → no_nul rest = true → no_nul (unwords a +:+ rest) = true.
Proof.
  intros (_ & Hws & _) Hrest. by rewrite no_nul_app, no_nul_unwords, Hrest.
Qed.

End LinesOfSimpleCommands.

(** X25.  A command written after [&] on the same line is not parsed:
    [parseline] stops after the [&], and [parsecmd] rejects the line with
    "leftovers" and the text from that command on, then "syntax".  The same
    happens to a [)] that no [(] opened. *)
Theorem text_after_background_is_left_over a (c : ascii) (t : string) :
  simple_command a → no_nul t = true →
  (word_char c = true →
   Parse.parsecmd (parse_fuel (unwords a +:+ " & " +:+ String c t))
       (unwords a +:+ " & " +:+ String c t)
     = Parse.Panicked [Leftovers (String c t); Panic "syntax"])
  ∧ Parse.parsecmd (parse_fuel (unwords a +:+ " )" +:+ t)) (unwords a +:+ " )" +:+ t)
    = Parse.Panicked [Leftovers (")" +:+ t); Panic "syntax"].
Proof.
  intros Ha Ht.
  assert (length a + 2 < length a + 5)%nat as HN by lia.
  revert HN. generalize (length a + 5)%nat as N. intros N HN.
  split.
  - intros Hc.
    assert (no_nul (String c t) = true) as Hct.
    { rewrite no_nul_cons, Ht. destruct (word_char_inv c Hc) as (_ & _ & ->). done. }
    apply (parsecmd_panicked_any_fuel (S (S N))).
    rewrite parsecmd_of_parseline by (by apply no_nul_line).
    unfold mbind at 1, Parse.P_bind at 1.
    rewrite parseline_simple by done.
    change (Parse.skip_whitespace (" & " +:+ String c t))
      with (String "&" (String " " (String c t))).
    destruct N as [|N]; [lia|].
    rewrite (P_bind_parsed _ _ _ (BACK (EXEC a 0)) (String c t)).
    2:{ rewrite parse_backs_S.
        rewrite (P_bind_parsed _ _ _ true (String "&" (String " " (String c t))))
          by reflexivity.
        cbv beta iota.
        rewrite (P_bind_parsed _ _ _ ("&"%char, "&") (String c t)).
        2:{ change (Parse.gettoken (String "&" (String " " (String c t))))
              with (Parse.Parsed ("&"%char, "&") (Parse.skip_whitespace (String c t))).
            by rewrite skip_whitespace_word_char. }
        rewrite parse_backs_S.
        by rewrite (P_bind_parsed _ _ _ false (String c t))
          by (by apply peek_word_char). }
    rewrite (P_bind_parsed _ _ _ false (String c t)) by (by apply peek_word_char).
    cbv beta iota. unfold mret at 1, Parse.P_ret at 1.
    rewrite (P_bind_parsed _ _ _ false (String c t)) by (by apply peek_word_char).
    reflexivity.
  - apply (parsecmd_panicked_any_fuel (S (S N))).
    rewrite parsecmd_of_parseline
      by (apply no_nul_line; [done | by rewrite no_nul_app, Ht]).
    unfold mbind at 1, Parse.P_bind at 1.
    rewrite parseline_simple by done.
    reflexivity.
Qed.

Lemma text_after_background_is_left_over_witness :
  (word_char "e" = true →
   Parse.parsecmd (parse_fuel (unwords ["sleep"; "5"] +:+ " & " +:+ String "e" "cho hi"))
       (unwords ["sleep"; "5"] +:+ " & " +:+ String "e" "cho hi")
     = Parse.Panicked [Leftovers (String "e" "cho hi"); Panic "syntax"])
  ∧ Parse.parsecmd (parse_fuel (unwords ["sleep"; "5"] +:+ " )" +:+ "cho hi"))
      (unwords ["sleep"; "5"] +:+ " )" +:+ "cho hi")
    = Parse.Panicked [Leftovers (")" +:+ "cho hi"); Panic "syntax"].
Proof.
  apply (text_after_background_is_left_over ["sleep"; "5"] "e" "cho hi").
  - split; [discriminate | split; [by repeat constructor | unfold MAXARGS; simpl; lia]].
  - reflexivity.
Defined.

(** X26.  [;] between two simple commands gives a [LIST] of the two.  A
    [;] at the end of the line gives a [LIST] whose right side is the empty
    command, on which [runcmd] calls [exit(1)]: once the command before
    the [;] has run and returned, the interpreter itself exits with status
    1. *)
Theorem trailing_semicolon_ends_the_shell a st :
  simple_command a →
  Parse.parsecmd (parse_fuel (unwords a +:+ " ;")) (unwords a +:+ " ;")
    = Parse.Parsed (LIST (EXEC a 0) (EXEC [] 0)) ""
  ∧ (∀ b, simple_command b →
       Parse.parsecmd (parse_fuel (unwords a +:+ " ; " +:+ unwords b))
           (unwords a +:+ " ; " +:+ unwords b)
         = Parse.Parsed (LIST (EXEC a 0) (EXEC b 0)) "")
  ∧ (∀ st', run (EXEC a 0) st = Ok tt st' →
       parse_and_run (unwords a +:+ " ;") st = Exited 1 st').
Proof.
  intros Ha.
  assert (Parse.parsecmd (parse_fuel (unwords a +:+ " ;")) (unwords a +:+ " ;")
          = Parse.Parsed (LIST (EXEC a 0) (EXEC [] 0)) "") as Hparse.
  { assert (length a + 2 < length a + 5)%nat as HN by lia.
    revert HN. generalize (length a + 5)%nat as N. intros N HN.
    apply (parsecmd_parsed_any_fuel (S (S N))).
    rewrite parsecmd_of_parseline by (by apply no_nul_line).
    unfold mbind at 1, Parse.P_bind at 1.
    rewrite parseline_simple by done.
    destruct N as [|[|[|N]]]; [lia..|]. reflexivity. }
  split; [done|]. split.
  - intros b Hb.
    assert (length a + 2 < length a + length b + 5)%nat as HNa by lia.
    assert (length b + 2 < length a + length b + 5)%nat as HNb by lia.
    revert HNa HNb. generalize (length a + length b + 5)%nat as N. intros N HNa HNb.
    apply (parsecmd_parsed_any_fuel (S (S (S N)))).
    rewrite parsecmd_of_parseline
      by (apply no_nul_line; [done|];
          rewrite no_nul_app; destruct Hb as (_ & Hb & _); by rewrite no_nul_unwords).
    unfold mbind at 1, Parse.P_bind at 1.
    rewrite parseline_simple by (done || lia).
    change (Parse.skip_whitespace (" ; " +:+ unwords b))
      with (String ";" (String " " (unwords b))).
    rewrite (P_bind_parsed _ _ _ (EXEC a 0) (String ";" (String " " (unwords b))))
      by reflexivity.
    rewrite (P_bind_parsed _ _ _ true (String ";" (String " " (unwords b))))
      by reflexivity.
    cbv beta iota.
    rewrite (P_bind_parsed _ _ _ (";"%char, ";") (Parse.skip_whitespace (unwords b)))
      by reflexivity.
    rewrite (P_bind_parsed _ _ _ (EXEC b 0) ""); [reflexivity|].
    rewrite parseline_skip.
    rewrite <- (append_empty_r (unwords b)).
    rewrite parseline_simple by done.
    destruct N as [|N]; [lia|]. reflexivity.
  - intros st' Hrun. unfold parse_and_run. rewrite Hparse.
    rewrite run_LIST. unfold mbind, M_bind. by rewrite Hrun.
Qed.

Lemma trailing_semicolon_ends_the_shell_witness :
  let st := boot [] [] [] [] [true] [] "" in
  Parse.parsecmd (parse_fuel (unwords ["cd"; "/"] +:+ " ;")) (unwords ["cd"; "/"] +:+ " ;")
    = Parse.Parsed (LIST (EXEC ["cd"; "/"] 0) (EXEC [] 0)) ""
  ∧ (∀ b, simple_command b →
       Parse.parsecmd (parse_fuel (unwords ["cd"; "/"] +:+ " ; " +:+ unwords b))
           (unwords ["cd"; "/"] +:+ " ; " +:+ unwords b)
         = Parse.Parsed (LIST (EXEC ["cd"; "/"] 0) (EXEC b 0)) "")
  ∧ (∀ st', run (EXEC ["cd"; "/"] 0) st = Ok tt st' →
       parse_and_run (unwords ["cd"; "/"] +:+ " ;") st = Exited 1 st').
Proof.
  apply (trailing_semicolon_ends_the_shell ["cd"; "/"] (boot [] [] [] [] [true] [] "")).
  split; [discriminate | split; [by repeat constructor | unfold MAXARGS; simpl; lia]].
Defined.

(** ** Redirections on the line *)

Section RedirectionsOnTheLine.
Import Parse.
Implicit Types (s rest sym file blank : string) (a : list string).

Lemma parsecmd_of_parseexec N line (c : cmd) :
  no_nul line = true →
  parseexec (S N) line = Parsed c "" → parsecmd (S (S (S N))) line = Parsed c "".
Proof.
  intros Hnul Hexec. apply parsecmd_of_parsepipe; [done|].
  rewrite parsepipe_S. by rewrite (P_bind_parsed _ _ _ c "").
Qed.

Lemma parsecmd_of_parseexec_panicked N line out :
  no_nul line = true →
  parseexec N line = Panicked out → parsecmd (S (S N)) line = Panicked out.
Proof.
  intros Hnul Hexec. rewrite parsecmd_of_parseline by done.
  unfold mbind at 1, P_bind at 1. rewrite parseline_S.
  rewrite (P_bind_panicked _ _ _ out); [done|].
  rewrite parsepipe_S. by apply P_bind_panicked.
Qed.

Lemma redir_symbol_first sym :
  redir_symbol sym →
  ∃ c s, sym = String c s ∧ (c = "<" ∨ c = ">")%char
         ∧ strchr whitespace c = false ∧ no_nul sym = true.
Proof.
  intros [->|[->| ->]]; eexists _, _; (split; [reflexivity|]); repeat split;
    by (left + right).
Qed.

Lemma peek_at_redir_symbol toks sym rest :
  redir_symbol sym → all_chars (λ c, negb (strchr "<>" c)) toks = true →
  peek toks (sym +:+ rest) = Parsed false (sym +:+ rest).
Proof.
  intros Hsym Htoks.
  destruct (redir_symbol_first sym Hsym) as (c & s & -> & Hc & Hws & _).
  rewrite append_cons. unfold peek. rewrite skip_whitespace_not_blank by done.
  f_equal. apply andb_false_iff. right.
  induction toks as [|d toks IH]; [done|].
  rewrite all_chars_cons in Htoks. apply andb_true_iff in Htoks as [Hd Htoks].
  cbn [strchr]. rewrite (IH Htoks), orb_false_r.
  apply negb_true_iff in Hd. cbn [strchr] in Hd. rewrite orb_false_r in Hd.
  apply orb_false_iff in Hd as [H1 H2].
  destruct Hc as [->| ->]; by rewrite Ascii.eqb_sym.
Qed.

End RedirectionsOnTheLine.

(** X27.  A redirection symbol that no file name follows makes the parse
    panic with "missing file for redirection", whichever of the three
    symbols it is, after a command or with no command at all. *)
Theorem redirection_without_file_panics a (sym blank : string) :
  simple_command a → redir_symbol sym → is_blank blank = true →
  Parse.parsecmd (parse_fuel (unwords a +:+ " " +:+ sym +:+ blank))
      (unwords a +:+ " " +:+ sym +:+ blank)
    = Parse.Panicked [Panic "missing file for redirection"]
  ∧ Parse.parsecmd (parse_fuel (sym +:+ blank)) (sym +:+ blank)
    = Parse.Panicked [Panic "missing file for redirection"].
Proof.
  intros (Hne & Hws & Hlen) Hsym Hblank.
  destruct (redir_symbol_first sym Hsym) as (c & s & Esym & Hc & Hcws & Hsymnul).
  assert (no_nul (sym +:+ blank) = true) as Hnul
    by (by rewrite no_nul_app, Hsymnul, no_nul_blank).
  split.
  - destruct a as [|w ws]; [done|].
    apply (parsecmd_panicked_any_fuel (S (S (S (length (w :: ws) + 1))))).
    apply parsecmd_of_parseexec_panicked.
    { rewrite no_nul_app, no_nul_unwords by done.
      change (" " +:+ sym +:+ blank) with (String " " (sym +:+ blank)).
      by rewrite no_nul_cons, Hnul. }
    rewrite parseexec_then by done.
    change (Parse.skip_whitespace (" " +:+ sym +:+ blank))
      with (Parse.skip_whitespace (sym +:+ blank)).
    rewrite Esym, append_cons, skip_whitespace_not_blank, <- append_cons, <- Esym by done.
    apply P_bind_panicked. by apply parseredirs_no_file.
  - apply (parsecmd_panicked_any_fuel (S (S (S 1)))).
    apply parsecmd_of_parseexec_panicked; [done|].
    rewrite parseexec_S.
    rewrite (P_bind_parsed _ _ _ false (sym +:+ blank))
      by (by apply peek_at_redir_symbol).
    cbv beta iota. apply P_bind_panicked. by apply parseredirs_no_file.
Qed.

Lemma redirection_without_file_panics_witness :
  Parse.parsecmd (parse_fuel (unwords ["echo"; "hi"] +:+ " " +:+ ">>" +:+ "  "))
      (unwords ["echo"; "hi"] +:+ " " +:+ ">>" +:+ "  ")
    = Parse.Panicked [Panic "missing file for redirection"]
  ∧ Parse.parsecmd (parse_fuel (">>" +:+ "  ")) (">>" +:+ "  ")
    = Parse.Panicked [Panic "missing file for redirection"].
Proof.
  apply (redirection_without_file_panics ["echo"; "hi"] ">>" "  ").
  - split; [discriminate | split; [by repeat constructor | unfold MAXARGS; simpl; lia]].
  - by right; right.
  - reflexivity.
Defined.

(** X28.  A redirection may stand before the words of a command or after
    them: both lines are parsed into the same tree, the [REDIR] node around
    the [EXEC] with all the words.  Of two redirections after a command the
    second is the outer node, so it is the first that is in force when the
    command runs. *)
Theorem redirection_before_or_after a (sym file sym2 file2 : string) :
  simple_command a → redir_symbol sym → is_word file = true →
  redir_symbol sym2 → is_word file2 = true →
  Parse.parsecmd (parse_fuel (unwords a +:+ " " +:+ sym +:+ " " +:+ file))
      (unwords a +:+ " " +:+ sym +:+ " " +:+ file)
    = Parse.Parsed (redir_node sym (EXEC a 0) file) ""
  ∧ Parse.parsecmd (parse_fuel (sym +:+ " " +:+ file +:+ " " +:+ unwords a))
      (sym +:+ " " +:+ file +:+ " " +:+ unwords a)
    = Parse.Parsed (redir_node sym (EXEC a 0) file) ""
  ∧ Parse.parsecmd
      (parse_fuel (unwords a +:+ " " +:+ sym +:+ " " +:+ file
                   +:+ " " +:+ sym2 +:+ " " +:+ file2))
      (unwords a +:+ " " +:+ sym +:+ " " +:+ file +:+ " " +:+ sym2 +:+ " " +:+ file2)
    = Parse.Parsed (redir_node sym2 (redir_node sym (EXEC a 0) file) file2) "".
Proof.
  intros (Hne & Hws & Hlen) Hsym Hfile Hsym2 Hfile2.
  destruct (redir_symbol_first sym Hsym) as (c & s & Esym & Hc & Hcws & Hsymnul).
  destruct (redir_symbol_first sym2 Hsym2) as (c2 & s2 & Esym2 & Hc2 & Hcws2 & Hsymnul2).
  destruct a as [|w ws]; [done|].
  assert (∀ x, no_nul x = true → no_nul (" " +:+ x) = true) as Hsp
    by (intros x Hx; change (" " +:+ x) with (String " " x); by rewrite no_nul_cons, Hx).
  assert (∀ x, Parse.skip_whitespace (" " +:+ sym +:+ x) = sym +:+ x) as Hskip.
  { intros x. change (" " +:+ sym +:+ x) with (String " " (sym +:+ x)).
    rewrite skip_whitespace_cons. change (Parse.strchr Parse.whitespace " ") with true.
    cbv iota. rewrite Esym, append_cons. by apply skip_whitespace_not_blank. }
  assert (∀ x, Parse.skip_whitespace (" " +:+ sym2 +:+ x) = sym2 +:+ x) as Hskip2.
  { intros x. change (" " +:+ sym2 +:+ x) with (String " " (sym2 +:+ x)).
    rewrite skip_whitespace_cons. change (Parse.strchr Parse.whitespace " ") with true.
    cbv iota. rewrite Esym2, append_cons. by apply skip_whitespace_not_blank. }
  assert (∀ sy r, redir_symbol sy →
            (if String.eqb sy "<" then REDIR r file O_RDONLY 0
             else if String.eqb sy ">" then
               REDIR r file (Z.lor (Z.lor O_WRONLY O_CREATE) O_TRUNC) 1
             else REDIR r file (Z.lor O_WRONLY O_CREATE) 1) = redir_node sy r file)
    as Hnode by done.
  split; [|split].
  - apply (parsecmd_parsed_any_fuel (S (S (S (length (w :: ws) + 3))))).
    apply parsecmd_of_parseexec.
    { rewrite no_nul_app, no_nul_unwords by done. apply Hsp.
      rewrite no_nul_app, Hsymnul. apply Hsp. by apply no_nul_word. }
    rewrite parseexec_then by done. rewrite Hskip.
    rewrite (P_bind_parsed _ _ _ (redir_node sym Parse.execcmd file) "").
    2:{ rewrite <- (append_empty_r file) at 1.
        rewrite (parseredirs_step _ _ sym " " file "") by done. reflexivity. }
    unfold redir_node.
    destruct Hsym as [->|[->| ->]]; reflexivity.
  - apply (parsecmd_parsed_any_fuel (S (S (S (S (S (length (w :: ws) + 3))))))).
    apply parsecmd_of_parseexec.
    { rewrite no_nul_app, Hsymnul. apply Hsp. rewrite no_nul_app, no_nul_word by done.
      apply Hsp. by apply no_nul_unwords. }
    rewrite parseexec_S.
    rewrite (P_bind_parsed _ _ _ false (sym +:+ " " +:+ file +:+ " " +:+ unwords (w :: ws)))
      by (by apply peek_at_redir_symbol).
    cbv beta iota.
    rewrite (P_bind_parsed _ _ _ (redir_node sym Parse.execcmd file)
               (next_cursor (w :: ws) "")).
    2:{ rewrite (parseredirs_step _ _ sym " " file (" " +:+ unwords (w :: ws))) by done.
        change (Parse.skip_whitespace (" " +:+ unwords (w :: ws)))
          with (Parse.skip_whitespace (unwords (w :: ws))).
        pose proof (skip_after_word (w :: ws) "" Hws) as Hnext.
        unfold after_word in Hnext.
        change (" " +:+ unwords (w :: ws) +:+ "")
          with (String " " (unwords (w :: ws) +:+ "")) in Hnext.
        rewrite skip_whitespace_cons in Hnext.
        change (Parse.strchr Parse.whitespace " ") with true in Hnext. cbv iota in Hnext.
        rewrite append_empty_r in Hnext. rewrite Hnext.
        apply Forall_cons in Hws as [Hw _].
        by apply next_cursor_no_redir_words. }
    rewrite (P_bind_parsed _ _ _ (redir_node sym Parse.execcmd file, w :: ws) "").
    2:{ apply (parseexec_args_words (w :: ws) [] _ ""); try done.
        cbn [length] in *. lia. }
    unfold redir_node. destruct Hsym as [->|[->| ->]]; reflexivity.
  - apply (parsecmd_parsed_any_fuel (S (S (S (length (w :: ws) + 4))))).
    apply parsecmd_of_parseexec.
    { rewrite no_nul_app, no_nul_unwords by done. apply Hsp.
      rewrite no_nul_app, Hsymnul. apply Hsp. rewrite no_nul_app, no_nul_word by done.
      apply Hsp. rewrite no_nul_app, Hsymnul2. apply Hsp. by apply no_nul_word. }
    rewrite parseexec_then by done. rewrite Hskip.
    rewrite (P_bind_parsed _ _ _
               (redir_node sym2 (redir_node sym Parse.execcmd file) file2) "").
    2:{ rewrite (parseredirs_step _ _ sym " " file (" " +:+ sym2 +:+ " " +:+ file2))
          by done.
        rewrite Hskip2. rewrite <- (append_empty_r file2) at 1.
        rewrite (parseredirs_step _ _ sym2 " " file2 "") by done. reflexivity. }
    unfold redir_node.
    destruct Hsym as [->|[->| ->]], Hsym2 as [->|[->| ->]]; reflexivity.
Qed.

Lemma redirection_before_or_after_witness :
  Parse.parsecmd (parse_fuel (unwords ["echo"; "hi"] +:+ " " +:+ ">" +:+ " " +:+ "a"))
      (unwords ["echo"; "hi"] +:+ " " +:+ ">" +:+ " " +:+ "a")
    = Parse.Parsed (redir_node ">" (EXEC ["echo"; "hi"] 0) "a") ""
  ∧ Parse.parsecmd (parse_fuel (">" +:+ " " +:+ "a" +:+ " " +:+ unwords ["echo"; "hi"]))
      (">" +:+ " " +:+ "a" +:+ " " +:+ unwords ["echo"; "hi"])
    = Parse.Parsed (redir_node ">" (EXEC ["echo"; "hi"] 0) "a") ""
  ∧ Parse.parsecmd
      (parse_fuel (unwords ["echo"; "hi"] +:+ " " +:+ ">" +:+ " " +:+ "a"
                   +:+ " " +:+ ">>" +:+ " " +:+ "b"))
      (unwords ["echo"; "hi"] +:+ " " +:+ ">" +:+ " " +:+ "a" +:+ " " +:+ ">>" +:+ " " +:+ "b")
    = Parse.Parsed (redir_node ">>" (redir_node ">" (EXEC ["echo"; "hi"] 0) "a") "b") "".
Proof.
  apply (redirection_before_or_after ["echo"; "hi"] ">" "a" ">>" "b").
  - split; [discriminate | split; [by repeat constructor | unfold MAXARGS; simpl; lia]].
  - by right; left.
  - reflexivity.
  - by right; right.
  - reflexivity.
Defined.

(** ** Parentheses *)

(** X29.  Parentheses only group: [parseblock] returns the tree of the
    line between them and leaves no node of its own, so a simple command
    in parentheses is parsed into the same [EXEC] as without them and is
    run by the interpreter itself, with no process created for the
    parentheses.  An opening parenthesis that is not closed makes the
    parse panic with "syntax - missing )". *)
Theorem parentheses_only_group a st :
  simple_command a →
  Parse.parsecmd (parse_fuel ("(" +:+ unwords a +:+ ")")) ("(" +:+ unwords a +:+ ")")
    = Parse.Parsed (EXEC a 0) ""
  ∧ parse_and_run ("(" +:+ unwords a +:+ ")") st = parse_and_run (unwords a) st
  ∧ Parse.parsecmd (parse_fuel ("(" +:+ unwords a)) ("(" +:+ unwords a)
    = Parse.Panicked [Panic "syntax - missing )"].
Proof.
  intros Ha. pose proof Ha as (Hne & Hws & Hlen).
  assert (length a + 2 < length a + 5)%nat as HN by lia.
  revert HN. generalize (length a + 5)%nat as N. intros N HN.
  assert (Parse.parseline (S (S N)) (Parse.skip_whitespace (unwords a +:+ ")"))
          = Parse.Parsed (EXEC a 0) ")") as Hinner.
  { rewrite parseline_skip. rewrite parseline_simple by done. reflexivity. }
  assert (Parse.parseline (S (S N)) (Parse.skip_whitespace (unwords a))
          = Parse.Parsed (EXEC a 0) "") as Hinner'.
  { rewrite parseline_skip. rewrite <- (append_empty_r (unwords a)).
    rewrite parseline_simple by done. reflexivity. }
  assert (Parse.parsecmd (parse_fuel ("(" +:+ unwords a +:+ ")")) ("(" +:+ unwords a +:+ ")")
          = Parse.Parsed (EXEC a 0) "") as Hparse.
  { apply (parsecmd_parsed_any_fuel (S (S (S (S (S (S N))))))).
    apply parsecmd_of_parseexec.
    { change ("(" +:+ unwords a +:+ ")") with (String "(" (unwords a +:+ ")")).
      by rewrite no_nul_cons, no_nul_app, no_nul_unwords. }
    change ("(" +:+ unwords a +:+ ")") with (String "(" (unwords a +:+ ")")).
    rewrite parseexec_S.
    rewrite (P_bind_parsed _ _ _ true (String "(" (unwords a +:+ ")"))) by reflexivity.
    cbv beta iota. rewrite parseblock_S.
    rewrite (P_bind_parsed _ _ _ true (String "(" (unwords a +:+ ")"))) by reflexivity.
    cbv beta iota. cbn [negb].
    rewrite (P_bind_parsed _ _ _ ("("%char, "(")
               (Parse.skip_whitespace (unwords a +:+ ")"))) by reflexivity.
    rewrite (P_bind_parsed _ _ _ (EXEC a 0) ")") by exact Hinner.
    reflexivity. }
  split; [done|]. split.
  - unfold parse_and_run. rewrite Hparse.
    assert (Parse.parsecmd (parse_fuel (unwords a)) (unwords a)
            = Parse.Parsed (EXEC a 0) "") as ->; [|done].
    apply (parsecmd_parsed_any_fuel (S (S N))).
    rewrite parsecmd_of_parseline by (by apply no_nul_unwords).
    rewrite (P_bind_parsed _ _ _ (EXEC a 0) ""); [reflexivity|].
    by rewrite <- parseline_skip.
  - apply (parsecmd_panicked_any_fuel (S (S (S (S (S (S N))))))).
    apply parsecmd_of_parseexec_panicked.
    { change ("(" +:+ unwords a) with (String "(" (unwords a)).
      by rewrite no_nul_cons, no_nul_unwords. }
    change ("(" +:+ unwords a) with (String "(" (unwords a)).
    rewrite parseexec_S.
    rewrite (P_bind_parsed _ _ _ true (String "(" (unwords a))) by reflexivity.
    cbv beta iota. rewrite parseblock_S.
    rewrite (P_bind_parsed _ _ _ true (String "(" (unwords a))) by reflexivity.
    cbv beta iota. cbn [negb].
    rewrite (P_bind_parsed _ _ _ ("("%char, "(")
               (Parse.skip_whitespace (unwords a))) by reflexivity.
    rewrite (P_bind_parsed _ _ _ (EXEC a 0) "") by exact Hinner'.
    reflexivity.
Qed.

Lemma parentheses_only_group_witness :
  let st := boot [] [] [] [] [true] [] "" in
  Parse.parsecmd (parse_fuel ("(" +:+ unwords ["cd"; "/tmp"] +:+ ")"))
      ("(" +:+ unwords ["cd"; "/tmp"] +:+ ")")
    = Parse.Parsed (EXEC ["cd"; "/tmp"] 0) ""
  ∧ parse_and_run ("(" +:+ unwords ["cd"; "/tmp"] +:+ ")") st
    = parse_and_run (unwords ["cd"; "/tmp"]) st
  ∧ Parse.parsecmd (parse_fuel ("(" +:+ unwords ["cd"; "/tmp"]))
      ("(" +:+ unwords ["cd"; "/tmp"])
    = Parse.Panicked [Panic "syntax - missing )"].
Proof.
  apply (parentheses_only_group ["cd"; "/tmp"] (boot [] [] [] [] [true] [] "")).
  split; [discriminate | split; [by repeat constructor | unfold MAXARGS; simpl; lia]].
Defined.

(** ** What [gettoken] takes off the text *)

Section TokenText.
Import Parse.
Implicit Types (s rest q : string).



End TokenText.


